(** * SecurePoL-Watermarking: proof-of-learning verification and spoofing

    A shallow embedding of [PoL/verify.py] and [spoof_cifar/spoof_attack3.py].

    Conventions of the embedding.
    - Python [int] is [Z]; Python [float] and NumPy [float64] are idealised as
      exact rationals [Q] (no rounding error, no NaN, no infinities).  The
      code applies only comparisons, a subtraction and a product by [0.1] to
      the floats that decide control flow.
    - Exceptions are values of [Py.exn]; a computation returns an outcome
      together with the events it emitted (calls to the external training
      function, calls to the distance engine, log lines, files written).
    - External collaborators ([train], [utils.parameter_distance],
      [utils.check_weights_initialization], [hashlib.sha256], torch) are
      Section variables. *)

From Stdlib Require Import List ZArith QArith Qround Lia Lqa Bool.
From Stdlib Require String Ascii.
Import String.StringSyntax.
Delimit Scope string_scope with string.
From Stdlib Require Import Permutation Sorted.
Import ListNotations.

Set Implicit Arguments.

(* ===================================================================== *)
(** * Python and NumPy building blocks *)
(* ===================================================================== *)

Module Py.

Inductive exn : Set :=
| FileNotFoundError
| AssertionError
| ValueError
| TypeError
| ZeroDivisionError
| AxisError
| KeyError
| NameError.

Inductive outcome (A : Type) : Type :=
| Ret (a : A)
| Raise (e : exn).
Arguments Ret {A} a.
Arguments Raise {A} e.

(** A computation that may raise, and that emits events of type [E] in
    program order.  Events emitted before an exception are kept. *)
Definition run (E A : Type) : Type := (outcome A * list E)%type.

Definition ret {E A} (a : A) : run E A := (Ret a, []).
Definition raise {E A} (e : exn) : run E A := (Raise e, []).
Definition emit {E} (e : E) : run E unit := (Ret tt, [e]).

Definition bind {E A B} (c : run E A) (k : A -> run E B) : run E B :=
  match fst c with
  | Ret a => (fst (k a), snd c ++ snd (k a))
  | Raise e => (Raise e, snd c)
  end.

Definition lift {E A} (o : outcome A) : run E A := (o, []).

Declare Scope run_scope.
Delimit Scope run_scope with run.
Notation "x <- c ;; k" := (bind c (fun x => k))
  (at level 61, c at next level, right associativity) : run_scope.
Notation "c ;;; k" := (bind c (fun _ => k))
  (at level 61, right associativity) : run_scope.
Local Open Scope run_scope.

(** [for x in xs: s = body(s, x)] *)
Fixpoint for_each {E A S} (body : S -> A -> run E S) (xs : list A) (s : S)
  : run E S :=
  match xs with
  | [] => ret s
  | x :: xs' => s' <- body s x ;; for_each body xs' s'
  end.

(** ** Floats *)

Definition float := Q.

(** [x > y] and [x < y] on floats. *)
Definition fgt (x y : float) : bool := negb (Qle_bool x y).
Definition flt (x y : float) : bool := negb (Qle_bool y x).

(** ** [range] *)

(** [range(start, stop, step)] as a list; [ValueError] for a zero step. *)
Definition range3 (start stop step : Z) : outcome (list Z) :=
  if (step =? 0)%Z then Raise ValueError
  else if (0 <? step)%Z then
    Ret (map (fun k => (start + Z.of_nat k * step)%Z)
             (seq 0 (Z.to_nat ((stop - start + step - 1) / step))))
  else
    Ret (map (fun k => (start + Z.of_nat k * step)%Z)
             (seq 0 (Z.to_nat ((start - stop - step - 1) / (- step))))).

(** [range(start, stop)] and [range(stop)]. *)
Definition range2 (start stop : Z) : list Z :=
  map (fun k => (start + Z.of_nat k)%Z) (seq 0 (Z.to_nat (stop - start))).

Definition range (stop : Z) : list Z := range2 0 stop.

(** ** Slices *)

(** A slice bound is clipped to [0 .. len]; a negative bound counts from
    the end. *)
Definition slice_bound (len i : Z) : Z :=
  if (i <? 0)%Z then Z.max 0 (i + len) else Z.min i len.

(** [l[lo:hi]], with [hi = None] for [l[lo:]]. *)
Definition slice {A} (l : list A) (lo : Z) (hi : option Z) : list A :=
  let n := Z.of_nat (length l) in
  let a := slice_bound n lo in
  let b := match hi with None => n | Some h => slice_bound n h end in
  firstn (Z.to_nat (b - a)) (skipn (Z.to_nat a) l).

(** ** NumPy *)

(** [np.round(x).__int__()]: round half to even. *)
Definition np_round (x : float) : Z :=
  let f := Qfloor x in
  match ((x - inject_Z f) ?= (1 # 2))%Q with
  | Lt => f
  | Gt => (f + 1)%Z
  | Eq => if Z.even f then f else (f + 1)%Z
  end.

(** Stable insertion of index [i] into a list of indices kept in
    non-decreasing order of their values [v]. *)
Fixpoint insert_by (v : nat -> float) (i : nat) (l : list nat) : list nat :=
  match l with
  | [] => [i]
  | j :: l' => if Qle_bool (v i) (v j) then i :: l else j :: insert_by v i l'
  end.

(** [np.argsort(row, kind='stable')] *)
Definition argsort (row : list float) : list nat :=
  fold_right (insert_by (fun i => nth i row 0%Q)) [] (seq 0 (length row)).

(** Modelled from NumPy's documentation of [np.argpartition(row, kth)]: the
    result is a permutation of the indices of [row] with the index of the
    [kth] smallest value at position [kth], indices of smaller values
    before it and of larger or equal values after it; the order inside the
    two parts is unspecified.  The full stable argsort is one such result.
    On an array that holds at least one element, [kth] outside
    [-n .. n-1] raises [ValueError].  NumPy makes this bound check only
    when the size of the array is not zero: on an empty array every [kth]
    is accepted, and the result is the empty index array. *)
Definition argpartition (row : list float) (kth : Z) : outcome (list nat) :=
  let n := Z.of_nat (length row) in
  if (n =? 0)%Z then Ret []
  else if ((- n <=? kth) && (kth <? n))%Z%bool then Ret (argsort row)
  else Raise ValueError.

(** [np.argpartition(arr, kth, axis=1)] on the array built from a list of
    rows of equal length.  With no row the array is one-dimensional and
    empty, and axis 1 does not exist.  With at least one row the array
    has size zero exactly when its rows are empty: then no bound is
    checked, and the result has the shape of the array, one empty row of
    indices per row. *)
Fixpoint argpartition_rows (arr : list (list float)) (kth : Z)
  : outcome (list (list nat)) :=
  match arr with
  | [] => Ret []
  | row :: arr' =>
      match argpartition row kth with
      | Raise e => Raise e
      | Ret r =>
          match argpartition_rows arr' kth with
          | Raise e => Raise e
          | Ret rs => Ret (r :: rs)
          end
      end
  end.

Definition argpartition_axis1 (arr : list (list float)) (kth : Z)
  : outcome (list (list nat)) :=
  match arr with
  | [] => Raise AxisError
  | _ => argpartition_rows arr kth
  end.

(** Insertion into a strictly increasing list. *)
Fixpoint insert_unique (x : nat) (l : list nat) : list nat :=
  match l with
  | [] => [x]
  | y :: l' =>
      if (x <? y)%nat then x :: l
      else if (x =? y)%nat then l
      else y :: insert_unique x l'
  end.

(** [np.unique(l)]: the sorted distinct elements. *)
Definition unique (l : list nat) : list nat := fold_right insert_unique [] l.

(** [np.union1d(a, b)] *)
Definition union1d (a b : list nat) : list nat := unique (a ++ b).

(** [functools.reduce(f, xs)] with no initial value. *)
Definition reduce {A} (f : A -> A -> A) (xs : list A) : outcome A :=
  match xs with
  | [] => Raise TypeError
  | x :: xs' => Ret (fold_left f xs' x)
  end.

(** An element met when iterating over an index array: a NumPy integer
    (one-dimensional array) or a row (two-dimensional array). *)
Inductive npitem : Type :=
| NpInt (i : Z)
| NpRow (xs : list Z).

(** [start + ind] *)
Definition np_add (start : Z) (ind : npitem) : npitem :=
  match ind with
  | NpInt i => NpInt (start + i)
  | NpRow xs => NpRow (map (Z.add start) xs)
  end.

(** [ind * k] *)
Definition np_mul (ind : npitem) (k : Z) : npitem :=
  match ind with
  | NpInt i => NpInt (i * k)
  | NpRow xs => NpRow (map (fun x => x * k)%Z xs)
  end.

(** [int(x)]: only an array of size one converts to a Python scalar. *)
Definition int_of (x : npitem) : outcome Z :=
  match x with
  | NpInt i => Ret i
  | NpRow [i] => Ret i
  | NpRow _ => Raise TypeError
  end.

(** ** Strings *)

(** [sub in s] *)
Fixpoint contains (sub s : String.string) : bool :=
  String.prefix sub s ||
  match s with
  | String.EmptyString => false
  | String.String _ s' => contains sub s'
  end.

(** [s.replace(old, new)] for a non-empty [old]: the occurrences are
    replaced from left to right without overlap; [skip] counts the
    characters of a matched occurrence still to be dropped. *)
Fixpoint replace_from (old new : String.string) (skip : nat)
    (s : String.string) : String.string :=
  match s with
  | String.EmptyString => String.EmptyString
  | String.String c s' =>
      match skip with
      | S k => replace_from old new k s'
      | O =>
          if String.prefix old s
          then String.append new
                 (replace_from old new (String.length old - 1) s')
          else String.String c (replace_from old new 0 s')
      end
  end.

Definition replace (old new s : String.string) : String.string :=
  replace_from old new 0 s.

(** [np.min(l)]; [ValueError] on an empty list. *)
Definition fmin (x y : float) : float := if Qle_bool x y then x else y.

Definition np_min (l : list float) : outcome float :=
  match l with
  | [] => Raise ValueError
  | x :: l' => Ret (fold_left fmin l' x)
  end.

(** [d[key]] on an ordered dictionary. *)
Fixpoint dict_get {V} (key : String.string) (d : list (String.string * V))
  : outcome V :=
  match d with
  | [] => Raise KeyError
  | (k, v) :: d' => if String.eqb key k then Ret v else dict_get key d'
  end.

(** [d[key] = v]: an existing key keeps its position, a new key goes last. *)
Fixpoint dict_set {V} (key : String.string) (v : V)
    (d : list (String.string * V)) : list (String.string * V) :=
  match d with
  | [] => [(key, v)]
  | (k, v') :: d' =>
      if String.eqb key k then (k, v) :: d' else (k, v') :: dict_set key v d'
  end.

Definition keys {V} (d : list (String.string * V)) : list String.string :=
  map fst d.

End Py.

Import Py.
Local Open Scope run_scope.

(* ===================================================================== *)
(** * PoL/verify.py *)
(* ===================================================================== *)

Module Verify.

(** A distance metric is named by a string: ['1'], ['2'], ['inf'], ['cos']. *)
Definition metric := String.string.

(** The [order] and [threshold] arguments: either a single metric with its
    threshold, or two lists. *)
Inductive metric_args : Type :=
| One (order : metric) (threshold : float)
| Many (order : list metric) (threshold : list float).

(** Log lines.  The numbers interpolated into a line are kept as fields;
    [MsgStats] keeps the row whose average, maximum and minimum are printed. *)
Inductive message : Type :=
| MsgMetric (order : metric) (threshold : float)
| MsgStats (row : list float)
| MsgValid
| MsgInvalid (above total : nat) (percent : float)
| MsgEpoch (epoch epochs : Z)
| MsgMetricQ (order : metric) (threshold : float) (q : Z)
| MsgTopqAverage (row : list float)
| MsgInitInvalid (p_min threshold : float)
| MsgInitPassed
| MsgHashMismatch
| MsgHashValid.

Section Verifier.

(** In-memory network returned by the external training function. *)
Variable network : Type.

(** The arguments passed through unchanged to [train] and to
    [utils.parameter_distance]: [lr], [batch_size], [dataset],
    [architecture], [half]. *)
Variable hyper : Type.

(** A model argument is a checkpoint path [dir/model_step_<N>] or an
    in-memory network. *)
Inductive model : Type :=
| Checkpoint (step : Z)
| Reproduced (net : network).

(** [train(lr, batch_size, 0, dataset, architecture, model_dir=..,
    sequence=.., half=..)]: the external training function. *)
Variable train : hyper -> model -> list Z -> network.

(** Modelled from the spec: [utils.parameter_distance] is not among the
    sources; the Distance Engine "returns one scalar per metric", so the
    result is the list of the per-metric distances, in the order of the
    requested metrics. *)
Variable distance : hyper -> model -> model -> metric -> float.

Definition parameter_distance (h : hyper) (a b : model) (order : list metric)
  : list float :=
  map (distance h a b) order.

Inductive event : Type :=
| Train (model_dir : model) (sequence : list Z)
| Distance (a b : model) (order : list metric)
| Log (m : message).

Definition call_train (h : hyper) (model_dir : model) (sequence : list Z)
  : run event network :=
  emit (Train model_dir sequence) ;;; ret (train h model_dir sequence).

Definition call_distance (h : hyper) (a b : model) (order : list metric)
  : run event (list float) :=
  emit (Distance a b order) ;;; ret (parameter_distance h a b order).

Definition logging_info (m : message) : run event unit := emit (Log m).

(** [if not isinstance(order, list): ... else: assert len(order) == len(threshold)] *)
Definition normalise (a : metric_args) : run event (list metric * list float) :=
  match a with
  | One o t => ret ([o], [t])
  | Many os ts =>
      if Nat.eqb (length os) (length ts) then ret (os, ts)
      else raise AssertionError
  end.

(** The metric and threshold lists after this normalisation. *)
Definition metric_lists (a : metric_args) : list metric * list float :=
  match a with
  | One o t => ([o], [t])
  | Many os ts => (os, ts)
  end.

(** [for j in range(len(order)): dist_list[j].append(res[j])].
    [res] has one entry per metric, as [dist_list] has one row per metric. *)
Definition append_each (dist_list : list (list float)) (res : list float)
  : list (list float) :=
  map (fun rr => fst rr ++ [snd rr]) (combine dist_list res).

(** [[[] for i in range(len(order))]] *)
Definition empty_rows (order : list metric) : list (list float) :=
  map (fun _ => []) order.

(** [np.sum(row > thr)] *)
Definition count_above (row : list float) (thr : float) : nat :=
  length (filter (fun d => fgt d thr) row).

(** [100 * np.average(row > thr)] *)
Definition percent_above (row : list float) (thr : float) : float :=
  (100 * (inject_Z (Z.of_nat (count_above row thr))
          / inject_Z (Z.of_nat (length row))))%Q.

(** The verdict line of one metric. *)
Definition verdict (row : list float) (thr : float) : message :=
  if Nat.eqb (count_above row thr) 0 then MsgValid
  else MsgInvalid (count_above row thr) (length row) (percent_above row thr).

(** ** [verify_all] *)

(** One iteration of the loop over [range(0, sequence.shape[0], save_freq)].
    The loop state is [(target_model, dist_list)]. *)
Definition verify_all_step (h : hyper) (sequence : list Z) (save_freq : Z)
    (order : list metric) (st : model * list (list float)) (i : Z)
  : run event (model * list (list float)) :=
  let n := Z.of_nat (length sequence) in
  let previous_state := fst st in
  if (i + save_freq >=? n)%Z then
    let target_model := Checkpoint n in
    reproduce <- call_train h previous_state (slice sequence i None) ;;
    res <- call_distance h target_model (Reproduced reproduce) order ;;
    ret (target_model, append_each (snd st) res)
  else
    let target_model := Checkpoint (i + save_freq) in
    reproduce <- call_train h previous_state
                   (slice sequence i (Some (i + save_freq)%Z)) ;;
    res <- call_distance h target_model (Reproduced reproduce) order ;;
    ret (target_model, append_each (snd st) res).

(** The body of the reporting loop [for k in range(len(order))].
    [np.max] of an empty row raises [ValueError]. *)
Definition verify_all_report (okr : metric * (float * list float))
  : run event unit :=
  let '(o, (thr, row)) := okr in
  logging_info (MsgMetric o thr) ;;;
  (match row with
   | [] => raise ValueError
   | _ => logging_info (MsgStats row)
   end) ;;;
  logging_info (verdict row thr).

Definition verify_all (dir_exists : bool) (sequence : list Z) (h : hyper)
    (save_freq : Z) (args : metric_args) : run event (list (list float)) :=
  if negb dir_exists then raise FileNotFoundError else
  ot <- normalise args ;;
  let '(order, threshold) := ot in
  let n := Z.of_nat (length sequence) in
  steps <- lift (range3 0 n save_freq) ;;
  st <- for_each (verify_all_step h sequence save_freq order) steps
          (Checkpoint 0, empty_rows order) ;;
  let dist_list := snd st in
  for_each (fun _ okr => verify_all_report okr)
           (combine order (combine threshold dist_list)) tt ;;;
  ret dist_list.

(** ** [verify_topq] *)

(** The value of the variable [res]: a Python list holding floats (the
    result of [parameter_distance]) and arrays (appended per epoch). *)
Inductive pyvalue : Type :=
| PyFloat (x : float)
| PyArray (rows : list (list float)).

(** [topq_steps]: two-dimensional after the slicing, one-dimensional after
    the union. *)
Inductive steps_array : Type :=
| Steps2 (rows : list (list nat))
| Steps1 (xs : list nat).

(** The elements produced by [for ind in topq_steps]. *)
Definition iterate (t : steps_array) : list npitem :=
  match t with
  | Steps2 rows => map (fun r => NpRow (map Z.of_nat r)) rows
  | Steps1 xs => map (fun i => NpInt (Z.of_nat i)) xs
  end.

(** Loop state of both inner loops: [(res, dist_list)]. *)
Definition topq_state : Type := (list pyvalue * list (list float))%type.

(** Lines 84-93: one iteration of the ranking loop over [range(start, end)].
    [next_model] is carried in the loop state. *)
Definition topq_rank_step (h : hyper) (sequence : list Z) (save_freq : Z)
    (order : list metric) (st : model * topq_state) (i : Z)
  : run event (model * topq_state) :=
  let n := Z.of_nat (length sequence) in
  let current_model := fst st in
  let next_model :=
    if ((i + 1) * save_freq >=? n)%Z then Checkpoint n
    else Checkpoint ((i + 1) * save_freq) in
  res <- call_distance h current_model next_model order ;;
  ret (next_model, (map PyFloat res, append_each (snd (snd st)) res)).

(** Lines 82-93: Phase 1 of one epoch. *)
Definition topq_phase1 (h : hyper) (sequence : list Z) (save_freq : Z)
    (order : list metric) (start stop : Z) (res : list pyvalue)
  : run event topq_state :=
  st <- for_each (topq_rank_step h sequence save_freq order)
          (range2 start stop)
          (Checkpoint (start * save_freq), (res, empty_rows order)) ;;
  ret (snd st).

(** Lines 95-99: the selection of the steps of Phase 2. *)
Definition topq_select (order : list metric) (dist_arr : list (list float))
    (q : Z) : outcome steps_array :=
  match argpartition_axis1 dist_arr (- q) with
  | Raise e => Raise e
  | Ret parts =>
      let topq_steps := map (fun r => slice r (- q) None) parts in
      if (1 <? length order)%nat then
        match reduce union1d topq_steps with
        | Raise e => Raise e
        | Ret u => Ret (Steps1 u)
        end
      else Ret (Steps2 topq_steps)
  end.

(** Lines 102-116: one iteration of the deep-check loop. *)
Definition topq_check_step (h : hyper) (sequence : list Z) (save_freq : Z)
    (order : list metric) (start : Z) (st : topq_state) (ind : npitem)
  : run event topq_state :=
  let n := Z.of_nat (length sequence) in
  step <- lift (int_of (np_mul (np_add start ind) save_freq)) ;;
  let current_model := Checkpoint step in
  if (step + save_freq >=? n)%Z then
    let target_model := Checkpoint n in
    reproduce <- call_train h current_model (slice sequence step None) ;;
    res <- call_distance h target_model (Reproduced reproduce) order ;;
    ret (map PyFloat res, append_each (snd st) res)
  else
    let target_model := Checkpoint (step + save_freq) in
    reproduce <- call_train h current_model
                   (slice sequence step (Some (step + save_freq)%Z)) ;;
    res <- call_distance h target_model (Reproduced reproduce) order ;;
    ret (map PyFloat res, append_each (snd st) res).

(** Lines 101-116: Phase 2 of one epoch. *)
Definition topq_phase2 (h : hyper) (sequence : list Z) (save_freq : Z)
    (order : list metric) (start : Z) (topq_steps : steps_array)
    (res : list pyvalue) : run event topq_state :=
  for_each (topq_check_step h sequence save_freq order start)
           (iterate topq_steps) (res, empty_rows order).

(** Lines 119-128: the report of one metric.  [np.average] of an empty row
    warns and gives NaN; it does not raise. *)
Definition topq_report (q : Z) (okr : metric * (float * list float))
  : run event unit :=
  let '(o, (thr, row)) := okr in
  logging_info (MsgMetricQ o thr q) ;;;
  logging_info (MsgTopqAverage row) ;;;
  logging_info (verdict row thr).

(** Lines 82-129: the body of the loop over epochs, between the epoch
    bounds [start] and [stop]. *)
Definition topq_epoch (h : hyper) (sequence : list Z) (save_freq : Z)
    (order : list metric) (threshold : list float) (q : Z)
    (start stop : Z) (res : list pyvalue) : run event (list pyvalue) :=
  st1 <- topq_phase1 h sequence save_freq order start stop res ;;
  topq_steps <- lift (topq_select order (snd st1) q) ;;
  st2 <- topq_phase2 h sequence save_freq order start topq_steps (fst st1) ;;
  for_each (fun _ okr => topq_report q okr)
           (combine order (combine threshold (snd st2))) tt ;;;
  ret (fst st2 ++ [PyArray (snd st2)]).

(** [sequence.shape[0] / epochs / save_freq]: two true divisions, taken
    exactly. *)
Definition ckpt_per_epoch (n epochs save_freq : Z) : outcome float :=
  if ((epochs =? 0) || (save_freq =? 0))%Z%bool then Raise ZeroDivisionError
  else Ret (inject_Z n / inject_Z epochs / inject_Z save_freq)%Q.

(** [np.round(ckpt_per_epoch * epoch).__int__()] *)
Definition epoch_bound (c : float) (epoch : Z) : Z :=
  np_round (c * inject_Z epoch)%Q.

Definition verify_topq (dir_exists : bool) (sequence : list Z) (h : hyper)
    (save_freq : Z) (args : metric_args) (epochs q : Z)
  : run event (list pyvalue) :=
  if negb dir_exists then raise FileNotFoundError else
  ot <- normalise args ;;
  let '(order, threshold) := ot in
  c <- lift (ckpt_per_epoch (Z.of_nat (length sequence)) epochs save_freq) ;;
  for_each (fun res epoch =>
              logging_info (MsgEpoch (epoch + 1) epochs) ;;;
              topq_epoch h sequence save_freq order threshold q
                (epoch_bound c epoch) (epoch_bound c (epoch + 1)) res)
           (range epochs) [].

End Verifier.

(** ** [verify_initialization] *)

Section Initialization.

Local Open Scope string_scope.

Variable tensor : Type.

(** [len(param.shape)] *)
Variable ndim : tensor -> nat.

(** The argument of [utils.check_weights_initialization]: a tensor, or the
    pair [[weight, param]]. *)
Inductive init_arg : Type :=
| Weights (param : tensor)
| WeightBias (weight param : tensor).

(** [utils.check_weights_initialization(arg, rule)]: the external
    goodness-of-fit test, returning a p-value. *)
Variable check_weights_initialization : init_arg -> String.string -> float.

(** The network: [named_parameters()] and [state_dict()]. *)
Record net : Type := {
  named_parameters : list (String.string * tensor);
  state_dict : list (String.string * tensor)
}.

Inductive model_type : Set :=
| resnet_cifar | resnet_cifar100 | resnet | default.

(** Lines 140-148: the dispatch on [architecture.__name__]. *)
Definition classify (model_name : String.string) : model_type :=
  if existsb (String.eqb model_name)
       ["resnet20"; "resnet32"; "resnet44"; "resnet56"; "resnet110";
        "resnet1202"]
  then resnet_cifar
  else if String.eqb model_name "resnet50" then resnet_cifar100
  else if contains "resnet" model_name then resnet
  else default.

(** [weight = net.state_dict()[name.replace('bias', 'weight')]] followed by
    the bias test. *)
Definition check_bias (n : net) (name : String.string) (param : tensor)
  : outcome (list float) :=
  match dict_get (replace "bias" "weight" name) (state_dict n) with
  | Raise e => Raise e
  | Ret weight =>
      Ret [check_weights_initialization (WeightBias weight param)
             "default_bias"]
  end.

(** The p-values appended for one named parameter, per model type
    (lines 150-183). *)
Definition check_parameter (ty : model_type) (n : net)
    (np : String.string * tensor) : outcome (list float) :=
  let '(name, param) := np in
  match ty with
  | resnet =>
      if contains "weight" name && contains "conv" name then
        Ret [check_weights_initialization (Weights param) "resnet"]
      else if contains "weight" name && contains "fc" name then
        Ret [check_weights_initialization (Weights param) "default"]
      else if contains "bias" name
              && (contains "fc" name || contains "linear" name) then
        check_bias n name param
      else Ret []
  | resnet_cifar100 =>
      if Nat.eqb (ndim param) 4 then
        Ret [check_weights_initialization (Weights param) "default"]
      else if contains "weight" name && contains "fc" name then
        Ret [check_weights_initialization (Weights param) "default"]
      else if contains "bias" name
              && (contains "fc" name || contains "linear" name) then
        check_bias n name param
      else Ret []
  | resnet_cifar =>
      if contains "fc" name || contains "conv" name || contains "linear" name
      then
        if contains "weight" name then
          Ret [check_weights_initialization (Weights param) "resnet_cifar"]
        else if contains "bias" name then check_bias n name param
        else Ret []
      else Ret []
  | default =>
      if contains "fc" name || contains "conv" name || contains "linear" name
      then
        if contains "weight" name then
          Ret [check_weights_initialization (Weights param) "default"]
        else if contains "bias" name then check_bias n name param
        else Ret []
      else Ret []
  end.

(** Lines 140-183: the list of the p-values. *)
Definition compute_p_list (model_name : String.string) (n : net)
  : run message (list float) :=
  let model_type := classify model_name in
  for_each (fun p_list np =>
              ps <- lift (check_parameter model_type n np) ;;
              ret (p_list ++ ps))
           (named_parameters n) [].

(** The default of the [threshold] argument. *)
Definition default_threshold : float := (1 # 100)%Q.

(** Lines 185-191. *)
Definition init_verdict (p_list : list float) (threshold : float)
  : run message unit :=
  p_min <- lift (np_min p_list) ;;
  if flt p_min threshold then emit (MsgInitInvalid p_min threshold)
  else emit MsgInitPassed.

(** [verify_initialization(dir, architecture, threshold=0.01, net=None,
    verbose=True)].  [n] is the network passed as [net], or the one loaded
    from [model_step_0]; [None] stands for an omitted optional argument. *)
Definition verify_initialization (model_name : String.string) (n : net)
    (threshold : option float) (verbose : option bool)
  : run message (list float) :=
  let threshold := match threshold with Some t => t | None => default_threshold end in
  let verbose := match verbose with Some v => v | None => true end in
  p_list <- compute_p_list model_name n ;;
  (if verbose then init_verdict p_list threshold else ret tt) ;;;
  ret p_list.

End Initialization.

(** ** [verify_hash] *)

Section Hash.

(** A raw sample of the dataset and its [__str__()]; a Python string is
    kept as the string of its UTF-8 bytes, so [encode('utf-8')] is the
    identity. *)
Variable sample : Type.
Variable sample_str : sample -> String.string.

(** [hashlib.sha256(bytes).hexdigest()] *)
Variable sha256_hexdigest : String.string -> String.string.

(** The dataset returned by [utils.load_dataset]: [data] are its raw samples. *)
Record Dataset : Type := { data : list sample }.

(** [torch.utils.data.Subset(dataset, indices)] *)
Record Subset : Type := { dataset : Dataset; indices : list Z }.

(** A [hashlib] object: the bytes fed so far.  [update] appends, and the
    digest is that of the concatenation. *)
Definition sha256_new : String.string := String.EmptyString.
Definition update (m bytes : String.string) : String.string :=
  String.append m bytes.

(** Lines 203-206: the bytes hashed. *)
Definition hashed_bytes (trainset : Dataset) (sequence : list Z)
  : String.string :=
  let subset := {| dataset := trainset; indices := sequence |} in
  fold_left (fun m d => update m (sample_str d))
            (data (dataset subset)) sha256_new.

Definition verify_hash (dir_exists : bool) (sequence : list Z)
    (hash : String.string) (trainset : Dataset) : run message unit :=
  if negb dir_exists then raise FileNotFoundError else
  let m := hashed_bytes trainset sequence in
  if negb (String.eqb hash (sha256_hexdigest m)) then emit MsgHashMismatch
  else emit MsgHashValid.

(** The digest input that the Hash Verifier's contract describes: the
    string representations of the samples addressed by the index sequence,
    in sequence order.  Indices out of range address nothing. *)
Definition contract_bytes (trainset : Dataset) (sequence : list Z)
  : String.string :=
  fold_left (fun m i =>
               match nth_error (data trainset) (Z.to_nat i) with
               | Some d => update m (sample_str d)
               | None => m
               end)
            sequence sha256_new.

End Hash.

End Verify.

(* ===================================================================== *)
(** * spoof_cifar/spoof_attack3.py *)
(* ===================================================================== *)

Module Spoof.

Definition metric := String.string.

(** The command-line arguments read by the attack loop. *)
Record args : Type := {
  arg_t : Z;
  arg_k : Z;
  arg_batchsize : Z;
  arg_retry : Z;
  arg_gd : Z;
  arg_nd : Z;
  arg_round : Z;
  arg_verify : Z;
  arg_cut : Z
}.

(** Lines 41-42. *)
Local Open Scope string_scope.
Definition order : list metric := ["1"; "2"; "inf"; "cos"].
Local Close Scope string_scope.
Definition threshold : list float := [1000; 10; 1 # 10; 1 # 100]%Q.

Inductive event (state : Type) : Type :=
| PrintRetry
| SaveImg (img_idx : Z)
| PrintValid (order : metric)
| PrintInvalid (order : metric) (above total : nat)
| PrintValidRate (valid_count step t : Z)
| TorchSave (step : Z) (net : state)
| PrintConclusion (valid_count t : Z)
| PrintDistance (order : metric) (row : list float).
Arguments PrintRetry {state}.
Arguments SaveImg {state} img_idx.
Arguments PrintValid {state} order.
Arguments PrintInvalid {state} order above total.
Arguments PrintValidRate {state} valid_count step t.
Arguments PrintConclusion {state} valid_count t.
Arguments PrintDistance {state} order row.

Section Attack.

(** Torch tensors and the operations applied to them. *)
Variable tensor : Type.
Variable tadd tsub : tensor -> tensor -> tensor.
Variable tdiv : tensor -> Z -> tensor.
Variable tneg : tensor -> tensor.

(** [net.state_dict()]: the network is identified with its ordered state
    dictionary, and [load_state_dict] replaces it. *)
Definition state_dict : Type := list (String.string * tensor).

(** The keys of the state dictionary that are parameters (the others are
    buffers); [net.parameters()] lists their tensors. *)
Variable is_parameter : String.string -> bool.

Definition parameters (net : state_dict) : list tensor :=
  map snd (filter (fun kv => is_parameter (fst kv)) net).

(** A base batch [(img, label)]; [draw n] is the first batch of the [n]-th
    iteration started on the shuffling [train_loader]. *)
Variable batch : Type.
Variable draw : nat -> batch.

(** [dummy_data] together with the L-BFGS optimizer built on it. *)
Variable dummy : Type.
Variable zeros : args -> dummy.

(** [optimizer.step(closure)], the value of [closure()], and
    [(dummy_data ** 2).sum().item()]. *)
Variable lbfgs_step : state_dict -> batch -> dummy -> dummy.
Variable closure : state_dict -> batch -> dummy -> float.
Variable sq_sum : dummy -> float.

(** [optimizer_net]: SGD with momentum; one step on the slice [num_img] of
    the synthetic batch [clamp(dummy_data + img, 0, 1)]. *)
Variable sgd : Type.
Variable sgd_new : state_dict -> sgd.
Variable sgd_step : state_dict * sgd -> batch -> dummy -> Z -> state_dict * sgd.

(** Modelled from the spec: [parameter_distance] comes from [utils], which
    is not among the sources; called on two in-memory parameter lists it
    "returns one scalar per metric". *)
Variable distance : list tensor -> list tensor -> metric -> float.

Definition parameter_distance (a b : list tensor) (order : list metric)
  : list float :=
  map (distance a b) order.

(** The local variables of [attack3] that the step loop reads and writes. *)
Record vars : Type := {
  net : state_dict;
  base : batch;
  draws : nat;
  dummy_data : option dummy;
  d2 : option (float * float);
  img_idx : Z;
  valid_count : Z;
  diff : list (list float)
}.

Definition set_net (v : vars) (n : state_dict) : vars :=
  {| net := n; base := base v; draws := draws v; dummy_data := dummy_data v;
     d2 := d2 v; img_idx := img_idx v; valid_count := valid_count v;
     diff := diff v |}.

Definition set_attempt (v : vars) (d : dummy) (r : option (float * float))
  : vars :=
  {| net := net v; base := base v; draws := draws v; dummy_data := Some d;
     d2 := r; img_idx := img_idx v; valid_count := valid_count v;
     diff := diff v |}.

(** [for ix, data in enumerate(train_loader): img, label = data; ...; break] *)
Definition redraw (v : vars) : vars :=
  {| net := net v; base := draw (draws v); draws := S (draws v);
     dummy_data := dummy_data v; d2 := d2 v; img_idx := img_idx v;
     valid_count := valid_count v; diff := diff v |}.

Definition set_img_idx (v : vars) (i : Z) : vars :=
  {| net := net v; base := base v; draws := draws v;
     dummy_data := dummy_data v; d2 := d2 v; img_idx := i;
     valid_count := valid_count v; diff := diff v |}.

Definition set_tally (v : vars) (n : state_dict) (c : Z)
    (df : list (list float)) : vars :=
  {| net := n; base := base v; draws := draws v; dummy_data := dummy_data v;
     d2 := d2 v; img_idx := img_idx v; valid_count := c; diff := df |}.

(** Lines 181-207: the [round] optimisation iterations of one attempt.  The
    state is [(dummy_data, (d2grad, d2r))]. *)
Definition round_step (n : state_dict) (b : batch)
    (s : dummy * option (float * float)) (iters : Z)
  : dummy * option (float * float) :=
  let d := lbfgs_step n b (fst s) in
  let current_loss := closure n b d in
  let d2r := sq_sum d in
  let d2grad := (current_loss - (1 # 10) * d2r)%Q in
  (d, Some (d2grad, d2r)).

Definition rounds (a : args) (n : state_dict) (b : batch)
    (r : option (float * float)) : dummy * option (float * float) :=
  fold_left (round_step n b) (range (arg_round a)) (zeros a, r).

(** Line 209: [d2grad < args.gd and d2r < args.nd]. *)
Definition accept (a : args) (d2grad d2r : float) : bool :=
  flt d2grad (inject_Z (arg_gd a)) && flt d2r (inject_Z (arg_nd a)).

(** Lines 175-215: the retry loop, over the remaining values [ks] of
    [range(args.retry)].  The names [d2grad], [d2r] are unbound before the
    first optimisation round of the run. *)
Fixpoint retry_loop (a : args) (ks : list Z) (v : vars)
  : run (event state_dict) vars :=
  match ks with
  | [] => ret v
  | _ :: ks' =>
      let s := rounds a (net v) (base v) (d2 v) in
      let v1 := set_attempt v (fst s) (snd s) in
      match snd s with
      | None => raise NameError
      | Some (d2grad, d2r) =>
          if accept a d2grad d2r then ret v1
          else emit PrintRetry ;;; retry_loop a ks' (redraw v1)
      end
  end.

(** [int(x / y)] on Python integers. *)
Definition int_div (x y : Z) : outcome Z :=
  if (y =? 0)%Z then Raise ZeroDivisionError else Ret (Z.quot x y).

(** Lines 169-238: one sub-batch [j] of a step.  The state is the local
    variables and [optimizer_net]. *)
Definition cut_step (a : args) (st : vars * sgd) (j : Z)
  : run (event state_dict) (vars * sgd) :=
  v1 <- retry_loop a (range (arg_retry a)) (fst st) ;;
  match dummy_data v1 with
  | None => raise NameError
  | Some d =>
      per <- lift (int_div (arg_k a) (arg_cut a)) ;;
      v2 <- for_each (fun v _ =>
                        emit (SaveImg (img_idx v)) ;;;
                        ret (set_img_idx v (img_idx v + 1)%Z))
              (range per) v1 ;;
      let trained :=
        fold_left (fun s num_img => sgd_step s (base v2) d num_img)
                  (range per) (net v2, snd st) in
      ret (set_net v2 (fst trained), snd trained)
  end.

(** Lines 271-286: the threshold checks of one step; the state is [flag]. *)
Definition check_metric (flag : Z) (okr : metric * (float * list float))
  : run (event state_dict) Z :=
  let '(o, (thr, row)) := okr in
  emit (PrintDistance o row) ;;;
  if Nat.eqb (Verify.count_above row thr) 0 then emit (PrintValid o) ;;; ret flag
  else emit (PrintInvalid o (Verify.count_above row thr) (length row)) ;;;
       ret 1%Z.

(** Lines 294-296: [new_weight[key] = original_weight[key] + step_weight[key]]. *)
Definition overwrite_key (original_weight step_weight : state_dict)
    (new_weight : state_dict) (key : String.string)
  : run (event state_dict) state_dict :=
  o <- lift (dict_get key original_weight) ;;
  s <- lift (dict_get key step_weight) ;;
  ret (dict_set key (tadd o s) new_weight).

(** Lines 160-300: one step [i] of the attack. *)
Definition spoof_step (a : args) (step_weight : state_dict)
    (k_step_dy_dx : list tensor) (v : vars) (i : Z)
  : run (event state_dict) vars :=
  let cur_param := parameters (net v) in
  let target_param :=
    map (fun sc => tadd (tneg (fst sc)) (snd sc))
        (combine k_step_dy_dx cur_param) in
  let original_weight := net v in
  let optimizer_net := sgd_new (net v) in
  st <- for_each (cut_step a) (range (arg_cut a)) (v, optimizer_net) ;;
  let v1 := fst st in
  if (arg_verify a =? 0)%Z then ret v1 else
  let dummy_param := parameters (net v1) in
  let res := parameter_distance target_param dummy_param order in
  let dist_list := map (fun r => [r]) res in
  flag <- for_each check_metric
            (combine order (combine threshold dist_list)) 0%Z ;;
  let valid_count' :=
    if (flag =? 0)%Z then (valid_count v1 + 1)%Z else valid_count v1 in
  emit (PrintValidRate valid_count' (i + 1) (arg_t a)) ;;;
  let diff' := map (fun rr => fst rr ++ snd rr) (combine (diff v1) dist_list) in
  new_weight <- for_each (overwrite_key original_weight step_weight)
                  (keys original_weight) (net v1) ;;
  emit (TorchSave (arg_k a * (i + 1)) new_weight) ;;;
  ret (set_tally v1 new_weight valid_count' diff').

(** Lines 146-148: [step_weight[key] = (at_weight[key] - original_weight[key]) / t]. *)
Definition step_key (a : args) (at_weight original_weight : state_dict)
    (step_weight : state_dict) (key : String.string)
  : run (event state_dict) state_dict :=
  w <- lift (dict_get key at_weight) ;;
  o <- lift (dict_get key original_weight) ;;
  ret (dict_set key (tdiv (tsub w o) (arg_t a)) step_weight).

(** Lines 140-300, from "spoof start" to the end of the step loop.  [net0]
    is the state of [net] after [Initial_gen] (the start [W0']), and
    [at_weight] the state of [net_load] (the end [Wt]). *)
Definition spoof_loop (a : args) (net0 at_weight : state_dict)
  : run (event state_dict) vars :=
  let original_weight := net0 in
  step_weight <- for_each (step_key a at_weight original_weight)
                   (keys at_weight) net0 ;;
  let cur_param := parameters net0 in
  let at_param := parameters at_weight in
  let k_step_dy_dx :=
    map (fun ac => tdiv (tsub (snd ac) (fst ac)) (arg_t a))
        (combine at_param cur_param) in
  let v0 := {| net := net0; base := draw 0; draws := 1; dummy_data := None;
               d2 := None; img_idx := 0%Z; valid_count := 0%Z;
               diff := [[]; []; []; []] |} in
  for_each (spoof_step a step_weight k_step_dy_dx) (range (arg_t a)) v0.

(** Lines 303-315: the conclusion.  [np.min] of an empty row raises. *)
Definition attack3 (a : args) (net0 at_weight : state_dict)
  : run (event state_dict) unit :=
  v <- spoof_loop a net0 at_weight ;;
  emit (PrintConclusion (valid_count v) (arg_t a)) ;;;
  for_each (fun _ row =>
              match row with
              | [] => raise ValueError
              | _ => ret tt
              end) (diff v) tt.

End Attack.

End Spoof.

(* ===================================================================== *)
(** * A small instance of the external collaborators *)
(* ===================================================================== *)

Module Toy.
Import Verify.

(** A network with a single integer weight.  Honest training adds one per
    training step; the recorded checkpoint of step [s] holds [s], except
    the checkpoint of step 4, which was tampered with. *)
Definition recorded (s : Z) : Z := if (s =? 4)%Z then 9%Z else s.

Definition weight (m : model Z) : Z :=
  match m with
  | Checkpoint _ s => recorded s
  | Reproduced w => w
  end.

Definition train (h : unit) (m : model Z) (sequence : list Z) : Z :=
  (weight m + Z.of_nat (length sequence))%Z.

Definition distance (h : unit) (a b : model Z) (o : metric) : float :=
  inject_Z (Z.abs (weight a - weight b)).

Local Open Scope string_scope.
Definition two_metrics : list metric := ["1"; "2"].
Local Close Scope string_scope.

(** A network of one convolution and one linear layer, its tensors left
    abstract, and an initialization test that rejects the convolution
    weights with a p-value of zero. *)
Local Open Scope string_scope.
Definition init_net : net unit :=
  {| named_parameters := [("conv1.weight", tt); ("linear.weight", tt);
                          ("linear.bias", tt)];
     state_dict := [("conv1.weight", tt); ("linear.weight", tt);
                    ("linear.bias", tt)] |}.

Definition init_test (arg : init_arg unit) (rule : String.string) : float :=
  match arg with
  | Weights _ => 0%Q
  | WeightBias _ _ => (1 # 2)%Q
  end.

(** A dataset of three raw samples. *)
Definition letters : Dataset String.string := {| data := ["a"; "b"; "c"] |}.
Local Close Scope string_scope.

(** The attack on a network with one integer weight.  A base batch is its
    draw number; the first two base batches cannot be matched (the residual
    stays at 100), the later ones are matched exactly; training on a
    synthetic batch leaves the weight unchanged; every metric is the sum of
    the absolute differences. *)
Definition spoof_args : Spoof.args :=
  {| Spoof.arg_t := 1; Spoof.arg_k := 1; Spoof.arg_batchsize := 1;
     Spoof.arg_retry := 30; Spoof.arg_gd := 15; Spoof.arg_nd := 20;
     Spoof.arg_round := 1; Spoof.arg_verify := 1; Spoof.arg_cut := 1 |}.

Definition is_parameter (key : String.string) : bool := true.
Definition draw (n : nat) : nat := n.
Definition zeros (a : Spoof.args) : nat := 0%nat.
Definition lbfgs_step (n : list (String.string * Z)) (b d : nat) : nat := S d.
Definition closure (n : list (String.string * Z)) (b d : nat) : float :=
  if (b <? 2)%nat then 100%Q else 0%Q.
Definition sq_sum (d : nat) : float := 0%Q.
Definition sgd_new (n : list (String.string * Z)) : unit := tt.
Definition sgd_step (s : list (String.string * Z) * unit) (b d : nat) (i : Z)
  : list (String.string * Z) * unit := s.
Definition l1 (a b : list Z) (o : Spoof.metric) : float :=
  inject_Z (fold_left Z.add
              (map (fun xy => Z.abs (fst xy - snd xy)) (combine a b)) 0%Z).

(** [attack3] on the toy collaborators. *)
Definition spoof_loop (a : Spoof.args) (net0 at_weight : list (String.string * Z)) :=
  Spoof.spoof_loop Z.add Z.sub Z.div Z.opp is_parameter draw zeros
    lbfgs_step closure sq_sum sgd_new sgd_step l1 a net0 at_weight.

(** Three steps of two sub-batches each, with a budget of two attempts. *)
Definition spoof_args3 : Spoof.args :=
  {| Spoof.arg_t := 3; Spoof.arg_k := 2; Spoof.arg_batchsize := 1;
     Spoof.arg_retry := 2; Spoof.arg_gd := 15; Spoof.arg_nd := 20;
     Spoof.arg_round := 1; Spoof.arg_verify := 1; Spoof.arg_cut := 2 |}.

(** A single step, a large retry budget and ceilings that accept any
    attempt. *)
Definition loose_args : Spoof.args :=
  {| Spoof.arg_t := 1; Spoof.arg_k := 1; Spoof.arg_batchsize := 1;
     Spoof.arg_retry := 1000; Spoof.arg_gd := 1000000;
     Spoof.arg_nd := 1000000; Spoof.arg_round := 1; Spoof.arg_verify := 1;
     Spoof.arg_cut := 1 |}.

Local Open Scope string_scope.
Definition start_weights : list (String.string * Z) := [("w", 0%Z)].
Definition near_weights : list (String.string * Z) := [("w", 6%Z)].
Definition far_weights : list (String.string * Z) := [("w", 5000%Z)].
Local Close Scope string_scope.

End Toy.

(* ===================================================================== *)
(** * Facts about the building blocks *)
(* ===================================================================== *)

Module PyFacts.

Lemma fgt_spec x y : fgt x y = true <-> (y < x)%Q.
Proof.
  unfold fgt. rewrite negb_true_iff.
  split; intro H.
  - apply Qnot_le_lt. intro L. apply Qle_bool_iff in L. congruence.
  - destruct (Qle_bool x y) eqn:E; [|reflexivity].
    apply Qle_bool_iff in E. exfalso. exact (Qlt_not_le _ _ H E).
Qed.

Lemma flt_spec x y : flt x y = true <-> (x < y)%Q.
Proof. unfold flt. apply (fgt_spec y x). Qed.

Lemma bind_ret_l {E A B} (a : A) (k : A -> run E B) : bind (ret a) k = k a.
Proof. unfold bind, ret. simpl. destruct (k a). reflexivity. Qed.

Lemma bind_Ret {E A B} (a : A) w (k : A -> run E B) :
  bind (Ret a, w) k = (fst (k a), w ++ snd (k a)).
Proof. reflexivity. Qed.

Lemma bind_Ret_inv {E A B} (c : run E A) (k : A -> run E B) b w :
  bind c k = (Ret b, w) ->
  exists a w1 w2, c = (Ret a, w1) /\ k a = (Ret b, w2) /\ w = w1 ++ w2.
Proof.
  destruct c as [[a|e] w1]; unfold bind; cbn [fst snd]; intros H.
  - exists a, w1, (snd (k a)). destruct (k a) as [o w2]. cbn [fst snd] in *.
    inversion H; subst. auto.
  - discriminate.
Qed.

Lemma for_each_cons {E A S} (body : S -> A -> run E S) x xs s :
  for_each body (x :: xs) s = bind (body s x) (for_each body xs).
Proof. reflexivity. Qed.

Lemma for_each_app {E A S} (body : S -> A -> run E S) xs ys s :
  for_each body (xs ++ ys) s = bind (for_each body xs s) (for_each body ys).
Proof.
  revert s. induction xs as [|x xs IH]; intros s.
  - change (for_each body ys s = bind (ret s) (for_each body ys)).
    rewrite bind_ret_l. reflexivity.
  - change (bind (body s x) (for_each body (xs ++ ys)) =
            bind (bind (body s x) (for_each body xs)) (for_each body ys)).
    destruct (body s x) as [[s'|e] w]; [|reflexivity].
    rewrite !bind_Ret, IH.
    destruct (for_each body xs s') as [[s''|e'] w']; [|reflexivity].
    rewrite !bind_Ret. simpl. rewrite app_assoc. reflexivity.
Qed.

(** ** [np.argpartition] *)

Lemma argpartition_in_bounds (row : list float) (kth : Z) :
  (- Z.of_nat (length row) <= kth < Z.of_nat (length row))%Z ->
  argpartition row kth = Ret (argsort row).
Proof.
  intros Hb. unfold argpartition.
  destruct (Z.eqb_spec (Z.of_nat (length row)) 0); [lia|].
  destruct (Z.leb_spec (- Z.of_nat (length row)) kth); [|lia].
  destruct (Z.ltb_spec kth (Z.of_nat (length row))); [|lia].
  reflexivity.
Qed.

Lemma argpartition_out_of_bounds (row : list float) (kth : Z) :
  row <> [] ->
  ~ (- Z.of_nat (length row) <= kth < Z.of_nat (length row))%Z ->
  argpartition row kth = Raise ValueError.
Proof.
  intros Hne Hb. unfold argpartition.
  destruct (Z.eqb_spec (Z.of_nat (length row)) 0) as [E|_].
  { destruct row; [contradiction | discriminate]. }
  destruct (Z.leb_spec (- Z.of_nat (length row)) kth);
    destruct (Z.ltb_spec kth (Z.of_nat (length row)));
    cbn [andb]; try reflexivity.
  lia.
Qed.

Lemma argpartition_Ret (row : list float) (kth : Z) (r : list nat) :
  argpartition row kth = Ret r ->
  r = argsort row /\
  (row = [] \/
   (- Z.of_nat (length row) <= kth < Z.of_nat (length row))%Z).
Proof.
  unfold argpartition.
  destruct (Z.eqb_spec (Z.of_nat (length row)) 0) as [E|_].
  { destruct row; [|discriminate]. intros Hr. inversion Hr. auto. }
  destruct (Z.leb_spec (- Z.of_nat (length row)) kth);
    destruct (Z.ltb_spec kth (Z.of_nat (length row)));
    cbn [andb]; try discriminate.
  intros Hr. inversion Hr. split; [reflexivity | right; lia].
Qed.

End PyFacts.

(* ===================================================================== *)
(** * The Full Verifier *)
(* ===================================================================== *)

Module VerifyAllFacts.
Import PyFacts Verify.

Lemma combine_map_same {A B C} (f : A -> B) (g : A -> C) (l : list A) :
  combine (map f l) (map g l) = map (fun x => (f x, g x)) l.
Proof. induction l as [|x l IH]; simpl; [reflexivity | now rewrite IH]. Qed.

Lemma append_each_map {A} (g : A -> list float) (d : A -> float) (l : list A) :
  append_each (map g l) (map d l) = map (fun o => g o ++ [d o]) l.
Proof.
  unfold append_each. rewrite combine_map_same, map_map. reflexivity.
Qed.

Lemma map_snd_combine {A B C} (f : B -> C) (a : list A) (b : list B) :
  length a = length b -> map (fun p => f (snd p)) (combine a b) = map f b.
Proof.
  revert b. induction a as [|x a IH]; intros [|y b] H; simpl in *;
    try discriminate; [reflexivity|].
  f_equal. apply IH. congruence.
Qed.

Lemma count_above_zero row thr :
  count_above row thr = 0%nat <-> forall d, In d row -> ~ (thr < d)%Q.
Proof.
  unfold count_above. rewrite length_zero_iff_nil. split.
  - intros H d Hd Hlt. apply fgt_spec in Hlt.
    assert (Hin : In d (filter (fun d => fgt d thr) row))
      by (apply filter_In; auto).
    rewrite H in Hin. exact Hin.
  - intros H. induction row as [|d row IH]; simpl; [reflexivity|].
    destruct (fgt d thr) eqn:E.
    + exfalso. apply (H d); [now left | now apply fgt_spec].
    + apply IH. intros d' Hd'. apply H. now right.
Qed.

Lemma verdict_valid_iff row thr :
  verdict row thr = MsgValid <-> forall d, In d row -> ~ (thr < d)%Q.
Proof.
  rewrite <- count_above_zero. unfold verdict.
  destruct (Nat.eqb_spec (count_above row thr) 0); split; intros; congruence.
Qed.

Lemma verdict_invalid row thr :
  (exists d, In d row /\ (thr < d)%Q) ->
  verdict row thr =
    MsgInvalid (count_above row thr) (length row) (percent_above row thr)
  /\ (1 <= count_above row thr <= length row)%nat.
Proof.
  intros [d [Hd Hlt]]. unfold verdict.
  assert (Hpos : (1 <= count_above row thr)%nat).
  { destruct (count_above row thr) eqn:E; [|lia].
    exfalso. rewrite count_above_zero in E. exact (E d Hd Hlt). }
  destruct (Nat.eqb_spec (count_above row thr) 0); [lia|].
  split; [reflexivity|]. split; [exact Hpos|].
  unfold count_above. apply filter_length_le.
Qed.

Section FullVerifier.

Variables (network hyper : Type).
Variable train : hyper -> model network -> list Z -> network.
Variable distance : hyper -> model network -> model network -> metric -> float.
Variables (h : hyper) (sequence : list Z) (save_freq : Z).
Variable order : list metric.

Let n := Z.of_nat (length sequence).

(** The recorded end checkpoint, the slice of the index sequence, and the
    distance of the interval that starts at step [i]. *)
Definition interval_target (i : Z) : model network :=
  if (i + save_freq >=? n)%Z then Checkpoint _ n
  else Checkpoint _ (i + save_freq).

Definition interval_slice (i : Z) : list Z :=
  if (i + save_freq >=? n)%Z then slice sequence i None
  else slice sequence i (Some (i + save_freq)%Z).

Definition interval_distance (start : model network) (i : Z) (o : metric)
  : float :=
  distance h (interval_target i)
    (Reproduced (train h start (interval_slice i))) o.

Definition interval_events (start : model network) (i : Z)
  : list (event network) :=
  [Train start (interval_slice i);
   Distance (interval_target i)
     (Reproduced (train h start (interval_slice i))) order].

Lemma verify_all_step_eq (m : model network) (g : metric -> list float) i :
  verify_all_step train distance h sequence save_freq order (m, map g order) i
  = (Ret (interval_target i,
          map (fun o => g o ++ [interval_distance m i o]) order),
     interval_events m i).
Proof.
  unfold verify_all_step, interval_events, interval_distance,
    interval_target, interval_slice, call_train, call_distance,
    parameter_distance. fold n.
  destruct (i + save_freq >=? n)%Z; unfold bind, emit, ret;
    cbn [fst snd app]; rewrite append_each_map; reflexivity.
Qed.

(** The loop of [verify_all] over [count] intervals from the [a]-th on:
    every interval is replayed from its recorded start checkpoint. *)
Lemma verify_all_loop (count : nat) : forall (a : nat) m g,
  (0 < save_freq)%Z ->
  (forall j, (j < count)%nat -> (Z.of_nat (a + j) * save_freq < n)%Z) ->
  ((1 <= count)%nat -> m = Checkpoint _ (Z.of_nat a * save_freq)) ->
  let steps := map (fun k => (Z.of_nat k * save_freq)%Z) (seq a count) in
  exists m',
    for_each (verify_all_step train distance h sequence save_freq order)
      steps (m, map g order)
    = (Ret (m', map (fun o => g o ++
                       map (fun i => interval_distance (Checkpoint _ i) i o)
                           steps) order),
       flat_map (fun i => interval_events (Checkpoint _ i) i) steps).
Proof.
  induction count as [|c IH]; intros a m g Hsf Hlt Hm steps.
  - exists m. subst steps. cbn. unfold ret. do 3 f_equal.
    apply map_ext. intros o. now rewrite app_nil_r.
  - subst steps. cbn [seq map for_each flat_map].
    rewrite verify_all_step_eq, bind_Ret.
    rewrite (Hm ltac:(lia)).
    destruct (IH (S a) (interval_target (Z.of_nat a * save_freq))
                (fun o => g o ++ [interval_distance
                                    (Checkpoint _ (Z.of_nat a * save_freq))
                                    (Z.of_nat a * save_freq) o]) Hsf)
      as [m' Hm'].
    + intros j Hj. replace (S a + j)%nat with (a + S j)%nat by lia.
      apply Hlt. lia.
    + intros Hc. unfold interval_target.
      pose proof (Hlt 1%nat ltac:(lia)) as H1.
      replace (Z.of_nat (a + 1)) with (Z.of_nat a + 1)%Z in H1 by lia.
      destruct (Z.geb_spec (Z.of_nat a * save_freq + save_freq) n); [lia|].
      f_equal. lia.
    + exists m'. rewrite Hm'. cbn [fst snd]. do 3 f_equal.
      apply map_ext. intros o. rewrite <- app_assoc. reflexivity.
Qed.

(** The events of the reporting loop for one metric. *)
Definition report_events (okr : metric * (float * list float))
  : list (event network) :=
  [Log _ (MsgMetric (fst okr) (fst (snd okr)));
   Log _ (MsgStats (snd (snd okr)));
   Log _ (verdict (snd (snd okr)) (fst (snd okr)))].

Lemma verify_all_report_loop (l : list (metric * (float * list float))) :
  Forall (fun okr => snd (snd okr) <> []) l ->
  for_each (fun _ okr => verify_all_report network okr) l tt
  = (Ret tt, flat_map report_events l).
Proof.
  induction 1 as [|[o [thr row]] l Hrow _ IH]; [reflexivity|].
  rewrite for_each_cons.
  destruct row as [|d row]; [now elim Hrow|].
  change (verify_all_report network (o, (thr, d :: row)))
    with (@Ret unit tt, report_events (o, (thr, d :: row))).
  rewrite bind_Ret, IH. reflexivity.
Qed.

(** The verdict lines of a trace, in order. *)
Definition verdicts (tr : list (event network)) : list message :=
  flat_map (fun e => match e with
                     | Log _ MsgValid => [MsgValid]
                     | Log _ (MsgInvalid a t p) => [MsgInvalid a t p]
                     | _ => []
                     end) tr.

Lemma verdicts_app tr1 tr2 : verdicts (tr1 ++ tr2) = verdicts tr1 ++ verdicts tr2.
Proof. apply flat_map_app. Qed.

Lemma verdicts_intervals (start : Z -> model network) steps :
  verdicts (flat_map (fun i => interval_events (start i) i) steps) = [].
Proof. induction steps as [|i steps IH]; [reflexivity | exact IH]. Qed.

Lemma verdicts_report l :
  verdicts (flat_map report_events l)
  = map (fun okr => verdict (snd (snd okr)) (fst (snd okr))) l.
Proof.
  induction l as [|[o [thr row]] l IH]; [reflexivity|].
  cbn [flat_map map fst snd]. rewrite verdicts_app, IH.
  unfold report_events, verdicts. cbn [flat_map fst snd app].
  unfold verdict. destruct (Nat.eqb _ 0); reflexivity.
Qed.

End FullVerifier.

Lemma range3_up (n sf : Z) :
  (0 < sf)%Z ->
  let count := Z.to_nat ((n - 0 + sf - 1) / sf) in
  range3 0 n sf = Ret (map (fun k => (Z.of_nat k * sf)%Z) (seq 0 count))
  /\ (forall j, (j < count)%nat -> (Z.of_nat (0 + j) * sf < n)%Z)
  /\ ((0 < n)%Z -> (1 <= count)%nat).
Proof.
  intros Hsf count. split; [|split].
  - unfold range3. destruct (Z.eqb_spec sf 0); [lia|].
    destruct (Z.ltb_spec 0 sf); [|lia]. reflexivity.
  - intros j Hj. subst count.
    pose proof (Z.mul_div_le (n - 0 + sf - 1) sf Hsf) as Hq.
    assert (Hj' : (Z.of_nat j < (n - 0 + sf - 1) / sf)%Z) by lia.
    cbn [Nat.add]. nia.
  - intros Hn. subst count.
    assert ((1 <= (n - 0 + sf - 1) / sf)%Z); [|lia].
    apply Z.div_le_lower_bound; lia.
Qed.

Lemma nth_error_map_combine {A B C} (f : A * B -> C) (a : list A) (b : list B)
    k x y :
  nth_error a k = Some x -> nth_error b k = Some y ->
  nth_error (map f (combine a b)) k = Some (f (x, y)).
Proof.
  revert b k. induction a as [|x' a IH]; intros [|y' b] [|k] Ha Hb;
    simpl in *; try discriminate.
  - congruence.
  - now apply IH.
Qed.

Lemma verify_all_lists (network hyper : Type)
    (train : hyper -> model network -> list Z -> network)
    (distance : hyper -> model network -> model network -> metric -> float)
    (h : hyper) (sequence : list Z) (save_freq : Z)
    (order : list metric) (threshold : list float) :
  length order = length threshold ->
  (0 < save_freq)%Z -> sequence <> [] ->
  exists steps,
    range3 0 (Z.of_nat (length sequence)) save_freq = Ret steps /\
    steps <> [] /\
    let dist_list :=
      map (fun o =>
             map (fun i => interval_distance train distance h sequence
                             save_freq (Checkpoint _ i) i o) steps) order in
    verify_all train distance true sequence h save_freq (Many order threshold)
    = (Ret dist_list,
       flat_map (fun i => interval_events train h sequence save_freq
                            order (Checkpoint _ i) i) steps
       ++ flat_map (@report_events network)
            (combine order (combine threshold dist_list))).
Proof.
  intros Hlen Hsf Hseq.
  destruct (range3_up (Z.of_nat (length sequence)) Hsf) as [Hr [Hlt Hcount]].
  set (count := Z.to_nat ((Z.of_nat (length sequence) - 0 + save_freq - 1)
                           / save_freq)) in *.
  set (steps := map (fun k => (Z.of_nat k * save_freq)%Z) (seq 0 count)) in *.
  assert (Hc : (1 <= count)%nat).
  { apply Hcount. destruct sequence; [congruence | cbn; lia]. }
  exists steps. split; [exact Hr|]. split.
  { subst steps. destruct count; [lia | discriminate]. }
  intros dist_list.
  unfold verify_all. cbn [negb normalise].
  rewrite Hlen, Nat.eqb_refl, bind_ret_l, Hr.
  unfold lift. rewrite bind_Ret. cbn [fst snd app].
  destruct (verify_all_loop train distance h sequence order
              (count := count) 0 (m := Checkpoint _ 0) (fun _ => [])
              Hsf Hlt ltac:(intros _; reflexivity)) as [m' Hloop].
  fold steps in Hloop.
  change (empty_rows order) with (map (fun _ : metric => @nil float) order).
  rewrite Hloop, bind_Ret. cbn [fst snd app].
  change (map _ order) with dist_list.
  rewrite verify_all_report_loop.
  - rewrite bind_Ret. cbn [fst snd]. unfold ret. cbn [fst snd].
    rewrite app_nil_r. reflexivity.
  - apply Forall_forall. intros [o [thr row]] Hin.
    apply in_combine_r in Hin. apply in_combine_r in Hin.
    subst dist_list. apply in_map_iff in Hin. destruct Hin as [o' [<- _]].
    cbn [snd]. subst steps. destruct count; [lia | discriminate].
Qed.

(** C3.  Full Verifier ([verify_all]): on an existing directory, a non-empty
    index sequence, a positive [save_freq] and as many thresholds as
    metrics, [verify_all] returns normally (a distance above its threshold
    raises nothing) with one row of interval distances per metric; it logs
    one verdict per metric, in metric order; the verdict of a metric is
    "valid" exactly when no interval distance of its row is strictly
    greater than its threshold, and otherwise it is the "invalid" line
    carrying the count of the distances above the threshold, the number of
    intervals and the percentage. *)
Theorem verify_all_verdict (network hyper : Type)
    (train : hyper -> model network -> list Z -> network)
    (distance : hyper -> model network -> model network -> metric -> float)
    (h : hyper) (sequence : list Z) (save_freq : Z) (args : metric_args) :
  let order := fst (metric_lists args) in
  let threshold := snd (metric_lists args) in
  length order = length threshold ->
  (0 < save_freq)%Z ->
  sequence <> [] ->
  exists steps dist_list tr,
    range3 0 (Z.of_nat (length sequence)) save_freq = Ret steps /\
    verify_all train distance true sequence h save_freq args
      = (Ret dist_list, tr) /\
    dist_list =
      map (fun o =>
             map (fun i => interval_distance train distance h sequence
                             save_freq (Checkpoint _ i) i o) steps) order /\
    verdicts tr =
      map (fun p => verdict (snd p) (fst p)) (combine threshold dist_list) /\
    forall k thr row,
      nth_error threshold k = Some thr ->
      nth_error dist_list k = Some row ->
      (nth_error (verdicts tr) k = Some MsgValid
       <-> forall d, In d row -> ~ (thr < d)%Q) /\
      ((exists d, In d row /\ (thr < d)%Q) ->
       nth_error (verdicts tr) k =
         Some (MsgInvalid (count_above row thr) (length row)
                 (percent_above row thr)) /\
       (1 <= count_above row thr <= length row)%nat).
Proof.
  intros order threshold Hlen Hsf Hseq.
  assert (Hmany : verify_all train distance true sequence h save_freq args
                  = verify_all train distance true sequence h save_freq
                      (Many order threshold)).
  { subst order threshold. destruct args as [o t|os ts]; reflexivity. }
  destruct (@verify_all_lists _ _ train distance h sequence save_freq
              order threshold Hlen Hsf Hseq) as [steps [Hr [Hne Hrun]]].
  cbv zeta in Hrun.
  set (dist_list := map _ order) in Hrun.
  exists steps, dist_list. eexists. split; [exact Hr|].
  split; [rewrite Hmany; exact Hrun|].
  split; [reflexivity|].
  assert (Hv : verdicts
                 (flat_map (fun i => interval_events train h sequence save_freq
                                       order (Checkpoint _ i) i) steps
                  ++ flat_map (@report_events network)
                       (combine order (combine threshold dist_list)))
               = map (fun p => verdict (snd p) (fst p))
                   (combine threshold dist_list)).
  { rewrite verdicts_app, verdicts_intervals, verdicts_report. cbn [app].
    apply (map_snd_combine (fun p => verdict (snd p) (fst p))).
    rewrite length_combine. subst dist_list. rewrite length_map. lia. }
  split; [exact Hv|].
  intros k thr row Hthr Hrow. rewrite Hv.
  rewrite (nth_error_map_combine (fun p => verdict (snd p) (fst p))
             _ _ _ Hthr Hrow). cbn [fst snd].
  split.
  - rewrite <- verdict_valid_iff. split; congruence.
  - intros Hex. destruct (@verdict_invalid row thr Hex) as [-> Hb].
    split; [reflexivity | exact Hb].
Qed.

(** The Full Verifier on the toy trajectory of six steps, checkpointed
    every two steps, with the thresholds [1] and [10]. *)
Lemma verify_all_verdict_witness :
  exists steps dist_list tr,
    range3 0 6 2 = Ret steps /\
    verify_all Toy.train Toy.distance true [0; 1; 2; 3; 4; 5]%Z tt 2
      (Many Toy.two_metrics [1; 10]%Q) = (Ret dist_list, tr) /\
    dist_list =
      map (fun o =>
             map (fun i => interval_distance Toy.train Toy.distance tt
                             [0; 1; 2; 3; 4; 5]%Z 2 (Checkpoint _ i) i o)
                 steps) Toy.two_metrics /\
    verdicts tr =
      map (fun p => verdict (snd p) (fst p)) (combine [1; 10]%Q dist_list) /\
    forall k thr row,
      nth_error [1; 10]%Q k = Some thr ->
      nth_error dist_list k = Some row ->
      (nth_error (verdicts tr) k = Some MsgValid
       <-> forall d, In d row -> ~ (thr < d)%Q) /\
      ((exists d, In d row /\ (thr < d)%Q) ->
       nth_error (verdicts tr) k =
         Some (MsgInvalid (count_above row thr) (length row)
                 (percent_above row thr)) /\
       (1 <= count_above row thr <= length row)%nat).
Proof.
  apply (verify_all_verdict Toy.train Toy.distance tt
           (sequence := [0; 1; 2; 3; 4; 5]%Z) (save_freq := 2)
           (Many Toy.two_metrics [1; 10]%Q)).
  - reflexivity.
  - lia.
  - discriminate.
Defined.

(** On that trajectory the tampered checkpoint makes two of the three
    intervals fail the first metric, and none the second. *)
Example verify_all_toy :
  verify_all Toy.train Toy.distance true [0; 1; 2; 3; 4; 5]%Z tt 2
    (Many Toy.two_metrics [1; 10]%Q)
  = (Ret [[0; 5; 5]; [0; 5; 5]]%Q,
     [Train (Checkpoint _ 0) [0; 1]%Z;
      Distance (Checkpoint _ 2) (Reproduced 2%Z) Toy.two_metrics;
      Train (Checkpoint _ 2) [2; 3]%Z;
      Distance (Checkpoint _ 4) (Reproduced 4%Z) Toy.two_metrics;
      Train (Checkpoint _ 4) [4; 5]%Z;
      Distance (Checkpoint _ 6) (Reproduced 11%Z) Toy.two_metrics;
      Log _ (MsgMetric "1"%string 1); Log _ (MsgStats [0; 5; 5]%Q);
      Log _ (MsgInvalid 2 3 (100 * (2 / 3))%Q);
      Log _ (MsgMetric "2"%string 10); Log _ (MsgStats [0; 5; 5]%Q);
      Log _ MsgValid]).
Proof. reflexivity. Qed.

End VerifyAllFacts.

(* ===================================================================== *)
(** * The Top-Q Verifier: Phase 1 *)
(* ===================================================================== *)

Module TopQRanking.
Import PyFacts Verify VerifyAllFacts.

Section Ranking.

Variables (network hyper : Type).
Variable train : hyper -> model network -> list Z -> network.
Variable distance : hyper -> model network -> model network -> metric -> float.
Variables (h : hyper) (sequence : list Z) (save_freq : Z).
Variable order : list metric.

Let n := Z.of_nat (length sequence).

(** The step numbers of the two recorded checkpoints that Phase 1 compares
    for interval [i] of an epoch that begins at interval [start]. *)
Definition end_step (i : Z) : Z :=
  if ((i + 1) * save_freq >=? n)%Z then n else ((i + 1) * save_freq)%Z.

Definition start_step (start i : Z) : Z :=
  if (i =? start)%Z then (start * save_freq)%Z else end_step (i - 1).

Definition recorded_distance (start i : Z) (o : metric) : float :=
  distance h (Checkpoint _ (start_step start i)) (Checkpoint _ (end_step i)) o.

Lemma topq_rank_step_eq (m : model network) res (g : metric -> list float) i :
  topq_rank_step distance h sequence save_freq order (m, (res, map g order)) i
  = (Ret (Checkpoint _ (end_step i),
          (map PyFloat (parameter_distance distance h m
                          (Checkpoint _ (end_step i)) order),
           map (fun o => g o ++ [distance h m (Checkpoint _ (end_step i)) o])
               order)),
     [Distance m (Checkpoint _ (end_step i)) order]).
Proof.
  unfold topq_rank_step, end_step, call_distance, parameter_distance. fold n.
  destruct ((i + 1) * save_freq >=? n)%Z; unfold bind, emit, ret;
    cbn [fst snd app]; rewrite append_each_map; reflexivity.
Qed.

(** The value of [res] after the ranking loop: that of its last iteration. *)
Definition rank_res (start : Z) (steps : list Z) (res : list pyvalue)
  : list pyvalue :=
  fold_left (fun _ i =>
               map PyFloat
                 (parameter_distance distance h
                    (Checkpoint _ (start_step start i))
                    (Checkpoint _ (end_step i)) order))
            steps res.

Lemma topq_rank_loop (start : Z) (count : nat) : forall (a : nat) m res g,
  ((1 <= count)%nat ->
   m = Checkpoint _ (start_step start (start + Z.of_nat a))) ->
  let steps := map (fun k => (start + Z.of_nat k)%Z) (seq a count) in
  exists m',
    for_each (topq_rank_step distance h sequence save_freq order) steps
      (m, (res, map g order))
    = (Ret (m', (rank_res start steps res,
                 map (fun o => g o ++
                        map (fun i => recorded_distance start i o) steps)
                     order)),
       map (fun i => Distance (Checkpoint _ (start_step start i))
                       (Checkpoint _ (end_step i)) order) steps).
Proof.
  induction count as [|c IH]; intros a m res g Hm steps.
  - exists m. subst steps. cbn. unfold ret. do 4 f_equal.
    apply map_ext. intros o. now rewrite app_nil_r.
  - subst steps. cbn [seq map]. rewrite for_each_cons.
    rewrite topq_rank_step_eq, bind_Ret. rewrite (Hm ltac:(lia)).
    destruct (IH (S a) (Checkpoint _ (end_step (start + Z.of_nat a)))
                (map PyFloat
                   (parameter_distance distance h
                      (Checkpoint _ (start_step start (start + Z.of_nat a)))
                      (Checkpoint _ (end_step (start + Z.of_nat a))) order))
                (fun o => g o ++
                   [distance h
                      (Checkpoint _ (start_step start (start + Z.of_nat a)))
                      (Checkpoint _ (end_step (start + Z.of_nat a))) o]))
      as [m' Hm'].
    + intros _. unfold start_step at 1.
      destruct (Z.eqb_spec (start + Z.of_nat (S a)) start); [lia|].
      do 2 f_equal. lia.
    + exists m'. cbv zeta in Hm'. rewrite Hm'.
      cbn [fst snd app]. do 4 f_equal.
      apply map_ext. intros o. rewrite <- app_assoc. reflexivity.
Qed.

End Ranking.

(** Phase 1 in closed form. *)
Lemma topq_phase1_eq (network hyper : Type)
    (distance : hyper -> model network -> model network -> metric -> float)
    (h : hyper) (sequence : list Z) (save_freq : Z) (order : list metric)
    (start stop : Z) (res : list pyvalue) :
  topq_phase1 distance h sequence save_freq order start stop res
  = (Ret (rank_res distance h sequence save_freq order start
            (range2 start stop) res,
          map (fun o =>
                 map (fun i => recorded_distance distance h sequence
                                 save_freq start i o) (range2 start stop))
              order),
     map (fun i =>
            Distance (Checkpoint network
                        (start_step sequence save_freq start i))
              (Checkpoint network (end_step sequence save_freq i)) order)
         (range2 start stop)).
Proof.
  unfold topq_phase1.
  destruct (@topq_rank_loop _ _ distance h sequence save_freq order start
              (Z.to_nat (stop - start)) 0
              (Checkpoint _ (start * save_freq)) res (fun _ => []))
    as [m' Hloop].
  - intros _. unfold start_step.
    destruct (Z.eqb_spec (start + Z.of_nat 0) start); [reflexivity | lia].
  - change (empty_rows order) with (map (fun _ : metric => @nil float) order).
    unfold range2. cbv zeta in Hloop. rewrite Hloop, bind_Ret.
    unfold ret. cbn [fst snd]. rewrite app_nil_r. reflexivity.
Qed.

(** C1 (as the code has it).  Phase 1 of [verify_topq], for any epoch bounds
    [start] and [stop], always returns; for every interval of the epoch, in
    order, it makes exactly one call to the Distance Engine, whose two
    arguments are the recorded checkpoints at the start and at the end of
    the interval; these distances fill the ranking rows; and it never calls
    the external training function. *)
Theorem topq_phase1_compares_recorded_checkpoints (network hyper : Type)
    (distance : hyper -> model network -> model network -> metric -> float)
    (h : hyper) (sequence : list Z) (save_freq : Z) (order : list metric)
    (start stop : Z) (res : list pyvalue) :
  let intervals := range2 start stop in
  let tr := map (fun i =>
                   Distance (Checkpoint network
                               (start_step sequence save_freq start i))
                     (Checkpoint network (end_step sequence save_freq i))
                     order) intervals in
  topq_phase1 distance h sequence save_freq order start stop res
  = (Ret (rank_res distance h sequence save_freq order start intervals res,
          map (fun o =>
                 map (fun i => recorded_distance distance h sequence
                                 save_freq start i o) intervals) order),
     tr)
  /\ forall m s, ~ In (Train m s) tr.
Proof.
  intros intervals tr. split.
  - apply topq_phase1_eq.
  - intros m s Hin. subst tr. apply in_map_iff in Hin.
    destruct Hin as [i [Hi _]]. discriminate.
Qed.

(** On the toy trajectory, Phase 1 of the single epoch makes three calls to
    the Distance Engine, each on two recorded checkpoints, and no call to
    the training function: no interval is replayed, and no reproduced
    end-state enters a ranking distance. *)
Lemma topq_phase1_replays_nothing :
  let tr := snd (topq_phase1 Toy.distance tt [0; 1; 2; 3; 4; 5]%Z 2
                   Toy.two_metrics 0 3 []) in
  tr = [Distance (Checkpoint Z 0) (Checkpoint Z 2) Toy.two_metrics;
        Distance (Checkpoint Z 2) (Checkpoint Z 4) Toy.two_metrics;
        Distance (Checkpoint Z 4) (Checkpoint Z 6) Toy.two_metrics]
  /\ ~ (exists m s, In (Train m s) tr)
  /\ ~ (exists a net o, In (Distance a (Reproduced net) o) tr).
Proof.
  cbv zeta. split; [reflexivity|]. split.
  - intros [m [s Hin]]. cbn in Hin.
    repeat (destruct Hin as [Hin|Hin]; [discriminate|]). exact Hin.
  - intros [a [net [o Hin]]]. cbn in Hin.
    repeat (destruct Hin as [Hin|Hin]; [discriminate|]). exact Hin.
Qed.

End TopQRanking.

(* ===================================================================== *)
(** * The Top-Q Verifier: the selection of the steps of Phase 2 *)
(* ===================================================================== *)

Module TopQSelection.
Import PyFacts Verify.

(** ** [argsort] *)

Section Argsort.

Variable v : nat -> float.

Let le_v (i j : nat) : Prop := (v i <= v j)%Q.

Lemma insert_by_perm i l : Permutation (insert_by v i l) (i :: l).
Proof.
  induction l as [|j l IH]; simpl; [reflexivity|].
  destruct (Qle_bool (v i) (v j)); [reflexivity|].
  rewrite IH. apply perm_swap.
Qed.

Lemma fold_insert_by_perm l : Permutation (fold_right (insert_by v) [] l) l.
Proof.
  induction l as [|i l IH]; simpl; [reflexivity|].
  rewrite insert_by_perm. now constructor.
Qed.

Lemma insert_by_sorted i l :
  StronglySorted le_v l -> StronglySorted le_v (insert_by v i l).
Proof.
  induction 1 as [|j l Hs IH Hj]; simpl.
  - constructor; constructor.
  - destruct (Qle_bool (v i) (v j)) eqn:E.
    + apply Qle_bool_iff in E. constructor; [now constructor|].
      constructor; [exact E|].
      eapply Forall_impl; [|exact Hj]. intros k Hk. unfold le_v in *.
      eapply Qle_trans; eauto.
    + assert (Hji : (v j <= v i)%Q).
      { destruct (Qlt_le_dec (v j) (v i)) as [H|H]; [now apply Qlt_le_weak|].
        apply Qle_bool_iff in H. congruence. }
      constructor; [exact IH|].
      apply (Permutation_Forall (Permutation_sym (insert_by_perm i l))).
      constructor; assumption.
Qed.

Lemma fold_insert_by_sorted l :
  StronglySorted le_v (fold_right (insert_by v) [] l).
Proof.
  induction l as [|i l IH]; simpl; [constructor | now apply insert_by_sorted].
Qed.

End Argsort.

Lemma argsort_perm row : Permutation (argsort row) (seq 0 (length row)).
Proof. apply fold_insert_by_perm. Qed.

Lemma argsort_length row : length (argsort row) = length row.
Proof. rewrite (Permutation_length (argsort_perm row)). apply length_seq. Qed.

Lemma argsort_sorted row :
  StronglySorted (fun i j => (nth i row 0 <= nth j row 0)%Q) (argsort row).
Proof. apply fold_insert_by_sorted. Qed.

Lemma argsort_NoDup row : NoDup (argsort row).
Proof.
  apply (Permutation_NoDup (Permutation_sym (argsort_perm row))).
  apply seq_NoDup.
Qed.

Lemma sorted_app_le {A} (R : A -> A -> Prop) (a b : list A) :
  StronglySorted R (a ++ b) -> forall x y, In x a -> In y b -> R x y.
Proof.
  induction a as [|z a IH]; intros Hs x y Hx Hy; [contradiction|].
  simpl in Hs. inversion Hs as [|? ? Hs' Hall]; subst.
  destruct Hx as [<-|Hx].
  - rewrite Forall_forall in Hall. apply Hall. apply in_or_app. now right.
  - now apply IH.
Qed.

(** ** [np.unique] and [np.union1d] *)

Lemma insert_unique_In x l y : In y (insert_unique x l) <-> y = x \/ In y l.
Proof.
  induction l as [|z l IH]; simpl.
  - intuition.
  - destruct (Nat.ltb_spec x z); [simpl; intuition|].
    destruct (Nat.eqb_spec x z).
    + subst. simpl. intuition.
    + simpl. rewrite IH. intuition.
Qed.

Lemma insert_unique_sorted x l :
  StronglySorted lt l -> StronglySorted lt (insert_unique x l).
Proof.
  induction 1 as [|z l Hs IH Hz]; simpl.
  - constructor; constructor.
  - destruct (Nat.ltb_spec x z).
    + constructor; [now constructor|]. constructor; [assumption|].
      eapply Forall_impl; [|exact Hz]. intros; lia.
    + destruct (Nat.eqb_spec x z); [now constructor|].
      constructor; [exact IH|].
      apply Forall_forall. intros y Hy. apply insert_unique_In in Hy.
      destruct Hy as [->|Hy]; [lia|].
      rewrite Forall_forall in Hz. now apply Hz.
Qed.

Lemma unique_In l y : In y (unique l) <-> In y l.
Proof.
  induction l as [|x l IH]; simpl; [reflexivity|].
  rewrite insert_unique_In, IH. intuition.
Qed.

Lemma unique_sorted l : StronglySorted lt (unique l).
Proof.
  induction l as [|x l IH]; simpl; [constructor|].
  now apply insert_unique_sorted.
Qed.

Lemma sorted_lt_NoDup l : StronglySorted lt l -> NoDup l.
Proof.
  induction 1 as [|x l Hs IH Hx]; constructor; [|exact IH].
  intros Hin. rewrite Forall_forall in Hx. specialize (Hx x Hin). lia.
Qed.

Lemma union1d_In a b y : In y (union1d a b) <-> In y a \/ In y b.
Proof. unfold union1d. rewrite unique_In. apply in_app_iff. Qed.

Lemma fold_union1d_In rs : forall r0 y,
  In y (fold_left union1d rs r0) <-> In y r0 \/ exists r, In r rs /\ In y r.
Proof.
  induction rs as [|r rs IH]; intros r0 y; simpl.
  - split; [now left | intros [H|[r [[] _]]]; exact H].
  - rewrite IH, union1d_In. split.
    + intros [[H|H]|[r' [Hr' Hy]]]; eauto.
    + intros [H|[r' [[<-|Hr'] Hy]]]; eauto.
Qed.

Lemma fold_union1d_sorted rs : forall r0,
  StronglySorted lt r0 -> StronglySorted lt (fold_left union1d rs r0).
Proof.
  induction rs as [|r rs IH]; intros r0 H0; simpl; [exact H0|].
  apply IH. apply unique_sorted.
Qed.

(** ** The slice [[:, -q:]] *)

Lemma slice_bound_range len i :
  (0 <= len)%Z -> (0 <= slice_bound len i <= len)%Z.
Proof.
  intros Hlen. unfold slice_bound. destruct (Z.ltb_spec i 0); lia.
Qed.

Lemma slice_None {A} (l : list A) lo :
  slice l lo None
  = skipn (Z.to_nat (slice_bound (Z.of_nat (length l)) lo)) l.
Proof.
  unfold slice.
  pose proof (@slice_bound_range (Z.of_nat (length l)) lo ltac:(lia)) as Hb.
  apply firstn_all2. rewrite length_skipn. lia.
Qed.

(** The indices kept for one row: the last [q] of the partition order. *)
Definition top_indices (row : list float) (q : Z) : list nat :=
  slice (argsort row) (- q) None.

Lemma top_indices_skipn row q :
  (1 <= q <= Z.of_nat (length row))%Z ->
  top_indices row q = skipn (length row - Z.to_nat q) (argsort row).
Proof.
  intros Hq. unfold top_indices. rewrite slice_None, argsort_length.
  f_equal. unfold slice_bound. destruct (Z.ltb_spec (- q) 0); lia.
Qed.

Lemma top_indices_length row q :
  (1 <= q <= Z.of_nat (length row))%Z ->
  length (top_indices row q) = Z.to_nat q.
Proof.
  intros Hq. rewrite top_indices_skipn by exact Hq.
  rewrite length_skipn, argsort_length. lia.
Qed.

Lemma top_indices_incl row q i :
  In i (top_indices row q) -> (i < length row)%nat.
Proof.
  unfold top_indices. rewrite slice_None. intros Hin.
  assert (Hin' : In i (argsort row)).
  { rewrite <- (firstn_skipn
                  (Z.to_nat (slice_bound (Z.of_nat (length (argsort row)))
                               (- q))) (argsort row)).
    apply in_or_app. now right. }
  apply (Permutation_in _ (argsort_perm row)) in Hin'.
  apply in_seq in Hin'. lia.
Qed.

Lemma top_indices_NoDup row q : NoDup (top_indices row q).
Proof.
  unfold top_indices. rewrite slice_None.
  set (k := Z.to_nat _).
  pose proof (argsort_NoDup row) as Hnd.
  rewrite <- (firstn_skipn k (argsort row)) in Hnd.
  now apply NoDup_app_remove_l in Hnd.
Qed.

(** The kept indices carry the highest values of the row. *)
Lemma top_indices_highest row q i j :
  In i (top_indices row q) -> (j < length row)%nat ->
  ~ In j (top_indices row q) -> (nth j row 0 <= nth i row 0)%Q.
Proof.
  unfold top_indices. rewrite slice_None. set (k := Z.to_nat _).
  intros Hi Hj Hnj.
  pose proof (argsort_sorted row) as Hs.
  rewrite <- (firstn_skipn k (argsort row)) in Hs.
  apply (@sorted_app_le _ _ _ _ Hs); [|exact Hi].
  assert (Hin : In j (argsort row)).
  { apply (Permutation_in _ (Permutation_sym (argsort_perm row))).
    apply in_seq. lia. }
  rewrite <- (firstn_skipn k (argsort row)) in Hin.
  apply in_app_or in Hin. destruct Hin as [H|H]; [exact H | contradiction].
Qed.

Lemma argpartition_rows_ok (arr : list (list float)) (kth : Z) :
  Forall (fun row => (- Z.of_nat (length row) <= kth < Z.of_nat (length row))%Z)
         arr ->
  argpartition_rows arr kth = Ret (map argsort arr).
Proof.
  induction 1 as [|row arr Hrow _ IH]; [reflexivity|].
  cbn [argpartition_rows map].
  rewrite (argpartition_in_bounds row Hrow), IH. reflexivity.
Qed.

Lemma length_concat_const {A} (ls : list (list A)) c :
  Forall (fun l => length l = c) ls -> length (concat ls) = (c * length ls)%nat.
Proof.
  induction 1 as [|l ls Hl _ IH]; simpl; [lia|].
  rewrite length_app, IH, Hl. lia.
Qed.

(** C6 (as the code has it).  With more than one metric, a positive [q] and
    [q <= num_intervals], the steps selected for Phase 2 are the union over
    the metrics of the [q] interval indices that carry the highest
    distances of each metric's row, without repetition; their number is at
    least [q] and at most [min(num_intervals, q * num_metrics)]. *)
Theorem topq_select_union (order : list metric) (dist_arr : list (list float))
    (q : Z) (num_intervals : nat) :
  (1 < length order)%nat ->
  length dist_arr = length order ->
  Forall (fun row => length row = num_intervals) dist_arr ->
  (1 <= q <= Z.of_nat num_intervals)%Z ->
  exists u,
    topq_select order dist_arr q = Ret (Steps1 u) /\
    (forall i, In i u <->
               exists row, In row dist_arr /\ In i (top_indices row q)) /\
    (forall row, In row dist_arr ->
       length (top_indices row q) = Z.to_nat q /\
       NoDup (top_indices row q) /\
       forall i j, In i (top_indices row q) -> (j < num_intervals)%nat ->
                   ~ In j (top_indices row q) ->
                   (nth j row 0 <= nth i row 0)%Q) /\
    NoDup u /\
    (Z.to_nat q <= length u
     <= Nat.min num_intervals (Z.to_nat q * length order))%nat.
Proof.
  intros Hm Hlen Hrows Hq.
  destruct dist_arr as [|r1 [|r2 rest]]; cbn [length] in Hlen; try lia.
  set (arr := r1 :: r2 :: rest) in *.
  set (tops := map (fun row => top_indices row q) arr).
  assert (Hsel : topq_select order arr q
                 = Ret (Steps1 (fold_left union1d
                                  (map (fun row => top_indices row q)
                                       (r2 :: rest))
                                  (top_indices r1 q)))).
  { unfold topq_select, argpartition_axis1. subst arr.
    rewrite argpartition_rows_ok.
    - rewrite map_map. destruct (Nat.ltb_spec 1 (length order)); [|lia].
      reflexivity.
    - eapply Forall_impl; [|exact Hrows]. cbn beta. intros row ->. lia. }
  eexists. split; [exact Hsel|].
  set (u := fold_left union1d _ _).
  assert (Hin : forall i, In i u <->
                          exists row, In row arr /\ In i (top_indices row q)).
  { intros i. subst u. rewrite fold_union1d_In. split.
    - intros [H|[r [Hr Hi]]].
      + exists r1. split; [now left | exact H].
      + apply in_map_iff in Hr. destruct Hr as [row [<- Hrow]].
        exists row. split; [now right | exact Hi].
    - intros [row [[<-|Hrow] Hi]]; [now left|].
      right. exists (top_indices row q). split; [|exact Hi].
      apply in_map_iff. now exists row. }
  assert (Hrow : forall row, In row arr ->
                             (1 <= q <= Z.of_nat (length row))%Z).
  { intros row Hr. rewrite Forall_forall in Hrows. rewrite (Hrows row Hr).
    exact Hq. }
  assert (Hnd : NoDup u).
  { apply sorted_lt_NoDup. subst u. cbn [map fold_left].
    apply fold_union1d_sorted. apply unique_sorted. }
  split; [exact Hin|]. split; [|split; [exact Hnd|]].
  - intros row Hr. split; [now apply top_indices_length, Hrow|].
    split; [apply top_indices_NoDup|].
    intros i j Hi Hj Hnj. apply (@top_indices_highest row q i j Hi); [|exact Hnj].
    rewrite Forall_forall in Hrows. now rewrite (Hrows row Hr).
  - split.
    + rewrite <- (@top_indices_length r1 q) by (apply Hrow; now left).
      apply NoDup_incl_length; [apply top_indices_NoDup|].
      intros i Hi. apply Hin. exists r1. split; [now left | exact Hi].
    + apply Nat.min_glb.
      * rewrite <- (length_seq num_intervals 0).
        apply NoDup_incl_length; [exact Hnd|].
        intros i Hi. apply Hin in Hi. destruct Hi as [row [Hr Hi]].
        apply top_indices_incl in Hi. rewrite Forall_forall in Hrows.
        rewrite (Hrows row Hr) in Hi. apply in_seq. lia.
      * assert (Hc : length (concat tops)
                     = (Z.to_nat q * length order)%nat).
        { rewrite (@length_concat_const _ tops (Z.to_nat q)).
          - subst tops. rewrite length_map. subst arr. cbn [length]. lia.
          - subst tops. apply Forall_forall. intros l Hl.
            apply in_map_iff in Hl. destruct Hl as [row [<- Hr]].
            now apply top_indices_length, Hrow. }
        rewrite <- Hc. apply NoDup_incl_length; [exact Hnd|].
        intros i Hi. apply Hin in Hi. destruct Hi as [row [Hr Hi]].
        apply in_concat. exists (top_indices row q). split; [|exact Hi].
        subst tops. apply in_map_iff. now exists row.
Qed.

(** Two metrics that disagree on three intervals, with [q = 1]. *)
Lemma topq_select_union_witness :
  exists u,
    topq_select Toy.two_metrics [[1; 2; 3]; [2; 1; 0]]%Q 1 = Ret (Steps1 u) /\
    (forall i, In i u <->
               exists row, In row [[1; 2; 3]; [2; 1; 0]]%Q
                           /\ In i (top_indices row 1)) /\
    (forall row, In row [[1; 2; 3]; [2; 1; 0]]%Q ->
       length (top_indices row 1) = Z.to_nat 1 /\
       NoDup (top_indices row 1) /\
       forall i j, In i (top_indices row 1) -> (j < 3)%nat ->
                   ~ In j (top_indices row 1) ->
                   (nth j row 0 <= nth i row 0)%Q) /\
    NoDup u /\
    (Z.to_nat 1 <= length u
     <= Nat.min 3 (Z.to_nat 1 * length Toy.two_metrics))%nat.
Proof.
  apply (@topq_select_union Toy.two_metrics [[1; 2; 3]; [2; 1; 0]]%Q 1 3).
  - simpl. lia.
  - reflexivity.
  - repeat constructor.
  - lia.
Defined.

(** With [q = 0] the slice [[:, -0:]] keeps every column: on two intervals
    the union holds both of them, more than [min(2, 0 * 2) = 0]. *)
Lemma topq_select_zero_keeps_all :
  topq_select Toy.two_metrics [[1; 2]; [2; 1]]%Q 0 = Ret (Steps1 [0; 1]%nat)
  /\ (0 <= Z.of_nat 2)%Z
  /\ ~ (length [0; 1]%nat <= Nat.min 2 (Z.to_nat 0 * length Toy.two_metrics))%nat.
Proof.
  split; [reflexivity|]. split; [lia|]. simpl. lia.
Qed.

End TopQSelection.

(* ===================================================================== *)
(** * The Top-Q Verifier: Phase 2 and the returned value *)
(* ===================================================================== *)

Module TopQEpoch.
Import PyFacts Verify VerifyAllFacts TopQRanking TopQSelection.

Section Epoch.

Variables (network hyper : Type).
Variable train : hyper -> model network -> list Z -> network.
Variable distance : hyper -> model network -> model network -> metric -> float.
Variables (h : hyper) (sequence : list Z) (save_freq : Z).
Variable order : list metric.

(** The value of the variable [res] after the events [tr], when it held
    [res] before: the result of the last call to the Distance Engine. *)
Definition res_after (tr : list (event network)) (res : list pyvalue)
  : list pyvalue :=
  fold_left (fun r e =>
               match e with
               | Distance a b o => map PyFloat (parameter_distance distance h a b o)
               | _ => r
               end) tr res.

(** The rows printed by the report of an epoch. *)
Definition reported_rows (tr : list (event network)) : list (list float) :=
  flat_map (fun e => match e with
                     | Log _ (MsgTopqAverage row) => [row]
                     | _ => []
                     end) tr.

Definition is_distance (e : event network) : bool :=
  match e with Distance _ _ _ => true | _ => false end.

(** Every call to the Distance Engine in [tr] asks for the metrics [order]. *)
Definition asks_order (tr : list (event network)) : Prop :=
  forall a b o, In (Distance a b o) tr -> o = order.

(** No line of the report is in [tr]. *)
Definition silent (tr : list (event network)) : Prop :=
  forall m, ~ In (Log _ m) tr.

Lemma res_after_app tr1 tr2 res :
  res_after (tr1 ++ tr2) res = res_after tr2 (res_after tr1 res).
Proof. apply fold_left_app. Qed.

Lemma res_after_none tr res :
  existsb is_distance tr = false -> res_after tr res = res.
Proof.
  revert res. induction tr as [|e tr IH]; intros res H; [reflexivity|].
  cbn [existsb] in H. apply orb_false_iff in H. destruct H as [He Htr].
  cbn [res_after fold_left]. destruct e; try discriminate; now apply IH.
Qed.

Lemma res_after_indep tr : forall res res',
  existsb is_distance tr = true -> res_after tr res = res_after tr res'.
Proof.
  induction tr as [|e tr IH]; intros res res' H; [discriminate|].
  cbn [res_after fold_left]. destruct e as [| a b o |].
  - apply IH. exact H.
  - reflexivity.
  - apply IH. exact H.
Qed.

(** If the Distance Engine is called in [tr], [res] holds the result of
    its last call. *)
Lemma res_after_last tr : forall res,
  existsb is_distance tr = true ->
  exists w1 a b o w2,
    tr = w1 ++ Distance a b o :: w2 /\
    existsb is_distance w2 = false /\
    res_after tr res = map PyFloat (parameter_distance distance h a b o).
Proof.
  induction tr as [|e tr IH]; intros res H; [discriminate|].
  destruct (existsb is_distance tr) eqn:Htr.
  - destruct (IH (res_after [e] res) eq_refl)
      as [w1 [a [b [o [w2 [-> [Hw2 Hres]]]]]]].
    exists (e :: w1), a, b, o, w2. repeat split; [exact Hw2|].
    change (e :: w1 ++ Distance a b o :: w2)
      with ([e] ++ (w1 ++ Distance a b o :: w2)).
    rewrite res_after_app. exact Hres.
  - cbn [existsb] in H. rewrite Htr, orb_false_r in H.
    destruct e as [| a b o |]; try discriminate.
    exists [], a, b, o, tr. repeat split; [exact Htr|].
    change (Distance a b o :: tr) with ([Distance a b o] ++ tr).
    rewrite res_after_app. now apply res_after_none.
Qed.

Lemma reported_rows_app tr1 tr2 :
  reported_rows (tr1 ++ tr2) = reported_rows tr1 ++ reported_rows tr2.
Proof. apply flat_map_app. Qed.

Lemma reported_rows_silent tr : silent tr -> reported_rows tr = [].
Proof.
  induction tr as [|e tr IH]; intros Hs; [reflexivity|].
  cbn [reported_rows flat_map]. destruct e as [| |m].
  - apply IH. intros m' Hin. apply (Hs m'). now right.
  - apply IH. intros m' Hin. apply (Hs m'). now right.
  - exfalso. apply (Hs m). now left.
Qed.

(** One iteration of the deep-check loop. *)
Lemma topq_check_step_eq res (g : metric -> list float) start ind :
  topq_check_step train distance h sequence save_freq order start
    (res, map g order) ind
  = match int_of (np_mul (np_add start ind) save_freq) with
    | Raise e => (Raise e, [])
    | Ret step =>
        (Ret (map PyFloat
                (parameter_distance distance h
                   (interval_target network sequence save_freq step)
                   (Reproduced
                      (train h (Checkpoint _ step)
                         (interval_slice sequence save_freq step)))
                   order),
              map (fun o => g o ++
                     [interval_distance train distance h sequence save_freq
                        (Checkpoint _ step) step o]) order),
         interval_events train h sequence save_freq order
           (Checkpoint _ step) step)
    end.
Proof.
  unfold topq_check_step.
  destruct (int_of (np_mul (np_add start ind) save_freq)) as [step|e];
    [|reflexivity].
  unfold lift. rewrite bind_Ret. cbn [fst snd app].
  unfold interval_events, interval_distance, interval_target, interval_slice,
    call_train, call_distance, parameter_distance.
  destruct (step + save_freq >=? Z.of_nat (length sequence))%Z;
    unfold bind, emit, ret; cbn [fst snd app];
    rewrite append_each_map; reflexivity.
Qed.

(** The deep-check loop, when it completes: it would complete in the same
    way from any other value of [res]. *)
Lemma topq_phase2_loop start items : forall res (g : metric -> list float) st w,
  for_each (topq_check_step train distance h sequence save_freq order start)
    items (res, map g order) = (Ret st, w) ->
  (forall res',
     for_each (topq_check_step train distance h sequence save_freq order start)
       items (res', map g order) = (Ret (res_after w res', snd st), w)) /\
  (exists g', snd st = map g' order) /\
  silent w /\ asks_order w.
Proof.
  induction items as [|ind items IH]; intros res g st w H.
  - inversion H; subst. cbn. repeat split.
    + now exists g.
    + intros m [].
    + intros a b o [].
  - rewrite for_each_cons in H. apply bind_Ret_inv in H.
    destruct H as [[res1 rows1] [w1 [w2 [H1 [H2 ->]]]]].
    rewrite topq_check_step_eq in H1.
    destruct (int_of (np_mul (np_add start ind) save_freq)) as [step|e] eqn:Hi;
      [|discriminate].
    inversion H1; subst res1 rows1 w1; clear H1.
    destruct (IH _ _ _ _ H2) as [Hres [Hrows [Hsil Hask]]].
    split; [|split; [exact Hrows|split]].
    + intros res'. rewrite for_each_cons, topq_check_step_eq, Hi, bind_Ret.
      rewrite Hres. cbn [fst snd]. rewrite res_after_app. reflexivity.
    + intros m Hin. apply in_app_or in Hin. destruct Hin as [Hin|Hin].
      * cbn in Hin. destruct Hin as [Hin|[Hin|[]]]; discriminate.
      * exact (Hsil m Hin).
    + intros a b o Hin. apply in_app_or in Hin. destruct Hin as [Hin|Hin].
      * cbn in Hin. destruct Hin as [Hin|[Hin|[]]]; [discriminate|].
        now inversion Hin.
      * exact (Hask a b o Hin).
Qed.

(** The events of Phase 1, and [res] after them. *)
Definition rank_events (start : Z) (steps : list Z) : list (event network) :=
  map (fun i => Distance (Checkpoint _ (start_step sequence save_freq start i))
                  (Checkpoint _ (end_step sequence save_freq i)) order) steps.

Lemma rank_res_after start steps : forall res,
  res_after (rank_events start steps) res
  = rank_res distance h sequence save_freq order start steps res.
Proof.
  induction steps as [|i steps IH]; intros res; [reflexivity|].
  cbn [rank_events map res_after fold_left rank_res]. apply IH.
Qed.

Lemma rank_events_silent start steps : silent (rank_events start steps).
Proof.
  intros m Hin. apply in_map_iff in Hin. destruct Hin as [i [Hi _]].
  discriminate.
Qed.

Lemma rank_events_asks start steps : asks_order (rank_events start steps).
Proof.
  intros a b o Hin. apply in_map_iff in Hin. destruct Hin as [i [Hi _]].
  now inversion Hi.
Qed.

Lemma rank_events_distance start steps :
  steps <> [] -> existsb is_distance (rank_events start steps) = true.
Proof. destruct steps; [congruence | reflexivity]. Qed.

(** The report of an epoch. *)
Definition topq_report_events (q : Z) (okr : metric * (float * list float))
  : list (event network) :=
  [Log _ (MsgMetricQ (fst okr) (fst (snd okr)) q);
   Log _ (MsgTopqAverage (snd (snd okr)));
   Log _ (verdict (snd (snd okr)) (fst (snd okr)))].

Lemma topq_report_loop q (l : list (metric * (float * list float))) :
  for_each (fun _ okr => topq_report network q okr) l tt
  = (Ret tt, flat_map (topq_report_events q) l).
Proof.
  induction l as [|[o [thr row]] l IH]; [reflexivity|].
  rewrite for_each_cons.
  change (topq_report network q (o, (thr, row)))
    with (@Ret unit tt, topq_report_events q (o, (thr, row))).
  rewrite bind_Ret, IH. reflexivity.
Qed.

Lemma topq_report_rows q l :
  reported_rows (flat_map (topq_report_events q) l)
  = map (fun okr => snd (snd okr)) l.
Proof.
  induction l as [|[o [thr row]] l IH]; [reflexivity|].
  cbn [flat_map map]. rewrite reported_rows_app, IH.
  unfold topq_report_events, reported_rows. cbn [flat_map fst snd app].
  unfold verdict. destruct (Nat.eqb _ 0); reflexivity.
Qed.

Lemma topq_report_no_distance q l :
  existsb is_distance (flat_map (topq_report_events q) l) = false.
Proof. induction l as [|okr l IH]; [reflexivity | exact IH]. Qed.

(** An epoch over at least one interval that completes: the value it
    returns is the result of the last call to the Distance Engine followed
    by the array of the Phase 2 distances; the value of [res] before the
    epoch is lost. *)
Lemma topq_epoch_Ret (threshold : list float) q start stop res v w :
  length threshold = length order ->
  (start < stop)%Z ->
  topq_epoch train distance h sequence save_freq order threshold q
    start stop res = (Ret v, w) ->
  order <> [] /\
  exists a b arr w1 w2,
    w = w1 ++ Distance a b order :: w2 /\
    existsb is_distance w2 = false /\
    reported_rows w = arr /\
    v = map PyFloat (parameter_distance distance h a b order) ++ [PyArray arr] /\
    forall res',
      topq_epoch train distance h sequence save_freq order threshold q
        start stop res' = (Ret v, w).
Proof.
  intros Hlen Hlt H. unfold topq_epoch in H.
  rewrite topq_phase1_eq, bind_Ret in H. cbn [fst snd] in H.
  fold (rank_events start (range2 start stop)) in H.
  set (rows1 := map _ order) in H.
  destruct (topq_select order rows1 q) as [steps|e] eqn:Hsel;
    [|discriminate].
  unfold lift in H. rewrite bind_Ret in H. cbn [fst snd app] in H.
  destruct (topq_phase2 train distance h sequence save_freq order start steps
              (rank_res distance h sequence save_freq order start
                 (range2 start stop) res)) as [[st2|e] w2] eqn:H2;
    [|discriminate].
  rewrite bind_Ret, topq_report_loop, bind_Ret in H.
  unfold ret in H. cbn [fst snd] in H. rewrite app_nil_r in H.
  inversion H; subst v w; clear H.
  unfold topq_phase2 in H2.
  change (empty_rows order) with (map (fun _ : metric => @nil float) order) in H2.
  destruct (topq_phase2_loop _ _ _ _ H2) as [Hres [[g' Hrows] [Hsil Hask]]].
  assert (Hord : order <> []).
  { intros E. subst rows1. rewrite E in Hsel. discriminate. }
  assert (Hint : range2 start stop <> []).
  { unfold range2. intros Hnil. apply (f_equal (@length Z)) in Hnil.
    rewrite length_map, length_seq in Hnil. cbn [length] in Hnil. lia. }
  pose proof (Hres (rank_res distance h sequence save_freq order start
                      (range2 start stop) res)) as Hst2.
  rewrite H2 in Hst2. injection Hst2 as Hfst.
  apply (f_equal fst) in Hfst. cbn [fst] in Hfst.
  assert (Hd : existsb is_distance
                 (rank_events start (range2 start stop) ++ w2) = true).
  { rewrite existsb_app, (rank_events_distance start Hint). reflexivity. }
  split; [exact Hord|].
  destruct (res_after_last _ res Hd) as [u1 [a [b [o [u2 [Hw [Hu2 Hra]]]]]]].
  assert (Ho : o = order).
  { assert (Hin : In (Distance a b o)
                     (rank_events start (range2 start stop) ++ w2)).
    { rewrite Hw. apply in_or_app. right. now left. }
    apply in_app_or in Hin. destruct Hin as [Hin|Hin].
    - exact (rank_events_asks start _ _ _ _ Hin).
    - exact (Hask _ _ _ Hin). }
  subst o.
  set (report := flat_map (topq_report_events q)
                   (combine order (combine threshold (snd st2)))).
  exists a, b, (snd st2), u1, (u2 ++ report).
  assert (Hfst2 : fst st2 = map PyFloat (parameter_distance distance h a b order)).
  { rewrite Hfst at 1. rewrite <- rank_res_after, <- res_after_app. exact Hra. }
  split; [|split; [|split; [|split]]].
  - rewrite app_assoc, Hw, <- app_assoc. reflexivity.
  - rewrite existsb_app, Hu2. apply topq_report_no_distance.
  - rewrite !reported_rows_app.
    rewrite (reported_rows_silent (rank_events_silent start _)).
    rewrite (reported_rows_silent Hsil). cbn [app].
    subst report. rewrite topq_report_rows.
    rewrite (@map_snd_combine _ _ _ (fun p : float * list float => snd p)
               order (combine threshold (snd st2)))
      by (rewrite length_combine, Hrows, length_map; lia).
    rewrite (@map_snd_combine _ _ _ (fun r : list float => r)
               threshold (snd st2))
      by (rewrite Hrows, length_map; exact Hlen).
    apply map_id.
  - rewrite Hfst2. reflexivity.
  - intros res'. unfold topq_epoch.
    rewrite topq_phase1_eq, bind_Ret. cbn [fst snd].
    fold (rank_events start (range2 start stop)). fold rows1.
    rewrite Hsel. unfold lift. rewrite bind_Ret. cbn [fst snd app].
    unfold topq_phase2.
    change (empty_rows order) with (map (fun _ : metric => @nil float) order).
    rewrite Hres, bind_Ret, topq_report_loop, bind_Ret.
    unfold ret. cbn [fst snd]. rewrite app_nil_r. fold report.
    do 2 f_equal. f_equal.
    rewrite Hfst. rewrite <- !rank_res_after, <- !res_after_app.
    apply (res_after_indep _ _ _ Hd).
Qed.

End Epoch.

Lemma range_last (epochs : Z) :
  (1 <= epochs)%Z -> range epochs = range (epochs - 1) ++ [(epochs - 1)%Z].
Proof.
  intros H. unfold range, range2.
  replace (Z.to_nat (epochs - 0)) with (S (Z.to_nat (epochs - 1 - 0))) by lia.
  rewrite seq_S, map_app. cbn [map]. do 2 f_equal. lia.
Qed.

Lemma range_first (epochs : Z) :
  (1 <= epochs)%Z -> exists rest, range epochs = 0%Z :: rest.
Proof.
  intros H. unfold range, range2.
  replace (Z.to_nat (epochs - 0)) with (S (Z.to_nat (epochs - 1))) by lia.
  cbn [seq map]. eexists. reflexivity.
Qed.

(** The loop over the epochs. *)
Definition epoch_body (network hyper : Type)
    (train : hyper -> model network -> list Z -> network)
    (distance : hyper -> model network -> model network -> metric -> float)
    (h : hyper) (sequence : list Z) (save_freq : Z) (order : list metric)
    (threshold : list float) (epochs q : Z) (c : float)
    (res : list pyvalue) (epoch : Z) : run (event network) (list pyvalue) :=
  logging_info network (MsgEpoch (epoch + 1) epochs) ;;;
  topq_epoch train distance h sequence save_freq order threshold q
    (epoch_bound c epoch) (epoch_bound c (epoch + 1)) res.

(** [verify_topq] past its three guards. *)
Lemma verify_topq_guards (network hyper : Type)
    (train : hyper -> model network -> list Z -> network)
    (distance : hyper -> model network -> model network -> metric -> float)
    (dir_exists : bool) (sequence : list Z) (h : hyper) (save_freq : Z)
    (args : metric_args) (epochs q : Z) :
  let order := fst (metric_lists args) in
  let threshold := snd (metric_lists args) in
  (exists e,
     verify_topq train distance dir_exists sequence h save_freq args epochs q
     = (Raise e, []) /\
     (dir_exists = false \/ length threshold <> length order \/
      ckpt_per_epoch (Z.of_nat (length sequence)) epochs save_freq = Raise e))
  \/
  (dir_exists = true /\ length threshold = length order /\
   exists c,
     ckpt_per_epoch (Z.of_nat (length sequence)) epochs save_freq = Ret c /\
     verify_topq train distance dir_exists sequence h save_freq args epochs q
     = for_each (epoch_body train distance h sequence save_freq order
                   threshold epochs q c) (range epochs) []).
Proof.
  intros order threshold. unfold verify_topq.
  destruct dir_exists; cbn [negb]; [|left; eexists; split; [reflexivity|auto]].
  assert (Hn : (length threshold <> length order /\
                normalise network args = (Raise AssertionError, [])) \/
               (length threshold = length order /\
                normalise network args = (Ret (order, threshold), []))).
  { subst order threshold. destruct args as [o t|os ts]; cbn.
    - right. split; reflexivity.
    - destruct (Nat.eqb_spec (length os) (length ts)); [right | left];
        auto. }
  destruct Hn as [[Hlen Hn]|[Hlen Hn]]; rewrite Hn.
  - left. eexists. split; [reflexivity|auto].
  - rewrite bind_Ret. cbn [app].
    destruct (ckpt_per_epoch (Z.of_nat (length sequence)) epochs save_freq)
      as [c|e] eqn:Hc.
    + right. split; [reflexivity|]. split; [exact Hlen|].
      exists c. split; [reflexivity|]. unfold lift. rewrite bind_Ret.
      cbn [fst snd app]. destruct (for_each _ _ _); reflexivity.
    + left. exists e. split; [reflexivity|auto].
Qed.

(** C10.  When [verify_topq] returns, with at least one epoch, and the
    final epoch holds at least one checkpoint interval, the value it
    returns is the list of the per-metric distances produced by the last
    call to the Distance Engine, followed by the single array of Phase 2
    distances that the final epoch reports; it holds one more element than
    there are metrics, its first elements are floats, so it is not a list
    of arrays, one per epoch; and the final epoch would return this same
    value whatever the earlier epochs had left in the accumulator. *)
Theorem verify_topq_returns_last_distance (network hyper : Type)
    (train : hyper -> model network -> list Z -> network)
    (distance : hyper -> model network -> model network -> metric -> float)
    (dir_exists : bool) (sequence : list Z) (h : hyper) (save_freq : Z)
    (args : metric_args) (epochs q : Z) (v : list pyvalue)
    (tr : list (event network)) (c : float) :
  verify_topq train distance dir_exists sequence h save_freq args epochs q
    = (Ret v, tr) ->
  (1 <= epochs)%Z ->
  ckpt_per_epoch (Z.of_nat (length sequence)) epochs save_freq = Ret c ->
  (epoch_bound c (epochs - 1) < epoch_bound c epochs)%Z ->
  let order := fst (metric_lists args) in
  let threshold := snd (metric_lists args) in
  exists tr_prev tr_last w1 a b w2 arr,
    tr = tr_prev ++ Log _ (MsgEpoch epochs epochs) :: tr_last /\
    tr_last = w1 ++ Distance a b order :: w2 /\
    existsb (@is_distance network) w2 = false /\
    reported_rows tr_last = arr /\
    v = map PyFloat (parameter_distance distance h a b order) ++ [PyArray arr] /\
    length v = S (length order) /\
    (forall arrays, v <> map PyArray arrays) /\
    forall res,
      topq_epoch train distance h sequence save_freq order threshold q
        (epoch_bound c (epochs - 1)) (epoch_bound c epochs) res
      = (Ret v, tr_last).
Proof.
  intros H He Hc Hlast order threshold.
  destruct (verify_topq_guards train distance dir_exists sequence h save_freq
              args epochs q) as [[e [Hr _]]|[_ [Hlen [c' [Hc' Hr]]]]];
    rewrite Hr in H; [discriminate|]. clear Hr.
  rewrite Hc in Hc'. injection Hc' as <-.
  fold order threshold in H, Hlen.
  rewrite (range_last He), for_each_app in H.
  apply bind_Ret_inv in H. destruct H as [res_prev [tr_prev [w [_ [H ->]]]]].
  cbn [for_each] in H. apply bind_Ret_inv in H.
  destruct H as [v' [w' [w'' [H [Hret ->]]]]].
  inversion Hret; subst v' w''; clear Hret. rewrite app_nil_r.
  unfold epoch_body in H. apply bind_Ret_inv in H.
  destruct H as [[] [wl [tr_last [Hl [H ->]]]]].
  inversion Hl; subst wl; clear Hl.
  replace (epochs - 1 + 1)%Z with epochs in * by lia.
  destruct (@topq_epoch_Ret _ _ train distance h sequence save_freq order
              threshold q _ _ _ _ _ Hlen Hlast H)
    as [Hord [a [b [arr [w1 [w2 [Hw [Hw2 [Harr [Hv Hind]]]]]]]]]].
  exists tr_prev, tr_last, w1, a, b, w2, arr.
  split; [reflexivity|]. split; [exact Hw|]. split; [exact Hw2|].
  split; [exact Harr|]. split; [exact Hv|]. split; [|split].
  - rewrite Hv, length_app, length_map. unfold parameter_distance.
    rewrite length_map. cbn [length]. lia.
  - intros arrays Heq. rewrite Hv in Heq. unfold parameter_distance in Heq.
    destruct order as [|o os]; [congruence|].
    destruct arrays; cbn in Heq; discriminate.
  - exact Hind.
Qed.

(** The toy trajectory of eight steps in two epochs, two metrics, [q = 1]. *)
Lemma verify_topq_returns_last_distance_witness :
  let run := verify_topq Toy.train Toy.distance true
               [0; 1; 2; 3; 4; 5; 6; 7]%Z tt 2
               (Many Toy.two_metrics [1; 10]%Q) 2 1 in
  let v := [PyFloat 5; PyFloat 5; PyArray [[5]; [5]]]%Q in
  let c := (inject_Z 8 / inject_Z 2 / inject_Z 2)%Q in
  run = (Ret v, snd run) /\
  exists tr_prev tr_last w1 a b w2 arr,
    snd run = tr_prev ++ Log _ (MsgEpoch 2 2) :: tr_last /\
    tr_last = w1 ++ Distance a b Toy.two_metrics :: w2 /\
    existsb (@is_distance Z) w2 = false /\
    reported_rows tr_last = arr /\
    v = map PyFloat (parameter_distance Toy.distance tt a b Toy.two_metrics)
        ++ [PyArray arr] /\
    length v = S (length Toy.two_metrics) /\
    (forall arrays, v <> map PyArray arrays) /\
    forall res,
      topq_epoch Toy.train Toy.distance tt [0; 1; 2; 3; 4; 5; 6; 7]%Z 2
        Toy.two_metrics [1; 10]%Q 1
        (epoch_bound c (2 - 1)) (epoch_bound c 2) res
      = (Ret v, tr_last).
Proof.
  cbv zeta. split; [reflexivity|].
  apply (@verify_topq_returns_last_distance Z unit Toy.train Toy.distance true
           [0; 1; 2; 3; 4; 5; 6; 7]%Z tt 2 (Many Toy.two_metrics [1; 10]%Q)
           2 1).
  - reflexivity.
  - lia.
  - reflexivity.
  - reflexivity.
Defined.

(** An epoch without any checkpoint interval calls the Distance Engine
    not at all and, with two metrics, appends its array of empty rows to
    whatever [res] holds.  On a trajectory of two steps checkpointed every
    two steps and checked in four epochs, only the third epoch holds an
    interval: the value returned is the distances of that epoch's deep
    check followed by two arrays, the one of the third epoch and the empty
    one of the fourth.  On an empty index sequence no epoch holds an
    interval, and the value returned is a list of arrays, one per epoch. *)
Lemma verify_topq_returns_one_array_per_empty_epoch :
  fst (verify_topq Toy.train Toy.distance true [0; 1]%Z tt 2
         (Many Toy.two_metrics [1; 10]%Q) 4 1)
  = Ret [PyFloat 0; PyFloat 0; PyArray [[0]; [0]]; PyArray [[]; []]]%Q /\
  fst (verify_topq Toy.train Toy.distance true [] tt 2
         (Many Toy.two_metrics [1; 10]%Q) 2 1)
  = Ret [PyArray [[]; []]; PyArray [[]; []]].
Proof. split; vm_compute; reflexivity. Qed.

Lemma int_of_row_long (l : list Z) :
  length l <> 1%nat -> int_of (NpRow l) = Raise TypeError.
Proof. destruct l as [|x [|y l]]; cbn; intros; [|lia|]; reflexivity. Qed.

Lemma topq_check_step_row (network hyper : Type)
    (train : hyper -> model network -> list Z -> network)
    (distance : hyper -> model network -> model network -> metric -> float)
    (h : hyper) (sequence : list Z) (save_freq : Z) (order : list metric)
    (start : Z) (st : topq_state) (xs : list Z) :
  length xs <> 1%nat ->
  topq_check_step train distance h sequence save_freq order start st (NpRow xs)
  = (Raise TypeError, []).
Proof.
  intros Hlen. unfold topq_check_step. cbn [np_add np_mul].
  rewrite int_of_row_long by (rewrite !length_map; exact Hlen).
  reflexivity.
Qed.

(** One epoch with a single metric and [q > 1]: the ranking succeeds, and
    then either the selection or the first deep check raises.  The
    selection raises when the epoch holds some intervals, but fewer than
    [q]; the deep check raises on a row of [q] indices, and on the empty
    row of an epoch without interval. *)
Lemma topq_epoch_single (network hyper : Type)
    (train : hyper -> model network -> list Z -> network)
    (distance : hyper -> model network -> model network -> metric -> float)
    (h : hyper) (sequence : list Z) (save_freq : Z) (o : metric)
    (threshold : list float) (q start stop : Z) (res : list pyvalue) :
  (1 < q)%Z ->
  topq_epoch train distance h sequence save_freq [o] threshold q start stop res
  = (Raise (if ((q <=? stop - start) || (stop - start <=? 0))%Z%bool
            then TypeError else ValueError),
     rank_events network sequence save_freq [o] start (range2 start stop)).
Proof.
  intros Hq. unfold topq_epoch.
  rewrite topq_phase1_eq, bind_Ret. cbn [fst snd map].
  fold (rank_events network sequence save_freq [o] start (range2 start stop)).
  set (row := map _ (range2 start stop)).
  assert (Hrow : Z.of_nat (length row) = Z.max 0 (stop - start)).
  { subst row. unfold range2. rewrite !length_map, length_seq. lia. }
  unfold topq_select, argpartition_axis1. cbn [argpartition_rows].
  destruct (Z.leb_spec q (stop - start)) as [Hle|Hgt]; cbn [orb].
  - rewrite argpartition_in_bounds by lia.
    cbn [map length Nat.ltb Nat.leb]. unfold lift. rewrite bind_Ret.
    cbn [fst snd app]. unfold topq_phase2. cbn [iterate map].
    rewrite for_each_cons, topq_check_step_row.
    + cbn. rewrite app_nil_r. reflexivity.
    + rewrite !length_map. fold (top_indices row q).
      rewrite top_indices_length by lia. lia.
  - destruct (Z.leb_spec (stop - start) 0) as [Hemp|Hpos].
    + assert (Hnil : row = []) by (destruct row; [reflexivity | cbn in Hrow; lia]).
      rewrite Hnil.
      change (argpartition [] (- q)) with (@Ret (list nat) []).
      cbn [map length Nat.ltb Nat.leb]. unfold lift. rewrite bind_Ret.
      cbn [fst snd app]. unfold topq_phase2. cbn [iterate map].
      rewrite for_each_cons, topq_check_step_row.
      * cbn. rewrite app_nil_r. reflexivity.
      * rewrite !length_map. unfold slice.
        rewrite skipn_nil, firstn_nil. cbn. lia.
    + rewrite argpartition_out_of_bounds.
      * cbn. rewrite app_nil_r. reflexivity.
      * intros E. rewrite E in Hrow. cbn in Hrow. lia.
      * lia.
Qed.

(** One epoch with no metric at all: the array of the ranking distances has
    no second axis. *)
Lemma topq_epoch_no_metric (network hyper : Type)
    (train : hyper -> model network -> list Z -> network)
    (distance : hyper -> model network -> model network -> metric -> float)
    (h : hyper) (sequence : list Z) (save_freq : Z)
    (threshold : list float) (q start stop : Z) (res : list pyvalue) :
  fst (topq_epoch train distance h sequence save_freq [] threshold q
         start stop res) = Raise AxisError.
Proof. unfold topq_epoch. rewrite topq_phase1_eq, bind_Ret. reflexivity. Qed.

(** C9.  With fewer than two requested metrics ([order] not a list, or a
    list of length one or zero), [q > 1] and at least one epoch,
    [verify_topq] never completes: it raises.  With exactly one metric, if
    moreover the directory exists, one threshold is given, [save_freq] is
    not zero and the first epoch has at least [q] intervals, the exception
    is the [TypeError] of the first iteration of the deep-check loop, where
    [int] is applied to a row of [q] indices because the union step was
    skipped; no interval has been replayed. *)
Theorem verify_topq_single_metric_raises (network hyper : Type)
    (train : hyper -> model network -> list Z -> network)
    (distance : hyper -> model network -> model network -> metric -> float)
    (dir_exists : bool) (sequence : list Z) (h : hyper) (save_freq : Z)
    (args : metric_args) (epochs q : Z) :
  (length (fst (metric_lists args)) <= 1)%nat ->
  (1 < q)%Z ->
  (1 <= epochs)%Z ->
  let run := verify_topq train distance dir_exists sequence h save_freq args
               epochs q in
  (exists e, fst run = Raise e) /\
  (length (fst (metric_lists args)) = 1%nat ->
   dir_exists = true ->
   length (snd (metric_lists args)) = 1%nat ->
   forall c,
     ckpt_per_epoch (Z.of_nat (length sequence)) epochs save_freq = Ret c ->
     (q <= epoch_bound c 1 - epoch_bound c 0)%Z ->
     fst run = Raise TypeError /\ forall m s, ~ In (Train m s) (snd run)).
Proof.
  intros Hone Hq He run.
  destruct (verify_topq_guards train distance dir_exists sequence h save_freq
              args epochs q) as [[e [Hr Hwhy]]|[Hdir [Hlen [c [Hc Hr]]]]].
  { fold run in Hr. split; [exists e; now rewrite Hr|].
    intros Hord Hd Hthr c Hc. exfalso.
    destruct Hwhy as [H|[H|H]]; congruence. }
  fold run in Hr.
  destruct (range_first He) as [rest Hrange].
  rewrite Hrange, for_each_cons in Hr. unfold epoch_body at 1 in Hr.
  destruct (fst (metric_lists args)) as [|o [|o' os]] eqn:Hord;
    cbn in Hone; try lia.
  { split; [|discriminate].
    rewrite Hr. unfold bind at 1. cbn [fst snd logging_info emit].
    unfold bind at 1. cbn [fst snd].
    rewrite topq_epoch_no_metric. eexists. reflexivity. }
  rewrite (topq_epoch_single train distance h sequence save_freq o
             (snd (metric_lists args)) (epoch_bound c 0)
             (epoch_bound c (0 + 1)) [] Hq) in Hr.
  cbn in Hr. split.
  - rewrite Hr. eexists. reflexivity.
  - intros _ _ _ c' Hc' Hint. rewrite Hc in Hc'. injection Hc' as <-.
    rewrite Hr. cbn [fst snd].
    destruct (Z.leb_spec q (epoch_bound c 1 - epoch_bound c 0)); [|lia].
    split; [reflexivity|].
    intros m s [Hin|Hin]; [discriminate|].
    unfold rank_events in Hin. apply in_map_iff in Hin.
    destruct Hin as [i [Hi _]]. discriminate.
Qed.

(** A single metric on the toy trajectory, two epochs of two intervals,
    [q = 2]. *)
Lemma verify_topq_single_metric_raises_witness :
  let run := verify_topq Toy.train Toy.distance true
               [0; 1; 2; 3; 4; 5; 6; 7]%Z tt 2 (One "1"%string 1%Q) 2 2 in
  (exists e, fst run = Raise e) /\
  fst run = Raise TypeError /\
  forall m s, ~ In (Train m s) (snd run).
Proof.
  cbv zeta.
  destruct (@verify_topq_single_metric_raises Z unit Toy.train Toy.distance
              true [0; 1; 2; 3; 4; 5; 6; 7]%Z tt 2 (One "1"%string 1%Q) 2 2
              ltac:(cbn; lia) ltac:(lia) ltac:(lia)) as [H1 H2].
  split; [exact H1|].
  apply (H2 eq_refl eq_refl eq_refl _ eq_refl).
  vm_compute. discriminate.
Defined.

(** There the ranking of the first epoch is done and the first deep check
    raises. *)
Example verify_topq_single_metric_toy :
  verify_topq Toy.train Toy.distance true
    [0; 1; 2; 3; 4; 5; 6; 7]%Z tt 2 (One "1"%string 1%Q) 2 2
  = (Raise TypeError,
     [Log _ (MsgEpoch 1 2);
      Distance (Checkpoint Z 0) (Checkpoint Z 2) ["1"%string];
      Distance (Checkpoint Z 2) (Checkpoint Z 4) ["1"%string]]).
Proof. reflexivity. Qed.


End TopQEpoch.

(* ===================================================================== *)
(** * The Hash Verifier *)
(* ===================================================================== *)

Module HashFacts.
Import PyFacts Verify.

(** C2 (what the code does).  The bytes that [verify_hash] feeds to SHA-256
    are the string representations of all the raw samples of the
    underlying dataset, in dataset order: [subset.dataset.data] bypasses
    the indices of the [Subset].  Hence the digest, and the outcome of
    [verify_hash], are the same for any two index sequences, in particular
    for a sequence and a permutation of it. *)
Theorem verify_hash_ignores_index_sequence (sample : Type)
    (sample_str : sample -> String.string)
    (sha256_hexdigest : String.string -> String.string)
    (dir_exists : bool) (hash : String.string) (trainset : Dataset sample)
    (sequence sequence' : list Z) :
  hashed_bytes sample_str trainset sequence
    = fold_left (fun m d => String.append m (sample_str d)) (data trainset)
        String.EmptyString
  /\ sha256_hexdigest (hashed_bytes sample_str trainset sequence)
     = sha256_hexdigest (hashed_bytes sample_str trainset sequence')
  /\ verify_hash sample_str sha256_hexdigest dir_exists sequence hash trainset
     = verify_hash sample_str sha256_hexdigest dir_exists sequence' hash
         trainset.
Proof. repeat split. Qed.

(** On the dataset of the samples [a], [b], [c], the index sequence
    [[2; 0]] and its permutation [[0; 2]] give the same hashed bytes,
    ["abc"], where the selection in sequence order would give ["ca"] and
    ["ac"]. *)
Example verify_hash_permuted_sequence :
  hashed_bytes (fun s => s) Toy.letters [2; 0]%Z = "abc"%string /\
  hashed_bytes (fun s => s) Toy.letters [0; 2]%Z = "abc"%string /\
  contract_bytes (fun s => s) Toy.letters [2; 0]%Z = "ca"%string /\
  contract_bytes (fun s => s) Toy.letters [0; 2]%Z = "ac"%string.
Proof. repeat split. Qed.

End HashFacts.

(* ===================================================================== *)
(** * The Initialization Verifier *)
(* ===================================================================== *)

Module InitFacts.
Import PyFacts Verify.

Lemma fmin_le_l x y : (fmin x y <= x)%Q.
Proof.
  unfold fmin. destruct (Qle_bool x y) eqn:E; [apply Qle_refl|].
  destruct (Qlt_le_dec y x) as [H|H]; [now apply Qlt_le_weak|].
  apply Qle_bool_iff in H. congruence.
Qed.

Lemma fmin_le_r x y : (fmin x y <= y)%Q.
Proof.
  unfold fmin. destruct (Qle_bool x y) eqn:E; [|apply Qle_refl].
  now apply Qle_bool_iff.
Qed.

Lemma fold_fmin_In l : forall x, In (fold_left fmin l x) (x :: l).
Proof.
  induction l as [|y l IH]; intros x; [now left|].
  cbn [fold_left]. destruct (IH (fmin x y)) as [H|H].
  - rewrite <- H. unfold fmin. destruct (Qle_bool x y); [now left|].
    right. now left.
  - right. now right.
Qed.

Lemma fold_fmin_le l : forall x p,
  In p (x :: l) -> (fold_left fmin l x <= p)%Q.
Proof.
  induction l as [|y l IH]; intros x p Hp.
  - destruct Hp as [<-|[]]. apply Qle_refl.
  - cbn [fold_left]. destruct Hp as [<-|[<-|Hp]].
    + eapply Qle_trans; [apply IH; now left | apply fmin_le_l].
    + eapply Qle_trans; [apply IH; now left | apply fmin_le_r].
    + apply IH. now right.
Qed.

(** [np.min(p_list) < threshold] says that some p-value is below the
    threshold. *)
Lemma np_min_below (p_list : list float) (threshold : float) :
  p_list <> [] ->
  exists p_min,
    np_min p_list = Ret p_min /\ In p_min p_list /\
    (flt p_min threshold = true
     <-> exists p, In p p_list /\ (p < threshold)%Q).
Proof.
  destruct p_list as [|x l]; [congruence|]. intros _.
  exists (fold_left fmin l x). split; [reflexivity|].
  split; [apply fold_fmin_In|]. rewrite flt_spec. split.
  - intros H. exists (fold_left fmin l x). split; [apply fold_fmin_In | exact H].
  - intros [p [Hp Hlt]]. eapply Qle_lt_trans; [|exact Hlt].
    now apply fold_fmin_le.
Qed.

(** C8 (as the code has it).  When the p-values can be computed,
    [verify_initialization] returns their list; with [verbose] false it
    logs nothing; with [verbose] true (the default) and at least one
    p-value, it logs one line, which flags the initialization as not
    following the strategy exactly when at least one p-value of the list
    is strictly below the threshold (0.01 by default), and which reports
    success otherwise. *)
Theorem verify_initialization_verdict (tensor : Type) (ndim : tensor -> nat)
    (check : init_arg tensor -> String.string -> float)
    (model_name : String.string) (n : net tensor)
    (threshold : option float) (verbose : option bool)
    (p_list : list float) (w : list message) :
  compute_p_list ndim check model_name n = (Ret p_list, w) ->
  let thr := match threshold with Some t => t | None => default_threshold end in
  let run := verify_initialization ndim check model_name n threshold verbose in
  (verbose = Some false -> run = (Ret p_list, w)) /\
  (verbose <> Some false -> p_list <> [] ->
   exists p_min,
     In p_min p_list /\
     ((exists p, In p p_list /\ (p < thr)%Q) ->
      run = (Ret p_list, w ++ [MsgInitInvalid p_min thr])) /\
     (~ (exists p, In p p_list /\ (p < thr)%Q) ->
      run = (Ret p_list, w ++ [MsgInitPassed]))).
Proof.
  intros Hp thr run. subst run thr. unfold verify_initialization.
  rewrite Hp, bind_Ret. set (thr := match threshold with
                                    | Some t => t
                                    | None => default_threshold
                                    end). split.
  - intros ->. cbn. rewrite app_nil_r. reflexivity.
  - intros Hv Hne.
    assert (Hverb : match verbose with Some v => v | None => true end = true).
    { destruct verbose as [[|]|]; congruence. }
    rewrite Hverb.
    destruct (np_min_below thr Hne) as [p_min [Hmin [Hin Hiff]]].
    exists p_min. split; [exact Hin|].
    unfold init_verdict. rewrite Hmin. unfold lift. rewrite bind_Ret.
    cbn [fst snd app]. split.
    + intros Hex. apply Hiff in Hex. rewrite Hex. reflexivity.
    + intros Hnex. destruct (flt p_min thr) eqn:E.
      * exfalso. apply Hnex, Hiff. reflexivity.
      * reflexivity.
Qed.

(** The toy network under the default arguments. *)
Lemma verify_initialization_verdict_witness :
  let p_list := [0; 0; 1 # 2]%Q in
  let run := verify_initialization (fun _ : unit => 4%nat) Toy.init_test
               "resnet20"%string Toy.init_net None None in
  compute_p_list (fun _ : unit => 4%nat) Toy.init_test "resnet20"%string
    Toy.init_net = (Ret p_list, []) /\
  (None = Some false -> run = (Ret p_list, [])) /\
  (None <> Some false -> p_list <> [] ->
   exists p_min,
     In p_min p_list /\
     ((exists p, In p p_list /\ (p < default_threshold)%Q) ->
      run = (Ret p_list, [] ++ [MsgInitInvalid p_min default_threshold])) /\
     (~ (exists p, In p p_list /\ (p < default_threshold)%Q) ->
      run = (Ret p_list, [] ++ [MsgInitPassed]))).
Proof.
  cbv zeta. split; [reflexivity|].
  apply (@verify_initialization_verdict unit (fun _ => 4%nat) Toy.init_test
           "resnet20"%string Toy.init_net None None [0; 0; 1 # 2]%Q []).
  reflexivity.
Defined.

(** Under the default arguments the toy network, whose convolution weights
    have a p-value of zero, is flagged. *)
Example verify_initialization_toy :
  verify_initialization (fun _ : unit => 4%nat) Toy.init_test
    "resnet20"%string Toy.init_net None None
  = (Ret [0; 0; 1 # 2]%Q, [MsgInitInvalid 0 (1 # 100)]).
Proof. reflexivity. Qed.

(** With [verbose=False] the same network, one of whose p-values is zero,
    is not flagged: the list is returned and nothing is logged. *)
Lemma verify_initialization_silent :
  verify_initialization (fun _ : unit => 4%nat) Toy.init_test
    "resnet20"%string Toy.init_net None (Some false)
  = (Ret [0; 0; 1 # 2]%Q, [])
  /\ (exists p, In p [0; 0; 1 # 2]%Q /\ (p < default_threshold)%Q).
Proof.
  split; [reflexivity|]. exists 0%Q. split; [now left | reflexivity].
Qed.

End InitFacts.

(* ===================================================================== *)
(** * The Spoof Attacker: the retry loop *)
(* ===================================================================== *)

Module RetryFacts.
Import PyFacts Spoof.

Section Retry.

Variable tensor : Type.
Variable batch : Type.
Variable draw : nat -> batch.
Variable dummy : Type.
Variable zeros : args -> dummy.
Variable lbfgs_step : state_dict tensor -> batch -> dummy -> dummy.
Variable closure : state_dict tensor -> batch -> dummy -> float.
Variable sq_sum : dummy -> float.
Variable a : args.

Abbreviation vars := (Spoof.vars tensor batch dummy).
Abbreviation retry_loop :=
  (Spoof.retry_loop draw zeros lbfgs_step closure sq_sum a).
Abbreviation rounds := (Spoof.rounds zeros lbfgs_step closure sq_sum a).

(** The base batch of the [j]-th attempt of a retry loop entered in state
    [v]: the current one, then the successive redraws. *)
Definition base_at (v : vars) (j : nat) : batch :=
  match j with
  | O => base v
  | S j' => draw (draws v + j')
  end.

(** The perturbation and the two terms [(d2grad, d2r)] that the [j]-th
    attempt ends with. *)
Definition attempt (v : vars) (j : nat) : dummy * option (float * float) :=
  rounds (net v) (base_at v j) None.

(** Both terms are under their ceilings. *)
Definition under_ceilings (r : option (float * float)) : Prop :=
  match r with
  | Some (d2grad, d2r) =>
      (d2grad < inject_Z (arg_gd a))%Q /\ (d2r < inject_Z (arg_nd a))%Q
  | None => False
  end.

Lemma accept_spec d2grad d2r :
  accept a d2grad d2r = true <-> under_ceilings (Some (d2grad, d2r)).
Proof.
  unfold accept, under_ceilings. rewrite andb_true_iff, !flt_spec. tauto.
Qed.

Lemma fold_round_step_bound (n : state_dict tensor) (b : batch) (l : list Z) :
  forall s g r,
    snd s = Some (g, r) ->
    exists d g1 r1,
      fold_left (round_step lbfgs_step closure sq_sum n b) l s
      = (d, Some (g1, r1)).
Proof.
  induction l as [|x l IH]; intros [d r0] g r Hsnd.
  - cbn in *. subst r0. eauto.
  - cbn [fold_left]. eapply IH. reflexivity.
Qed.

(** With at least one optimisation round, an attempt binds both terms, and
    does not read their previous values. *)
Lemma rounds_bound (n : state_dict tensor) (b : batch) r :
  (1 <= arg_round a)%Z ->
  rounds n b r = rounds n b None /\
  exists d g s, rounds n b r = (d, Some (g, s)).
Proof.
  intros Hr. unfold Spoof.rounds, range, range2.
  replace (Z.to_nat (arg_round a - 0)) with (S (Z.to_nat (arg_round a - 1)))
    by lia.
  cbn [seq map fold_left]. split; [reflexivity|].
  eapply fold_round_step_bound. reflexivity.
Qed.

Lemma base_at_redraw (v : vars) d r j :
  base_at (redraw draw (set_attempt v d r)) j = base_at v (S j).
Proof.
  destruct j as [|j]; cbn; [f_equal; lia|]. f_equal. lia.
Qed.

Lemma attempt_redraw (v : vars) d r j :
  attempt (redraw draw (set_attempt v d r)) j = attempt v (S j).
Proof. unfold attempt. rewrite base_at_redraw. reflexivity. Qed.

(** The retry loop over a non-empty range of attempts. *)
Lemma retry_loop_spec (ks : list Z) : forall (v : vars),
  (1 <= arg_round a)%Z ->
  ks <> [] ->
  exists n v',
    retry_loop ks v = (Ret v', repeat PrintRetry n) /\
    (n <= length ks)%nat /\
    (forall j, (j < n)%nat -> ~ under_ceilings (snd (attempt v j))) /\
    ((n < length ks)%nat ->
     under_ceilings (snd (attempt v n)) /\
     dummy_data v' = Some (fst (attempt v n)) /\
     base v' = base_at v n) /\
    ((n = length ks)%nat ->
     dummy_data v' = Some (fst (attempt v (n - 1))) /\
     base v' = draw (draws v + (n - 1))) /\
    d2 v' = snd (attempt v (if (n <? length ks)%nat then n else n - 1)) /\
    draws v' = (draws v + n)%nat /\
    net v' = net v /\ img_idx v' = img_idx v /\
    valid_count v' = valid_count v /\ diff v' = diff v.
Proof.
  induction ks as [|k ks IH]; intros v Hr Hne; [congruence|].
  cbn [Spoof.retry_loop].
  destruct (rounds_bound (net v) (base v) (d2 v) Hr) as [Heq [d [g [s Hrd]]]].
  assert (Hatt : attempt v 0 = (d, Some (g, s))).
  { unfold attempt. cbn [base_at]. rewrite <- Heq. exact Hrd. }
  rewrite Hrd. cbn [fst snd].
  destruct (accept a g s) eqn:Hacc.
  - exists 0%nat, (set_attempt v d (Some (g, s))).
    split; [reflexivity|]. split; [cbn; lia|].
    split; [intros j Hj; lia|].
    split.
    + intros _. rewrite Hatt. cbn [fst snd]. split; [|split; reflexivity].
      now apply accept_spec.
    + split; [cbn [length]; intros; lia|].
      cbn [length Nat.ltb Nat.leb]. rewrite Hatt. cbn.
      rewrite Nat.add_0_r. repeat split; reflexivity.
  - assert (Hrej : ~ under_ceilings (snd (attempt v 0))).
    { rewrite Hatt. cbn [snd]. rewrite <- accept_spec. congruence. }
    set (v2 := redraw draw (set_attempt v d (Some (g, s)))).
    destruct ks as [|k' ks'].
    + exists 1%nat, v2. cbn [Spoof.retry_loop].
      split; [reflexivity|]. split; [cbn; lia|].
      split; [intros j Hj; replace j with 0%nat by lia; exact Hrej|].
      split; [cbn [length]; intros; lia|].
      split.
      * intros _. cbn [Nat.sub]. rewrite Hatt. cbn. rewrite Nat.add_0_r.
        split; reflexivity.
      * cbn [length Nat.ltb Nat.leb Nat.sub]. rewrite Hatt. cbn.
        repeat split; try reflexivity. lia.
    + destruct (IH v2 Hr ltac:(discriminate))
        as [n [v' [Hrun [Hn [Hrejs [Hearly [Hlast [Hd2 [Hdr [Hnet Hrest]]]]]]]]]].
      exists (S n), v'.
      split.
      { unfold bind, emit. cbn [fst snd]. rewrite Hrun. reflexivity. }
      split; [cbn [length] in *; lia|].
      split.
      { intros [|j] Hj; [exact Hrej|].
        rewrite <- (attempt_redraw v d (Some (g, s))). apply Hrejs. lia. }
      split.
      { intros Hlt. rewrite <- (attempt_redraw v d (Some (g, s))),
          <- (base_at_redraw v d (Some (g, s))).
        apply Hearly. cbn [length] in *. lia. }
      split.
      { intros Heq'. cbn [length] in *.
        destruct (Hlast ltac:(lia)) as [Hdd Hb].
        replace (S n - 1)%nat with (S (n - 1)) by lia.
        rewrite <- (attempt_redraw v d (Some (g, s))). split; [exact Hdd|].
        rewrite Hb. cbn. f_equal. lia. }
      split.
      { rewrite Hd2. subst v2. rewrite attempt_redraw. cbn [length].
        change (S n <? S (S (length ks')))%nat
          with (n <? S (length ks'))%nat.
        destruct (n <? S (length ks'))%nat eqn:E; [reflexivity|].
        apply Nat.ltb_ge in E. cbn [length] in Hn.
        replace (S (n - 1)) with (S n - 1)%nat by lia. reflexivity. }
      split; [rewrite Hdr; cbn; lia|].
      split; [rewrite Hnet; reflexivity|].
      exact Hrest.
Qed.

End Retry.

End RetryFacts.

(* ===================================================================== *)
(** * The Spoof Attacker: dictionaries of tensors *)
(* ===================================================================== *)

Module DictFacts.
Import PyFacts.

Section Dict.

Variable V : Type.
Variable E : Type.

Abbreviation dict := (list (String.string * V)).

(** The entries of [a] and [b] combined position by position; for two
    dictionaries with the same list of keys this is the key-wise
    combination. *)
Definition dict_map2 (h : V -> V -> V) (a b : dict) : dict :=
  map (fun ab => (fst (fst ab), h (snd (fst ab)) (snd (snd ab))))
      (combine a b).

Lemma keys_dict_map2 h (a b : dict) :
  keys a = keys b -> keys (dict_map2 h a b) = keys a.
Proof.
  unfold keys, dict_map2. revert b.
  induction a as [|[k x] a IH]; intros [|[k' y] b] H; cbn in *;
    try discriminate; [reflexivity|].
  injection H as _ H. f_equal. now apply IH.
Qed.

Lemma dict_get_app key (pre d : dict) :
  ~ In key (keys pre) -> dict_get key (pre ++ d) = dict_get key d.
Proof.
  induction pre as [|[k x] pre IH]; intros Hnin; [reflexivity|].
  cbn. destruct (String.eqb_spec key k) as [->|Hne].
  - exfalso. apply Hnin. now left.
  - apply IH. intros Hin. apply Hnin. now right.
Qed.

Lemma dict_set_app key v (pre d : dict) :
  ~ In key (keys pre) -> dict_set key v (pre ++ d) = pre ++ dict_set key v d.
Proof.
  induction pre as [|[k x] pre IH]; intros Hnin; [reflexivity|].
  cbn. destruct (String.eqb_spec key k) as [->|Hne].
  - exfalso. apply Hnin. now left.
  - f_equal. apply IH. intros Hin. apply Hnin. now right.
Qed.

(** [nw[key] = h(a[key], b[key])] *)
Definition update_key (h : V -> V -> V) (a b : dict) (nw : dict)
    (key : String.string) : run E dict :=
  x <- lift (dict_get key a) ;;
  y <- lift (dict_get key b) ;;
  ret (dict_set key (h x y) nw).

Lemma update_key_eq h (a b nw : dict) key x y :
  dict_get key a = Ret x -> dict_get key b = Ret y ->
  update_key h a b nw key = (Ret (dict_set key (h x y) nw), []).
Proof. intros Ha Hb. unfold update_key. rewrite Ha, Hb. reflexivity. Qed.

(** The loop [for key in a.keys(): nw[key] = h(a[key], b[key])] over three
    dictionaries with the same keys, the first entries being done. *)
Lemma update_loop h (postA : dict) : forall (postB postD preA preB done : dict),
  keys postB = keys postA -> keys postD = keys postA ->
  keys preB = keys preA -> keys done = keys preA ->
  NoDup (keys preA ++ keys postA) ->
  for_each (update_key h (preA ++ postA) (preB ++ postB)) (keys postA)
    (done ++ postD)
  = (Ret (done ++ dict_map2 h postA postB), []).
Proof.
  induction postA as [|[key x] pa IH];
    intros [|[key' y] pb] [|[key'' z] pd] preA preB done HB HD HpB Hdone Hnd;
    cbn in HB, HD; try discriminate; [reflexivity|].
  injection HB as -> HB. injection HD as -> HD.
  assert (Hnin : ~ In key (keys preA)).
  { intros Hin. apply NoDup_remove_2 in Hnd. apply Hnd.
    apply in_or_app. now left. }
  cbn [keys map fst]. rewrite for_each_cons.
  rewrite (@update_key_eq h _ _ _ key x y).
  - rewrite bind_Ret. cbn [app].
    rewrite dict_set_app by (rewrite Hdone; exact Hnin).
    cbn [dict_set]. rewrite String.eqb_refl.
    specialize (IH pb pd (preA ++ [(key, x)]) (preB ++ [(key, y)])
                  (done ++ [(key, h x y)]) HB HD).
    rewrite <- !app_assoc in IH. cbn [app] in IH.
    unfold keys in *. rewrite IH.
    + reflexivity.
    + rewrite !map_app, HpB. reflexivity.
    + rewrite !map_app, Hdone. reflexivity.
    + rewrite map_app, <- app_assoc. exact Hnd.
  - rewrite dict_get_app by exact Hnin. cbn. now rewrite String.eqb_refl.
  - rewrite dict_get_app by (rewrite HpB; exact Hnin).
    cbn. now rewrite String.eqb_refl.
Qed.

Lemma update_all h (a b d : dict) :
  keys b = keys a -> keys d = keys a -> NoDup (keys a) ->
  for_each (update_key h a b) (keys a) d = (Ret (dict_map2 h a b), []).
Proof.
  intros Hb Hd Hnd.
  exact (@update_loop h a b d [] [] [] Hb Hd eq_refl eq_refl Hnd).
Qed.

End Dict.

End DictFacts.

(* ===================================================================== *)
(** * The Spoof Attacker: one step and the whole attack *)
(* ===================================================================== *)

Module SpoofFacts.
Import PyFacts Spoof DictFacts.

Section Step.

Variable tensor : Type.
Variable tadd tsub : tensor -> tensor -> tensor.
Variable tdiv : tensor -> Z -> tensor.
Variable tneg : tensor -> tensor.
Variable is_parameter : String.string -> bool.
Variable batch : Type.
Variable draw : nat -> batch.
Variable dummy : Type.
Variable zeros : args -> dummy.
Variable lbfgs_step : state_dict tensor -> batch -> dummy -> dummy.
Variable closure : state_dict tensor -> batch -> dummy -> float.
Variable sq_sum : dummy -> float.
Variable sgd : Type.
Variable sgd_new : state_dict tensor -> sgd.
Variable sgd_step :
  state_dict tensor * sgd -> batch -> dummy -> Z -> state_dict tensor * sgd.
Variable distance : list tensor -> list tensor -> metric -> float.
Variable a : args.

Abbreviation vars := (Spoof.vars tensor batch dummy).
Abbreviation retry_loop :=
  (Spoof.retry_loop draw zeros lbfgs_step closure sq_sum a).
Abbreviation cut_step :=
  (Spoof.cut_step draw zeros lbfgs_step closure sq_sum sgd_step a).
Abbreviation spoof_step :=
  (Spoof.spoof_step tadd tneg is_parameter draw zeros lbfgs_step closure
     sq_sum sgd_new sgd_step distance a).

(** The checkpoints written by [torch.save], in order. *)
Definition saved (tr : list (event (state_dict tensor)))
  : list (Z * state_dict tensor) :=
  flat_map (fun e => match e with
                     | TorchSave step n => [(step, n)]
                     | _ => []
                     end) tr.

Lemma saved_app tr1 tr2 : saved (tr1 ++ tr2) = saved tr1 ++ saved tr2.
Proof. apply flat_map_app. Qed.

(** What the sub-batches of a step leave untouched: the tally and the
    distances gathered so far. *)
Definition frame (v v' : vars) : Prop :=
  valid_count v' = valid_count v /\ diff v' = diff v.

Lemma frame_refl v : frame v v.
Proof. split; reflexivity. Qed.

Lemma frame_trans v1 v2 v3 : frame v1 v2 -> frame v2 v3 -> frame v1 v3.
Proof. unfold frame. intros [H1 H2] [H3 H4]. split; congruence. Qed.

Lemma retry_loop_frame (ks : list Z) : forall (v v' : vars) tr,
  retry_loop ks v = (Ret v', tr) -> net v' = net v /\ frame v v' /\ saved tr = [].
Proof.
  induction ks as [|k ks IH]; intros v v' tr H.
  - inversion H; subst. repeat split.
  - cbn [Spoof.retry_loop] in H.
    destruct (snd (rounds zeros lbfgs_step closure sq_sum a (net v) (base v)
                     (d2 v))) as [[g s]|]; [|discriminate].
    destruct (accept a g s).
    + inversion H; subst. repeat split.
    + apply bind_Ret_inv in H. destruct H as [[] [w1 [w2 [He [H ->]]]]].
      inversion He; subst w1. apply IH in H.
      destruct H as [Hn [[Hc Hd] Hs]]. cbn in *.
      repeat split; assumption.
Qed.

(** Lines 221-224: the loop that persists the synthetic images. *)
Definition save_img (v : vars) (i : Z)
  : run (event (state_dict tensor)) vars :=
  emit (SaveImg (img_idx v)) ;;; ret (set_img_idx v (img_idx v + 1)%Z).

Lemma save_img_loop (l : list Z) : forall (v : vars),
  exists v' tr,
    for_each save_img l v = (Ret v', tr)
    /\ net v' = net v /\ base v' = base v /\ frame v v' /\ saved tr = [].
Proof.
  induction l as [|x l IH]; intros v.
  - exists v, []. repeat split.
  - destruct (IH (set_img_idx v (img_idx v + 1)%Z))
      as [v' [tr [H [Hn [Hb [[Hc Hd] Hs]]]]]].
    exists v', (SaveImg (img_idx v) :: tr).
    rewrite for_each_cons.
    change (save_img v x)
      with (Ret (set_img_idx v (img_idx v + 1)%Z),
            [@SaveImg (state_dict tensor) (img_idx v)]).
    rewrite bind_Ret, H. repeat split; assumption.
Qed.

(** A sub-batch that completes: the network it leaves is the one it found,
    trained by SGD steps on the synthetic batch. *)
Lemma cut_step_shape (st st' : vars * sgd) (j : Z) tr :
  cut_step st j = (Ret st', tr) ->
  frame (fst st) (fst st') /\ saved tr = [] /\
  exists b d l,
    net (fst st')
    = fst (fold_left (fun s i => sgd_step s b d i) l (net (fst st), snd st)).
Proof.
  unfold Spoof.cut_step. intros H.
  apply bind_Ret_inv in H. destruct H as [v1 [w1 [w2 [H1 [H ->]]]]].
  apply retry_loop_frame in H1. destruct H1 as [Hn1 [Hf1 Hs1]].
  destruct (dummy_data v1) as [d|]; [|discriminate].
  apply bind_Ret_inv in H. destruct H as [per [w3 [w4 [Hper [H ->]]]]].
  destruct (int_div (arg_k a) (arg_cut a)); inversion Hper; subst; clear Hper.
  destruct (save_img_loop (range per) v1) as [v2 [tr2 [H2 [Hn2 [Hb2 [Hf2 Hs2]]]]]].
  fold save_img in H. rewrite H2, bind_Ret in H. inversion H; subst; clear H.
  cbn [fst snd]. split; [|split].
  - eapply frame_trans; [exact Hf1|]. eapply frame_trans; [exact Hf2|].
    split; reflexivity.
  - rewrite !saved_app, Hs1, Hs2. reflexivity.
  - exists (base v2), d, (range per). cbn [net set_net].
    rewrite Hn2, Hn1. reflexivity.
Qed.

Lemma cut_loop_frame (js : list Z) : forall (st st' : vars * sgd) tr,
  for_each cut_step js st = (Ret st', tr) ->
  frame (fst st) (fst st') /\ saved tr = [].
Proof.
  induction js as [|j js IH]; intros st st' tr H.
  - inversion H; subst. split; [apply frame_refl | reflexivity].
  - rewrite for_each_cons in H. apply bind_Ret_inv in H.
    destruct H as [st1 [w1 [w2 [H1 [H2 ->]]]]].
    apply cut_step_shape in H1. apply IH in H2.
    destruct H1 as [Hf1 [Hs1 _]], H2 as [Hf2 Hs2]. split.
    + eapply frame_trans; eassumption.
    + rewrite saved_app, Hs1, Hs2. reflexivity.
Qed.

(** Lines 271-286: the threshold checks.  [flag] stays 0 exactly when no
    distance is above its threshold. *)
Definition none_above (l : list (metric * (float * list float))) : bool :=
  forallb (fun okr => Nat.eqb (Verify.count_above (snd (snd okr))
                                 (fst (snd okr))) 0) l.

Lemma check_metric_loop (l : list (metric * (float * list float))) :
  forall flag,
  exists tr,
    for_each (@check_metric tensor) l flag
    = (Ret (if none_above l then flag else 1%Z), tr) /\ saved tr = [].
Proof.
  induction l as [|[o [thr row]] l IH]; intros flag.
  - exists []. split; reflexivity.
  - rewrite for_each_cons. unfold check_metric at 1.
    cbn [none_above forallb fst snd].
    destruct (Nat.eqb (Verify.count_above row thr) 0).
    + destruct (IH flag) as [tr [H Hs]].
      eexists. unfold bind at 1 2 3, emit, ret. cbn [fst snd app].
      rewrite H. cbn [fst snd andb]. split; [reflexivity | exact Hs].
    + destruct (IH 1%Z) as [tr [H Hs]].
      eexists. unfold bind at 1 2 3, emit, ret. cbn [fst snd app].
      rewrite H. cbn [fst snd andb].
      split; [destruct (none_above l); reflexivity | exact Hs].
Qed.

(** The steps's target, as the code computes it from [k_step_dy_dx]. *)
Definition target_of (k_step_dy_dx cur_param : list tensor) : list tensor :=
  map (fun sc => tadd (tneg (fst sc)) (snd sc)) (combine k_step_dy_dx cur_param).

(** The four checks of line 272-286 on the distances between [target] and
    [reached]. *)
Definition passes (target reached : list tensor) : bool :=
  none_above
    (combine order
       (combine threshold
          (map (fun r => [r]) (parameter_distance distance target reached order)))).

(** A step that completes with verification enabled: the tally compares
    the target with the parameters reached by the SGD steps on the
    synthetic batches, and the network is then overwritten. *)
Lemma spoof_step_shape (step_weight : state_dict tensor)
    (k_step_dy_dx : list tensor) (v v' : vars) (i : Z) tr :
  (arg_verify a <> 0)%Z ->
  spoof_step step_weight k_step_dy_dx v i = (Ret v', tr) ->
  exists v1 opt tr1 tr2 new_weight,
    for_each cut_step (range (arg_cut a)) (v, sgd_new (net v))
      = (Ret (v1, opt), tr1) /\
    valid_count v' =
      (if passes (target_of k_step_dy_dx (parameters is_parameter (net v)))
                 (parameters is_parameter (net v1))
       then valid_count v + 1 else valid_count v)%Z /\
    for_each (overwrite_key tadd (net v) step_weight) (keys (net v)) (net v1)
      = (Ret new_weight, tr2) /\
    net v' = new_weight /\
    saved tr = saved tr2 ++ [((arg_k a * (i + 1))%Z, new_weight)].
Proof.
  intros Hver H. unfold Spoof.spoof_step in H.
  apply bind_Ret_inv in H. destruct H as [[v1 opt] [tr1 [w [Hcut [H ->]]]]].
  destruct (cut_loop_frame _ _ Hcut) as [[Hc Hd] Hs1]. cbn [fst] in *.
  destruct (Z.eqb_spec (arg_verify a) 0); [contradiction|].
  apply bind_Ret_inv in H. destruct H as [flag [trc' [w0 [Hchk' [H ->]]]]].
  match type of Hchk' with
  | for_each _ ?l _ = _ =>
      destruct (check_metric_loop l 0%Z) as [trc [Hchk Hsc]];
      set (na := none_above l) in Hchk
  end.
  rewrite Hchk in Hchk'. inversion Hchk'; subst flag trc'; clear Hchk'.
  apply bind_Ret_inv in H. destruct H as [[] [wp [w' [Hp [H ->]]]]].
  inversion Hp; subst wp; clear Hp.
  apply bind_Ret_inv in H. destruct H as [new_weight [tr2 [w'' [Hov [H ->]]]]].
  apply bind_Ret_inv in H. destruct H as [[] [ws [w3 [Hsv [H ->]]]]].
  inversion Hsv; subst ws; clear Hsv. inversion H; subst v' w3; clear H.
  exists v1, opt, tr1, tr2, new_weight.
  split; [exact Hcut|]. split; [|split; [exact Hov|split; [reflexivity|]]].
  - unfold passes, target_of. change (none_above _) with na.
    destruct na; cbn [valid_count set_tally Z.eqb]; rewrite Hc; reflexivity.
  - rewrite !saved_app, Hs1, Hsc. reflexivity.
Qed.

Lemma passes_spec (target reached : list tensor) :
  passes target reached = true
  <-> forall o thr, In (o, thr) (combine order threshold) ->
                    ~ (thr < distance target reached o)%Q.
Proof.
  unfold passes, none_above, parameter_distance, order, threshold.
  cbn [map combine forallb fst snd].
  rewrite !andb_true_iff, !Nat.eqb_eq, !VerifyAllFacts.count_above_zero.
  split.
  - intros [H1 [H2 [H3 [H4 _]]]] o thr Hin. cbn in Hin.
    destruct Hin as [Hin|[Hin|[Hin|[Hin|[]]]]]; inversion Hin; subst;
      [apply H1 | apply H2 | apply H3 | apply H4]; now left.
  - intros H. repeat split; try (intros d [<-|[]]; apply H; cbn; tauto).
Qed.

(** The state in which the step loop is entered (lines 140-158). *)
Definition initial_vars (net0 : state_dict tensor) : vars :=
  {| net := net0; base := draw 0; draws := 1; dummy_data := None;
     d2 := None; img_idx := 0%Z; valid_count := 0%Z;
     diff := [[]; []; []; []] |}.

(** Line 151: the per-step delta on the parameters. *)
Definition k_step (net0 at_weight : state_dict tensor) : list tensor :=
  map (fun ac => tdiv (tsub (snd ac) (fst ac)) (arg_t a))
      (combine (parameters is_parameter at_weight)
               (parameters is_parameter net0)).

(** C5 (as the code has it).  When the Spoof Attacker runs to the end of its
    step loop with [t = 1] and verification enabled, [valid_count] is 1
    exactly when, for each of the four metrics, the distance between the
    step's target and the parameters that the SGD steps on the synthetic
    batches have reached (the state before the overwrite) is not above the
    metric's fixed threshold; otherwise it is 0. *)
Theorem valid_count_of_single_step (net0 at_weight : state_dict tensor)
    (v : vars) (tr : list (event (state_dict tensor))) :
  arg_t a = 1%Z ->
  (arg_verify a <> 0)%Z ->
  Spoof.spoof_loop tadd tsub tdiv tneg is_parameter draw zeros lbfgs_step
    closure sq_sum sgd_new sgd_step distance a net0 at_weight = (Ret v, tr) ->
  exists v1 opt tr1,
    for_each cut_step (range (arg_cut a)) (initial_vars net0, sgd_new net0)
      = (Ret (v1, opt), tr1) /\
    let target := target_of (k_step net0 at_weight)
                    (parameters is_parameter net0) in
    let reached := parameters is_parameter (net v1) in
    (valid_count v = 1%Z
     <-> forall o thr, In (o, thr) (combine order threshold) ->
                       ~ (thr < distance target reached o)%Q) /\
    (valid_count v = 0%Z \/ valid_count v = 1%Z).
Proof.
  intros Ht Hver H. unfold Spoof.spoof_loop in H.
  apply bind_Ret_inv in H. destruct H as [sw [w1 [w2 [_ [H ->]]]]].
  rewrite Ht in H. change (range 1) with [0%Z] in H.
  rewrite for_each_cons in H. apply bind_Ret_inv in H.
  destruct H as [v' [w3 [w4 [H [Hret ->]]]]].
  inversion Hret; subst v' w4; clear Hret.
  fold (initial_vars net0) in H.
  destruct (spoof_step_shape _ _ _ _ Hver H)
    as [v1 [opt [tr1 [tr2 [nw [Hcut [Hcount _]]]]]]].
  exists v1, opt, tr1. split; [exact Hcut|].
  cbv zeta. rewrite <- passes_spec.
  change (valid_count (initial_vars net0)) with 0%Z in Hcount.
  unfold k_step. rewrite Ht.
  cbn [net initial_vars] in Hcount. rewrite Hcount.
  destruct (passes _ _); cbn; split; try split; intros; auto; discriminate.
Qed.

(** C7.  The retry loop of a sub-batch, with at least one optimisation round
    and a budget of at least one attempt, never raises.  It stops after
    [n] rejected attempts, each followed by the line "retry!!" and by the
    draw of a new base batch.  An attempt within the budget ends the loop
    if and only if its residual gradient-matching term is below [gd] and
    its penalty term below [nd].  If [n] is less than the budget, the loop
    was left early with the perturbation and the base batch of the accepted
    attempt; if the budget is exhausted, it ends with the perturbation of
    the last attempt and the base batch drawn after it; in both cases the
    sub-batch goes on with them and completes. *)
Theorem retry_loop_accepts_or_exhausts (v : vars) :
  (1 <= arg_round a)%Z ->
  (1 <= arg_retry a)%Z ->
  let budget := Z.to_nat (arg_retry a) in
  let attempt := RetryFacts.attempt draw zeros lbfgs_step closure sq_sum a v in
  exists n v',
    retry_loop (range (arg_retry a)) v = (Ret v', repeat PrintRetry n) /\
    (n <= budget)%nat /\
    (forall j, (j < budget)%nat -> (j <= n)%nat ->
       (j = n <-> RetryFacts.under_ceilings a (snd (attempt j)))) /\
    draws v' = (draws v + n)%nat /\
    base v' = RetryFacts.base_at draw v n /\
    dummy_data v' =
      Some (fst (attempt (if (n <? budget)%nat then n else (n - 1)%nat))) /\
    net v' = net v /\
    forall opt j, (arg_cut a <> 0)%Z ->
      exists st' tr, cut_step (v, opt) j = (Ret st', tr).
Proof.
  intros Hr Hb budget attempt.
  assert (Hlen : length (range (arg_retry a)) = budget).
  { unfold range, range2. rewrite length_map, length_seq. subst budget. lia. }
  destruct (@RetryFacts.retry_loop_spec tensor batch draw dummy zeros
              lbfgs_step closure sq_sum a (range (arg_retry a)) v Hr)
    as [n [v' [Hrun [Hn [Hrej [Hearly [Hlast [_ [Hdr [Hnet _]]]]]]]]]].
  { intros Hnil. rewrite Hnil in Hlen. cbn in Hlen. subst budget. lia. }
  rewrite Hlen in Hn, Hearly, Hlast. fold attempt in Hrej, Hearly, Hlast.
  assert (Hdd : dummy_data v' =
                Some (fst (attempt (if (n <? budget)%nat then n
                                    else (n - 1)%nat)))).
  { destruct (Nat.ltb_spec n budget) as [Hlt|Hge].
    - apply Hearly. exact Hlt.
    - apply Hlast. lia. }
  exists n, v'. split; [exact Hrun|]. split; [exact Hn|].
  split; [|split; [exact Hdr|split; [|split; [exact Hdd|split; [exact Hnet|]]]]].
  - intros j Hj Hjn. split.
    + intros ->. apply Hearly. exact Hj.
    + intros Hacc. destruct (Nat.eq_dec j n) as [E|E]; [exact E|].
      exfalso. apply (Hrej j); [lia | exact Hacc].
  - destruct (Nat.ltb_spec n budget) as [Hlt|Hge].
    + apply Hearly. exact Hlt.
    + destruct (Hlast ltac:(lia)) as [_ Hbase]. rewrite Hbase.
      destruct n as [|n']; [subst budget; lia|].
      cbn [RetryFacts.base_at]. f_equal. lia.
  - intros opt j Hcut. unfold Spoof.cut_step. cbn [fst snd].
    rewrite Hrun, bind_Ret, Hdd. unfold int_div.
    destruct (Z.eqb_spec (arg_cut a) 0); [contradiction|].
    unfold lift. rewrite bind_Ret. cbn [fst snd app]. fold save_img.
    destruct (save_img_loop (range (Z.quot (arg_k a) (arg_cut a))) v')
      as [v2 [tr2 [H2 _]]].
    rewrite H2, bind_Ret. eexists. eexists. reflexivity.
Qed.

Hypothesis sgd_keys : forall s b d i, keys (fst (sgd_step s b d i)) = keys (fst s).

Lemma sgd_fold_keys (b : batch) (d : dummy) (l : list Z) : forall s,
  keys (fst (fold_left (fun s i => sgd_step s b d i) l s)) = keys (fst s).
Proof.
  induction l as [|i l IH]; intros s; [reflexivity|].
  cbn [fold_left]. rewrite IH. apply sgd_keys.
Qed.

Lemma cut_loop_keys (js : list Z) : forall (st st' : vars * sgd) tr,
  for_each cut_step js st = (Ret st', tr) ->
  keys (net (fst st')) = keys (net (fst st)).
Proof.
  induction js as [|j js IH]; intros st st' tr H.
  - inversion H; subst. reflexivity.
  - rewrite for_each_cons in H. apply bind_Ret_inv in H.
    destruct H as [st1 [w1 [w2 [H1 [H2 ->]]]]].
    apply cut_step_shape in H1. apply IH in H2.
    destruct H1 as [_ [_ [b [d [l Hnet]]]]].
    rewrite H2, Hnet, sgd_fold_keys. reflexivity.
Qed.

Lemma overwrite_loop (original_weight step_weight organic : state_dict tensor) :
  keys step_weight = keys original_weight ->
  keys organic = keys original_weight ->
  NoDup (keys original_weight) ->
  for_each (overwrite_key tadd original_weight step_weight)
    (keys original_weight) organic
  = (Ret (dict_map2 tadd original_weight step_weight), []).
Proof.
  intros Hs Ho Hnd.
  exact (@update_all tensor (event (state_dict tensor)) tadd original_weight
           step_weight organic Hs Ho Hnd).
Qed.

Lemma step_weight_loop (net0 at_weight : state_dict tensor) :
  keys at_weight = keys net0 -> NoDup (keys net0) ->
  for_each (step_key tsub tdiv a at_weight net0) (keys at_weight) net0
  = (Ret (dict_map2 (fun w o => tdiv (tsub w o) (arg_t a)) at_weight net0), []).
Proof.
  intros Hk Hnd.
  apply (@update_all tensor (event (state_dict tensor))
           (fun w o => tdiv (tsub w o) (arg_t a)) at_weight net0 net0).
  - now symmetry.
  - now symmetry.
  - rewrite Hk. exact Hnd.
Qed.

(** A step that completes with verification enabled overwrites the network
    with [original_weight + step_weight] and saves this state. *)
Lemma spoof_step_overwrites (step_weight : state_dict tensor)
    (k_step_dy_dx : list tensor) (v v' : vars) (i : Z) tr :
  (arg_verify a <> 0)%Z ->
  NoDup (keys (net v)) -> keys step_weight = keys (net v) ->
  spoof_step step_weight k_step_dy_dx v i = (Ret v', tr) ->
  net v' = dict_map2 tadd (net v) step_weight /\
  saved tr = [((arg_k a * (i + 1))%Z, dict_map2 tadd (net v) step_weight)].
Proof.
  intros Hver Hnd Hsw H.
  destruct (spoof_step_shape _ _ _ _ Hver H)
    as [v1 [opt [tr1 [tr2 [nw [Hcut [_ [Hov [Hnet Hsaved]]]]]]]]].
  rewrite overwrite_loop in Hov.
  - injection Hov as Hnw Htr. rewrite Hnet, Hsaved, <- Hnw, <- Htr.
    split; reflexivity.
  - exact Hsw.
  - exact (cut_loop_keys _ _ Hcut).
  - exact Hnd.
Qed.

(** The linear path: [i] times the step added to the start. *)
Fixpoint linear_path (net0 step_weight : state_dict tensor) (i : nat)
  : state_dict tensor :=
  match i with
  | O => net0
  | S j => dict_map2 tadd (linear_path net0 step_weight j) step_weight
  end.

Lemma keys_linear_path net0 step_weight i :
  keys step_weight = keys net0 ->
  keys (linear_path net0 step_weight i) = keys net0.
Proof.
  intros Hk. induction i as [|i IH]; [reflexivity|].
  cbn [linear_path]. rewrite keys_dict_map2; [exact IH | congruence].
Qed.

Lemma spoof_steps_linear_path (net0 step_weight : state_dict tensor)
    (k_step_dy_dx : list tensor) (count : nat) :
  forall (i0 : nat) (vi v : vars) tr,
  (arg_verify a <> 0)%Z ->
  NoDup (keys net0) -> keys step_weight = keys net0 ->
  net vi = linear_path net0 step_weight i0 ->
  for_each (spoof_step step_weight k_step_dy_dx)
    (map (fun k => (0 + Z.of_nat k)%Z) (seq i0 count)) vi = (Ret v, tr) ->
  saved tr = map (fun i => ((arg_k a * (Z.of_nat i + 1))%Z,
                            linear_path net0 step_weight (S i)))
                 (seq i0 count)
  /\ net v = linear_path net0 step_weight (i0 + count).
Proof.
  induction count as [|c IH]; intros i0 vi v tr Hver Hnd Hk Hvi H.
  - inversion H; subst. rewrite Nat.add_0_r. split; [reflexivity | exact Hvi].
  - cbn [seq map] in H. rewrite for_each_cons in H.
    apply bind_Ret_inv in H. destruct H as [v1 [w1 [w2 [H1 [H2 ->]]]]].
    apply spoof_step_overwrites in H1; [|exact Hver| |].
    + destruct H1 as [Hnet Hs1]. rewrite Hvi in Hnet, Hs1.
      destruct (IH (S i0) v1 v w2 Hver Hnd Hk Hnet H2) as [Hs2 Hv].
      split.
      * rewrite saved_app, Hs1, Hs2. reflexivity.
      * rewrite Hv. f_equal. lia.
    + rewrite Hvi, keys_linear_path by exact Hk. exact Hnd.
    + rewrite Hvi, keys_linear_path by exact Hk. exact Hk.
Qed.

(** C4.  When the Spoof Attacker runs to the end of its step loop with
    verification enabled, on two state dictionaries with the same keys:
    the step is computed once, before the loop, as
    [(at_weight[key] - original_weight[key]) / t] for every key; at the
    end of every step [i] the network holds the state it had at the start
    of the step plus this step, whatever the SGD steps on the synthetic
    batches produced; and the checkpoints saved are exactly these
    overwritten states, one per step, under the names [k * (i + 1)]. *)
Theorem spoof_loop_follows_linear_path (net0 at_weight : state_dict tensor)
    (v : vars) (tr : list (event (state_dict tensor))) :
  keys at_weight = keys net0 ->
  NoDup (keys net0) ->
  (arg_verify a <> 0)%Z ->
  Spoof.spoof_loop tadd tsub tdiv tneg is_parameter draw zeros lbfgs_step
    closure sq_sum sgd_new sgd_step distance a net0 at_weight = (Ret v, tr) ->
  let step_weight :=
    dict_map2 (fun w o => tdiv (tsub w o) (arg_t a)) at_weight net0 in
  for_each (step_key tsub tdiv a at_weight net0) (keys at_weight) net0
    = (Ret step_weight, []) /\
  saved tr = map (fun i => ((arg_k a * (Z.of_nat i + 1))%Z,
                            dict_map2 tadd (linear_path net0 step_weight i)
                              step_weight))
                 (seq 0 (Z.to_nat (arg_t a))) /\
  net v = linear_path net0 step_weight (Z.to_nat (arg_t a)).
Proof.
  intros Hk Hnd Hver H step_weight.
  pose proof (@step_weight_loop net0 at_weight Hk Hnd) as Hsw.
  fold step_weight in Hsw.
  split; [exact Hsw|].
  unfold Spoof.spoof_loop in H. rewrite Hsw, bind_Ret in H.
  cbn [fst snd app] in H. unfold range, range2 in H.
  rewrite Z.sub_0_r in H.
  assert (Hks : keys step_weight = keys net0).
  { subst step_weight. rewrite keys_dict_map2; [exact Hk | exact Hk]. }
  destruct (for_each _ _ _) as [o w] eqn:Hrun in H.
  cbn [fst snd] in H. injection H as -> ->.
  refine (@spoof_steps_linear_path net0 step_weight _ _ 0 _ v tr Hver Hnd Hks
            _ Hrun).
  reflexivity.
Qed.

End Step.

(** The toy attack of three steps from the weight 0 towards the weight 6. *)
Lemma spoof_loop_follows_linear_path_witness :
  exists v tr,
    Toy.spoof_loop Toy.spoof_args3 Toy.start_weights Toy.near_weights
      = (Ret v, tr) /\
    let step_weight :=
      dict_map2 (fun w o => ((w - o) / 3)%Z) Toy.near_weights
        Toy.start_weights in
    for_each (step_key Z.sub Z.div Toy.spoof_args3 Toy.near_weights
                Toy.start_weights) (keys Toy.near_weights) Toy.start_weights
      = (Ret step_weight, []) /\
    saved tr = map (fun i => ((2 * (Z.of_nat i + 1))%Z,
                              dict_map2 Z.add
                                (linear_path Z.add Toy.start_weights
                                   step_weight i) step_weight))
                   (seq 0 (Z.to_nat 3)) /\
    net v = linear_path Z.add Toy.start_weights step_weight (Z.to_nat 3).
Proof.
  eexists. eexists. split; [vm_compute; reflexivity|].
  apply (@spoof_loop_follows_linear_path Z Z.add Z.sub Z.div Z.opp
           Toy.is_parameter nat Toy.draw nat Toy.zeros Toy.lbfgs_step
           Toy.closure Toy.sq_sum unit Toy.sgd_new Toy.sgd_step Toy.l1
           Toy.spoof_args3).
  - intros s b d i. reflexivity.
  - reflexivity.
  - repeat constructor. intros [].
  - discriminate.
  - vm_compute. reflexivity.
Defined.

(** There the checkpoints saved are the weights 2, 4 and 6 of the straight
    line, although training on the synthetic batches never moved the
    weight. *)
Example spoof_loop_toy_checkpoints :
  saved (snd (Toy.spoof_loop Toy.spoof_args3 Toy.start_weights
                Toy.near_weights))
  = [(2, [("w"%string, 2)]); (4, [("w"%string, 4)]);
     (6, [("w"%string, 6)])]%Z.
Proof. vm_compute. reflexivity. Qed.

(** The toy attack of a single step from the weight 0 towards the weight
    5000, under the loose ceilings. *)
Lemma valid_count_of_single_step_witness :
  exists v tr,
    Toy.spoof_loop Toy.loose_args Toy.start_weights Toy.far_weights
      = (Ret v, tr) /\
    exists v1 opt tr1,
      for_each (cut_step Toy.draw Toy.zeros Toy.lbfgs_step Toy.closure
                  Toy.sq_sum Toy.sgd_step Toy.loose_args)
        (range 1)
        (initial_vars Toy.draw nat Toy.start_weights,
         Toy.sgd_new Toy.start_weights)
      = (Ret (v1, opt), tr1) /\
      let target :=
        target_of Z.add Z.opp
          (k_step Z.sub Z.div Toy.is_parameter Toy.loose_args
             Toy.start_weights Toy.far_weights)
          (parameters Toy.is_parameter Toy.start_weights) in
      let reached := parameters Toy.is_parameter (net v1) in
      (valid_count v = 1%Z
       <-> forall o thr, In (o, thr) (combine order threshold) ->
                         ~ (thr < Toy.l1 target reached o)%Q) /\
      (valid_count v = 0%Z \/ valid_count v = 1%Z).
Proof.
  eexists. eexists. split; [vm_compute; reflexivity|].
  eapply (@valid_count_of_single_step Z Z.add Z.sub Z.div Z.opp
           Toy.is_parameter nat Toy.draw nat Toy.zeros Toy.lbfgs_step
           Toy.closure Toy.sq_sum unit Toy.sgd_new Toy.sgd_step Toy.l1
           Toy.loose_args Toy.start_weights Toy.far_weights).
  - reflexivity.
  - discriminate.
  - vm_compute. reflexivity.
Defined.

(** With [t = 1], a budget of a thousand attempts and ceilings of a million,
    the first attempt is accepted and the step is overwritten with its
    target, the weight 5000; yet [valid_count] is 0, because the weight
    reached by training on the synthetic batch, 0, is at distance 5000 from
    the target. *)
Lemma valid_count_zero_under_loose_ceilings :
  exists v tr,
    Toy.spoof_loop Toy.loose_args Toy.start_weights Toy.far_weights
      = (Ret v, tr) /\
    ~ In PrintRetry tr /\
    net v = Toy.far_weights /\
    saved tr = [(1%Z, Toy.far_weights)] /\
    valid_count v = 0%Z /\ valid_count v <> 1%Z.
Proof.
  eexists. eexists. split; [vm_compute; reflexivity|].
  split; [|repeat split; discriminate].
  intros H.
  repeat (destruct H as [H|H]; [discriminate|]). exact H.
Qed.

(** The retry loop of the first sub-batch of the toy attack: the first two
    base batches are rejected, the third is accepted. *)
Lemma retry_loop_accepts_or_exhausts_witness :
  let v := initial_vars Toy.draw nat Toy.start_weights in
  let attempt := RetryFacts.attempt Toy.draw Toy.zeros Toy.lbfgs_step
                   Toy.closure Toy.sq_sum Toy.spoof_args v in
  exists n v',
    retry_loop Toy.draw Toy.zeros Toy.lbfgs_step Toy.closure Toy.sq_sum
      Toy.spoof_args (range 30) v = (Ret v', repeat PrintRetry n) /\
    (n <= Z.to_nat 30)%nat /\
    (forall j, (j < Z.to_nat 30)%nat -> (j <= n)%nat ->
       (j = n <-> RetryFacts.under_ceilings Toy.spoof_args (snd (attempt j)))) /\
    draws v' = (draws v + n)%nat /\
    base v' = RetryFacts.base_at Toy.draw v n /\
    dummy_data v' =
      Some (fst (attempt (if (n <? Z.to_nat 30)%nat then n else (n - 1)%nat))) /\
    net v' = net v /\
    forall (opt : unit) j, (1 <> 0)%Z ->
      exists st' tr,
        cut_step Toy.draw Toy.zeros Toy.lbfgs_step Toy.closure Toy.sq_sum
          Toy.sgd_step Toy.spoof_args (v, opt) j = (Ret st', tr).
Proof.
  apply (@retry_loop_accepts_or_exhausts Z nat Toy.draw nat Toy.zeros
           Toy.lbfgs_step Toy.closure Toy.sq_sum unit Toy.sgd_step
           Toy.spoof_args).
  - cbn. lia.
  - cbn. lia.
Defined.

(** There two attempts are rejected and the third base batch is kept. *)
Example retry_loop_toy :
  let run := retry_loop Toy.draw Toy.zeros Toy.lbfgs_step Toy.closure
               Toy.sq_sum Toy.spoof_args (range 30)
               (initial_vars Toy.draw nat Toy.start_weights) in
  snd run = [PrintRetry; PrintRetry] /\
  exists v', fst run = Ret v' /\ base v' = 2%nat /\ draws v' = 3%nat.
Proof. vm_compute. split; [reflexivity|]. eexists. repeat split. Qed.

(** With no attempt allowed, the first sub-batch finds no perturbation. *)
Example retry_budget_zero :
  fst (Toy.spoof_loop
         {| arg_t := 1; arg_k := 1; arg_batchsize := 1; arg_retry := 0;
            arg_gd := 15; arg_nd := 20; arg_round := 1; arg_verify := 1;
            arg_cut := 1 |} Toy.start_weights Toy.near_weights)
  = Raise NameError.
Proof. vm_compute. reflexivity. Qed.

End SpoofFacts.

(* ===================================================================== *)
(** * Traces: what a computation emits, whatever its outcome *)
(* ===================================================================== *)

Module TraceFacts.
Import Py.
Local Open Scope run_scope.
Import PyFacts.

Lemma bind_events {E A B} (c : run E A) (k : A -> run E B) :
  snd (bind c k)
  = snd c ++ match fst c with Ret a => snd (k a) | Raise _ => [] end.
Proof.
  unfold bind. destruct (fst c); cbn [snd]; [reflexivity|].
  now rewrite app_nil_r.
Qed.

Lemma bind_Raise {E A B} (e : exn) w (k : A -> run E B) :
  bind (Raise e, w) k = (Raise e, w).
Proof. reflexivity. Qed.

Lemma bind_Forall {E A B} (P : E -> Prop) (c : run E A) (k : A -> run E B) :
  Forall P (snd c) ->
  (forall a, fst c = Ret a -> Forall P (snd (k a))) ->
  Forall P (snd (bind c k)).
Proof.
  intros Hc Hk. rewrite bind_events. apply Forall_app. split; [exact Hc|].
  destruct (fst c) as [a|e]; [now apply Hk | constructor].
Qed.

Lemma bind_fst_Ret {E A B} (c : run E A) (k : A -> run E B) b :
  fst (bind c k) = Ret b -> exists a, fst c = Ret a /\ fst (k a) = Ret b.
Proof.
  unfold bind. destruct (fst c) as [a|e]; cbn [fst]; [|discriminate].
  intros H. now exists a.
Qed.

(** A loop whose iterations keep an invariant [I] of the loop state and
    emit only events that satisfy [P] emits only such events, also when an
    iteration raises. *)
Lemma for_each_Forall {E A S} (P : E -> Prop) (I : S -> Prop)
    (body : S -> A -> run E S) (xs : list A) :
  (forall s x, In x xs -> I s ->
     Forall P (snd (body s x)) /\
     forall s', fst (body s x) = Ret s' -> I s') ->
  forall s, I s ->
    Forall P (snd (for_each body xs s)) /\
    forall s', fst (for_each body xs s) = Ret s' -> I s'.
Proof.
  induction xs as [|x xs IH]; intros Hbody s Hs.
  - split; [constructor|]. cbn. intros s' H. inversion H; subst. exact Hs.
  - rewrite for_each_cons.
    destruct (Hbody s x (or_introl eq_refl) Hs) as [HP HI].
    assert (Hrest : forall s1, I s1 ->
              Forall P (snd (for_each body xs s1)) /\
              forall s', fst (for_each body xs s1) = Ret s' -> I s').
    { apply IH. intros s1 y Hy. apply Hbody. now right. }
    split.
    + apply bind_Forall; [exact HP|]. intros s1 H1.
      apply Hrest. now apply HI.
    + intros s' H. apply bind_fst_Ret in H. destruct H as [s1 [H1 H2]].
      exact (proj2 (Hrest s1 (HI s1 H1)) s' H2).
Qed.

End TraceFacts.

(* ===================================================================== *)
(** * The Full Verifier: what is replayed, and when it raises *)
(* ===================================================================== *)

Module VerifyAllReplay.
Import Py.
Local Open Scope run_scope.
Import PyFacts Verify VerifyAllFacts TraceFacts.

(** The chunks of [c] consecutive elements of a list. *)
Lemma concat_chunks {A} (l : list A) (c : nat) : forall count a,
  (length l <= (a + count) * c)%nat ->
  concat (map (fun j => firstn c (skipn (j * c) l)) (seq a count))
  = skipn (a * c) l.
Proof.
  induction count as [|k IH]; intros a Hlen.
  - cbn. symmetry. apply skipn_all2. lia.
  - cbn [seq map concat]. rewrite IH by lia.
    replace (S a * c)%nat with (c + a * c)%nat by lia.
    rewrite <- skipn_skipn. apply firstn_skipn.
Qed.

Section Replay.

Variables (network hyper : Type).
Variable train : hyper -> model network -> list Z -> network.
Variable distance : hyper -> model network -> model network -> metric -> float.
Variables (h : hyper) (sequence : list Z) (save_freq : Z).
Variable order : list metric.

(** The calls to the training function in a trace: the checkpoint each
    starts from and the indices it replays. *)
Definition trained (tr : list (event network))
  : list (model network * list Z) :=
  flat_map (fun e => match e with
                     | Train m s => [(m, s)]
                     | _ => []
                     end) tr.

Definition is_log (e : event network) : Prop :=
  match e with Log _ _ => True | _ => False end.

Lemma trained_app tr1 tr2 : trained (tr1 ++ tr2) = trained tr1 ++ trained tr2.
Proof. apply flat_map_app. Qed.

Lemma trained_logs tr : Forall is_log tr -> trained tr = [].
Proof.
  induction 1 as [|e tr He _ IH]; [reflexivity|].
  destruct e; try contradiction. exact IH.
Qed.

Lemma trained_intervals steps :
  trained (flat_map (fun i => interval_events train h sequence save_freq order
                                (Checkpoint _ i) i) steps)
  = map (fun i => (Checkpoint network i, interval_slice sequence save_freq i))
        steps.
Proof.
  induction steps as [|i steps IH]; [reflexivity|].
  cbn [flat_map map]. rewrite trained_app, IH. reflexivity.
Qed.

(** The indices replayed for the interval that starts at step [i]. *)
Lemma interval_slice_chunk (j : nat) :
  (0 < save_freq)%Z ->
  interval_slice sequence save_freq (Z.of_nat j * save_freq)
  = firstn (Z.to_nat save_freq) (skipn (j * Z.to_nat save_freq) sequence).
Proof.
  intros Hsf. unfold interval_slice, slice, slice_bound.
  set (n := Z.of_nat (length sequence)).
  set (i := (Z.of_nat j * save_freq)%Z).
  assert (Hi : (0 <= i)%Z) by (subst i; nia).
  assert (Hji : (j * Z.to_nat save_freq)%nat = Z.to_nat i) by (subst i; nia).
  rewrite Hji.
  destruct (Z.ltb_spec i 0); [lia|].
  destruct (Z.geb_spec (i + save_freq) n) as [Hge|Hlt].
  - destruct (Z.le_gt_cases n i) as [Hout|Hin].
    + rewrite Z.min_r by lia.
      rewrite !skipn_all2 by lia. now rewrite !firstn_nil.
    + rewrite Z.min_l by lia.
      rewrite !firstn_all2; [reflexivity | |]; rewrite length_skipn; lia.
  - destruct (Z.ltb_spec (i + save_freq) 0); [lia|].
    rewrite Z.min_l by lia. rewrite Z.min_l by lia.
    do 2 f_equal. lia.
Qed.

(** The events of the reporting loop are log lines, whether it completes
    or raises. *)
Lemma verify_all_report_logs (l : list (metric * (float * list float))) :
  Forall is_log
    (snd (for_each (fun _ okr => verify_all_report network okr) l tt)).
Proof.
  apply (@for_each_Forall _ _ _ is_log (fun _ => True)); [|exact I].
  intros [] [o [thr row]] _ _. split; [|auto].
  unfold verify_all_report. destruct row; cbn; repeat constructor.
Qed.

(** The replay loop never raises. *)
Lemma verify_all_loop_total (steps : list Z) : forall m (g : metric -> list float),
  exists m' g',
    for_each (verify_all_step train distance h sequence save_freq order) steps
      (m, map g order)
    = (Ret (m', map g' order),
       snd (for_each (verify_all_step train distance h sequence save_freq
                        order) steps (m, map g order)))
    /\ forall o, length (g' o) = (length (g o) + length steps)%nat.
Proof.
  induction steps as [|i steps IH]; intros m g.
  - exists m, g. split; [reflexivity|]. intros o. cbn. lia.
  - rewrite for_each_cons, verify_all_step_eq, bind_Ret.
    destruct (IH (interval_target network sequence save_freq i)
                (fun o => g o ++ [interval_distance train distance h sequence
                                    save_freq m i o])) as [m' [g' [H Hlen]]].
    exists m', g'. rewrite H. cbn [fst snd]. split; [reflexivity|].
    intros o. rewrite Hlen, length_app. cbn. lia.
Qed.

End Replay.

(** [verify_all] on a single metric is [verify_all] on the two lists of
    length one. *)
Lemma verify_all_as_lists (network hyper : Type)
    (train : hyper -> model network -> list Z -> network)
    (distance : hyper -> model network -> model network -> metric -> float)
    (dir_exists : bool) (h : hyper) (sequence : list Z) (save_freq : Z)
    (args : metric_args) :
  length (fst (metric_lists args)) = length (snd (metric_lists args)) ->
  verify_all train distance dir_exists sequence h save_freq args
  = verify_all train distance dir_exists sequence h save_freq
      (Many (fst (metric_lists args)) (snd (metric_lists args))).
Proof.
  destruct args as [o t|os ts]; reflexivity.
Qed.

(** The run of [verify_all] past its guards. *)
Lemma verify_all_past_guards (network hyper : Type)
    (train : hyper -> model network -> list Z -> network)
    (distance : hyper -> model network -> model network -> metric -> float)
    (h : hyper) (sequence : list Z) (save_freq : Z)
    (order : list metric) (threshold : list float) (steps : list Z) :
  length order = length threshold ->
  range3 0 (Z.of_nat (length sequence)) save_freq = Ret steps ->
  exists m' g' w,
    for_each (verify_all_step train distance h sequence save_freq order) steps
      (Checkpoint _ 0, empty_rows order) = (Ret (m', map g' order), w)
    /\ (forall o, length (g' o) = length steps)
    /\ let report :=
         for_each (fun _ okr => verify_all_report network okr)
           (combine order (combine threshold (map g' order))) tt in
       verify_all train distance true sequence h save_freq
         (Many order threshold)
       = (match fst report with
          | Ret _ => Ret (map g' order)
          | Raise e => Raise e
          end, w ++ snd report).
Proof.
  intros Hlen Hr.
  destruct (@verify_all_loop_total _ _ train distance h sequence save_freq
              order steps (Checkpoint _ 0) (fun _ => []))
    as [m' [g' [Hloop Hrows]]].
  change (map (fun _ : metric => @nil float) order) with (empty_rows order)
    in Hloop.
  set (w := snd _) in Hloop.
  exists m', g', w. split; [exact Hloop|]. split; [exact Hrows|].
  intros report. unfold verify_all. cbn [negb normalise].
  rewrite Hlen, Nat.eqb_refl, bind_ret_l, Hr.
  unfold lift. rewrite bind_Ret. cbn [fst snd app].
  rewrite Hloop, bind_Ret. cbn [fst snd]. fold report.
  destruct report as [[[]|e] wr]; unfold bind, ret; cbn [fst snd];
    rewrite ?app_nil_r; reflexivity.
Qed.


Lemma range3_empty (n sf : Z) :
  (0 <= n)%Z -> (sf < 0 \/ (0 < sf /\ n = 0))%Z -> range3 0 n sf = Ret [].
Proof.
  intros Hn Hsf. unfold range3.
  destruct (Z.eqb_spec sf 0); [lia|].
  destruct (Z.ltb_spec 0 sf).
  - destruct Hsf as [|[_ ->]]; [lia|].
    replace ((0 - 0 + sf - 1) / sf)%Z with 0%Z; [reflexivity|].
    symmetry. apply Z.div_small. lia.
  - assert (H0 : ((0 - n - sf - 1) / - sf <= 0)%Z).
    { apply Z.lt_succ_r. apply Z.div_lt_upper_bound; lia. }
    destruct ((0 - n - sf - 1) / - sf)%Z; try lia; reflexivity.
Qed.

(** X1.  [verify_all] and its guards, in the order in which they are
    tested: a missing directory raises [FileNotFoundError]; two lists of
    different lengths raise [AssertionError]; a [save_freq] of zero raises
    the [ValueError] of [range]; in the three cases nothing has been
    replayed or logged.  With a negative [save_freq], or an empty index
    sequence, no interval is replayed, and the report of the first metric
    raises the [ValueError] of [np.max] on an empty row, after its first
    line.  In every other case [verify_all] returns. *)
Theorem verify_all_outcome (network hyper : Type)
    (train : hyper -> model network -> list Z -> network)
    (distance : hyper -> model network -> model network -> metric -> float)
    (dir_exists : bool) (h : hyper) (sequence : list Z) (save_freq : Z)
    (args : metric_args) :
  let order := fst (metric_lists args) in
  let threshold := snd (metric_lists args) in
  let run := verify_all train distance dir_exists sequence h save_freq args in
  (dir_exists = false -> run = (Raise FileNotFoundError, [])) /\
  (dir_exists = true -> length order <> length threshold ->
   run = (Raise AssertionError, [])) /\
  (dir_exists = true -> length order = length threshold -> save_freq = 0%Z ->
   run = (Raise ValueError, [])) /\
  (dir_exists = true -> length order = length threshold ->
   (save_freq < 0 \/ (0 < save_freq /\ sequence = []))%Z ->
   forall o os thr ts, order = o :: os -> threshold = thr :: ts ->
   run = (Raise ValueError, [Log _ (MsgMetric o thr)])) /\
  ((exists v tr, run = (Ret v, tr)) <->
   dir_exists = true /\ length order = length threshold /\
   ((order = [] /\ save_freq <> 0%Z) \/ (0 < save_freq /\ sequence <> [])%Z)).
Proof.
  intros order threshold run.
  assert (Hmiss : dir_exists = false -> run = (Raise FileNotFoundError, [])).
  { intros ->. reflexivity. }
  assert (Hassert : dir_exists = true -> length order <> length threshold ->
                    run = (Raise AssertionError, [])).
  { intros -> Hne. subst run order threshold.
    destruct args as [o t|os ts]; cbn in Hne; [congruence|].
    unfold verify_all. cbn [negb normalise].
    destruct (Nat.eqb_spec (length os) (length ts)); [congruence|].
    reflexivity. }
  assert (Hzero : dir_exists = true -> length order = length threshold ->
                  save_freq = 0%Z -> run = (Raise ValueError, [])).
  { intros -> Hlen ->. subst run.
    rewrite verify_all_as_lists by exact Hlen. fold order threshold.
    unfold verify_all. cbn [negb normalise].
    rewrite Hlen, Nat.eqb_refl, bind_ret_l. reflexivity. }
  assert (Hempty : dir_exists = true -> length order = length threshold ->
            (save_freq < 0 \/ (0 < save_freq /\ sequence = []))%Z ->
            forall o os thr ts, order = o :: os -> threshold = thr :: ts ->
            run = (Raise ValueError, [Log _ (MsgMetric o thr)])).
  { intros -> Hlen Hsf o os thr ts Ho Ht. subst run.
    rewrite verify_all_as_lists by exact Hlen. fold order threshold.
    assert (Hr : range3 0 (Z.of_nat (length sequence)) save_freq = Ret []).
    { apply range3_empty; [lia|]. destruct Hsf as [|[? ->]]; [now left|].
      right. split; [assumption | reflexivity]. }
    destruct (@verify_all_past_guards _ _ train distance h sequence save_freq
                order threshold [] Hlen Hr) as [m' [g' [w [Hloop [Hrows Hrun]]]]].
    cbv zeta in Hrun. rewrite Hrun.
    cbn in Hloop. injection Hloop as _ Hg Hw. subst w.
    rewrite <- Hg, Ho, Ht. reflexivity. }
  split; [exact Hmiss|]. split; [exact Hassert|]. split; [exact Hzero|].
  split; [exact Hempty|]. split.
  - intros [v [tr Hret]].
    destruct dir_exists; [|rewrite Hmiss in Hret by reflexivity; discriminate].
    split; [reflexivity|].
    destruct (Nat.eq_dec (length order) (length threshold)) as [Hlen|Hne];
      [|rewrite Hassert in Hret by auto; discriminate].
    split; [exact Hlen|].
    destruct (Z.eq_dec save_freq 0) as [Hz|Hnz];
      [rewrite Hzero in Hret by auto; discriminate|].
    destruct order as [|o os] eqn:Ho; [left; auto|].
    destruct threshold as [|thr ts] eqn:Ht; [discriminate|].
    right.
    destruct (Z.lt_ge_cases save_freq 0) as [Hneg|Hpos].
    { rewrite (Hempty eq_refl Hlen (or_introl Hneg) o os thr ts eq_refl eq_refl)
        in Hret. discriminate. }
    assert (Hsf : (0 < save_freq)%Z) by lia.
    split; [exact Hsf|]. intros Hnil.
    rewrite (Hempty eq_refl Hlen (or_intror (conj Hsf Hnil))
               o os thr ts eq_refl eq_refl) in Hret. discriminate.
  - intros [-> [Hlen Hcase]]. subst run.
    rewrite verify_all_as_lists by exact Hlen. fold order threshold.
    destruct Hcase as [[Ho Hnz]|[Hpos Hne]].
    + assert (Hr : exists steps,
                range3 0 (Z.of_nat (length sequence)) save_freq = Ret steps).
      { unfold range3. destruct (Z.eqb_spec save_freq 0); [contradiction|].
        destruct (0 <? save_freq)%Z; eexists; reflexivity. }
      destruct Hr as [steps Hr].
      destruct (@verify_all_past_guards _ _ train distance h sequence
                  save_freq order threshold steps Hlen Hr)
        as [m' [g' [w [_ [_ Hrun]]]]].
      cbv zeta in Hrun. rewrite Hrun, Ho. cbn. eauto.
    + destruct (@verify_all_lists _ _ train distance h sequence save_freq
                  order threshold Hlen Hpos Hne) as [steps [_ [_ Hrun]]].
      cbv zeta in Hrun. rewrite Hrun. eauto.
Qed.

(** X2.  On an existing directory, with as many thresholds as metrics and a
    positive [save_freq], [verify_all] calls the training function once per
    interval, [ceil(len(sequence) / save_freq)] times in all; the [j]-th
    call starts from the recorded checkpoint [model_step_{j * save_freq}],
    never from a network reproduced by an earlier call, and replays the
    [save_freq] indices that follow position [j * save_freq] (fewer for
    the last interval); put end to end, the replayed indices are the index
    sequence: every index is replayed exactly once, in order. *)
Theorem verify_all_replays_every_index (network hyper : Type)
    (train : hyper -> model network -> list Z -> network)
    (distance : hyper -> model network -> model network -> metric -> float)
    (h : hyper) (sequence : list Z) (save_freq : Z) (args : metric_args) :
  length (fst (metric_lists args)) = length (snd (metric_lists args)) ->
  (0 < save_freq)%Z ->
  let run := verify_all train distance true sequence h save_freq args in
  let c := Z.to_nat save_freq in
  let count :=
    Z.to_nat ((Z.of_nat (length sequence) + save_freq - 1) / save_freq) in
  trained (snd run)
  = map (fun j => (Checkpoint network (Z.of_nat j * save_freq),
                   firstn c (skipn (j * c) sequence)))
        (seq 0 count)
  /\ concat (map snd (trained (snd run))) = sequence.
Proof.
  intros Hlen Hsf run c count.
  assert (Htr : trained (snd run)
                = map (fun j => (Checkpoint network (Z.of_nat j * save_freq),
                                 firstn c (skipn (j * c) sequence)))
                      (seq 0 count)).
  { subst run. rewrite verify_all_as_lists by exact Hlen.
    set (order := fst (metric_lists args)) in *.
    set (threshold := snd (metric_lists args)) in *.
    destruct (range3_up (Z.of_nat (length sequence)) Hsf) as [Hr [Hlt _]].
    rewrite Z.sub_0_r in Hr, Hlt. fold count in Hr, Hlt.
    destruct (@verify_all_past_guards _ _ train distance h sequence save_freq
                order threshold _ Hlen Hr) as [m' [g' [w [Hloop [_ Hrun]]]]].
    cbv zeta in Hrun. rewrite Hrun. cbn [snd].
    rewrite trained_app, (trained_logs (verify_all_report_logs _ _)),
      app_nil_r.
    destruct (verify_all_loop train distance h sequence order
                (count := count) 0 (m := Checkpoint _ 0) (fun _ => [])
                Hsf Hlt ltac:(intros _; reflexivity)) as [m'' Hloop'].
    cbv zeta in Hloop'.
    change (map (fun _ : metric => @nil float) order) with (empty_rows order)
      in Hloop'.
    rewrite Hloop' in Hloop. injection Hloop as _ _ Hw. rewrite <- Hw.
    rewrite trained_intervals, map_map. apply map_ext. intros j.
    rewrite interval_slice_chunk by exact Hsf. reflexivity. }
  split; [exact Htr|].
  rewrite Htr, map_map. cbn [snd].
  rewrite (@concat_chunks _ sequence c count 0); [reflexivity|].
  subst c count. cbn [Nat.add].
  pose proof (Z.mul_div_le (Z.of_nat (length sequence) + save_freq - 1)
                save_freq Hsf) as H1.
  pose proof (Z.mod_pos_bound (Z.of_nat (length sequence) + save_freq - 1)
                save_freq Hsf) as H2.
  pose proof (Z.div_mod (Z.of_nat (length sequence) + save_freq - 1)
                save_freq ltac:(lia)) as H3.
  assert (H4 : (0 <= (Z.of_nat (length sequence) + save_freq - 1) / save_freq)%Z)
    by (apply Z.div_pos; lia).
  nia.
Qed.

(** The toy trajectory of five steps, checkpointed every two steps. *)
Lemma verify_all_replays_every_index_witness :
  let run := verify_all Toy.train Toy.distance true [0; 1; 2; 3; 4]%Z tt 2
               (Many Toy.two_metrics [1; 10]%Q) in
  trained (snd run)
  = [(Checkpoint Z 0, [0; 1]%Z); (Checkpoint Z 2, [2; 3]%Z);
     (Checkpoint Z 4, [4]%Z)]
  /\ concat (map snd (trained (snd run))) = [0; 1; 2; 3; 4]%Z.
Proof.
  apply (@verify_all_replays_every_index Z unit Toy.train Toy.distance tt
           [0; 1; 2; 3; 4]%Z 2 (Many Toy.two_metrics [1; 10]%Q)).
  - reflexivity.
  - lia.
Defined.

End VerifyAllReplay.

(* ===================================================================== *)
(** * The Top-Q Verifier: guards and epoch bounds *)
(* ===================================================================== *)

Module TopQBounds.
Import Py.
Local Open Scope run_scope.
Import PyFacts Verify VerifyAllFacts TopQRanking TopQSelection TopQEpoch.

(** ** [np.round] *)

Lemma np_round_comp x y : (x == y)%Q -> np_round x = np_round y.
Proof.
  intros H. unfold np_round. rewrite (Qfloor_comp _ _ H).
  assert (Hc : ((x - inject_Z (Qfloor y)) ?= (1 # 2))%Q
               = ((y - inject_Z (Qfloor y)) ?= (1 # 2))%Q).
  { apply Qcompare_comp; [|reflexivity]. now rewrite H. }
  rewrite Hc. reflexivity.
Qed.

Lemma np_round_bounds x : (Qfloor x <= np_round x <= Qfloor x + 1)%Z.
Proof.
  unfold np_round. destruct (_ ?= _)%Q; [|lia|lia].
  destruct (Z.even (Qfloor x)); lia.
Qed.

Lemma np_round_inject z : np_round (inject_Z z) = z.
Proof.
  unfold np_round. rewrite Qfloor_Z.
  assert (H : ((inject_Z z - inject_Z z) ?= (1 # 2))%Q = Lt).
  { apply Qlt_alt. setoid_replace (inject_Z z - inject_Z z)%Q with 0%Q by ring.
    reflexivity. }
  rewrite H. reflexivity.
Qed.

Lemma np_round_mono x y : (x <= y)%Q -> (np_round x <= np_round y)%Z.
Proof.
  intros Hxy.
  pose proof (Qfloor_resp_le _ _ Hxy) as Hf.
  destruct (Z.eq_dec (Qfloor x) (Qfloor y)) as [E|N].
  - unfold np_round. rewrite E. set (f := Qfloor y).
    assert (H : (x - inject_Z f <= y - inject_Z f)%Q).
    { apply Qplus_le_l. exact Hxy. }
    destruct ((x - inject_Z f) ?= (1 # 2))%Q eqn:Cx;
      destruct ((y - inject_Z f) ?= (1 # 2))%Q eqn:Cy;
      try (destruct (Z.even f)); try lia; exfalso;
      first [apply Qeq_alt in Cx | apply Qlt_alt in Cx | apply Qgt_alt in Cx];
      first [apply Qeq_alt in Cy | apply Qlt_alt in Cy | apply Qgt_alt in Cy];
      lra.
  - pose proof (np_round_bounds x). pose proof (np_round_bounds y). lia.
Qed.

Lemma Qfloor_inject_div (n sf : Z) :
  (0 < sf)%Z -> Qfloor (inject_Z n / inject_Z sf) = (n / sf)%Z.
Proof.
  intros Hsf. destruct sf as [|p|p]; try lia.
  unfold Qdiv, Qinv, Qmult, inject_Z, Qfloor. cbn.
  rewrite Z.mul_1_r. reflexivity.
Qed.

(** ** [range] *)

Lemma map_seq_shift {A} (len : nat) : forall (f : nat -> A) start,
  map f (seq start len) = map (fun k => f (start + k)%nat) (seq 0 len).
Proof.
  induction len as [|len IH]; intros f start; [reflexivity|].
  cbn [seq map]. rewrite Nat.add_0_r. f_equal.
  rewrite (IH f (S start)), (IH (fun k => f (start + k)%nat) 1%nat).
  apply map_ext. intros k. f_equal. lia.
Qed.

Lemma range2_app (a b c : Z) :
  (a <= b <= c)%Z -> range2 a b ++ range2 b c = range2 a c.
Proof.
  intros H. unfold range2.
  replace (Z.to_nat (c - a)) with (Z.to_nat (b - a) + Z.to_nat (c - b))%nat
    by lia.
  rewrite seq_app, map_app. f_equal. cbn [Nat.add].
  rewrite (map_seq_shift _ _ (Z.to_nat (b - a))). apply map_ext. intros k. lia.
Qed.

Lemma range2_empty (a b : Z) : (b <= a)%Z -> range2 a b = [].
Proof.
  intros H. unfold range2. replace (Z.to_nat (b - a)) with 0%nat by lia.
  reflexivity.
Qed.

Lemma range_S (n : nat) :
  range (Z.of_nat (S n)) = range (Z.of_nat n) ++ [Z.of_nat n].
Proof.
  rewrite (@range_last (Z.of_nat (S n))) by lia.
  replace (Z.of_nat (S n) - 1)%Z with (Z.of_nat n) by lia. reflexivity.
Qed.

(** ** The epoch bounds *)

Section Bounds.

Variables (n epochs save_freq : Z) (c : float).
Hypothesis Hn : (0 <= n)%Z.
Hypothesis He : (1 <= epochs)%Z.
Hypothesis Hsf : (1 <= save_freq)%Z.
Hypothesis Hc : ckpt_per_epoch n epochs save_freq = Ret c.

Lemma ckpt_value : c = (inject_Z n / inject_Z epochs / inject_Z save_freq)%Q.
Proof.
  unfold ckpt_per_epoch in Hc.
  destruct (Z.eqb_spec epochs 0); [lia|].
  destruct (Z.eqb_spec save_freq 0); [lia|].
  cbn in Hc. now inversion Hc.
Qed.

Lemma inject_Z_pos z : (1 <= z)%Z -> (0 < inject_Z z)%Q.
Proof. intros H. unfold Qlt, inject_Z. cbn. lia. Qed.

Lemma ckpt_nonneg : (0 <= c)%Q.
Proof.
  rewrite ckpt_value.
  pose proof (inject_Z_pos He). pose proof (inject_Z_pos Hsf).
  assert (H1 : (0 <= inject_Z n)%Q) by (unfold Qle, inject_Z; cbn; lia).
  apply Qle_shift_div_l; [assumption|]. rewrite Qmult_0_l.
  apply Qle_shift_div_l; [assumption|]. now rewrite Qmult_0_l.
Qed.

Lemma epoch_bound_0 : epoch_bound c 0 = 0%Z.
Proof.
  unfold epoch_bound.
  rewrite (@np_round_comp (c * inject_Z 0)%Q (inject_Z 0)) by ring.
  apply np_round_inject.
Qed.

Lemma epoch_bound_mono e e' :
  (e <= e')%Z -> (epoch_bound c e <= epoch_bound c e')%Z.
Proof.
  intros H. unfold epoch_bound. apply np_round_mono.
  rewrite !(Qmult_comm c). apply Qmult_le_compat_r; [|apply ckpt_nonneg].
  unfold Qle, inject_Z. cbn. lia.
Qed.

Lemma epoch_bound_last :
  epoch_bound c epochs = np_round (inject_Z n / inject_Z save_freq)%Q.
Proof.
  unfold epoch_bound. apply np_round_comp. rewrite ckpt_value.
  pose proof (inject_Z_pos He). pose proof (inject_Z_pos Hsf).
  field. split; intros E; rewrite E in *; lra.
Qed.

Lemma epoch_windows (k : nat) :
  concat (map (fun e => range2 (epoch_bound c e) (epoch_bound c (e + 1)))
              (range (Z.of_nat k)))
  = range2 0 (epoch_bound c (Z.of_nat k)).
Proof.
  induction k as [|k IH].
  - cbn. rewrite epoch_bound_0. reflexivity.
  - rewrite range_S, map_app, concat_app, IH. cbn [map concat].
    rewrite app_nil_r.
    replace (Z.of_nat (S k)) with (Z.of_nat k + 1)%Z by lia.
    apply range2_app. split.
    + rewrite <- epoch_bound_0. apply epoch_bound_mono. lia.
    + apply epoch_bound_mono. lia.
Qed.

Lemma epoch_bound_range (e : Z) :
  (0 <= e < epochs)%Z ->
  (0 <= epoch_bound c e <= epoch_bound c (e + 1))%Z /\
  (epoch_bound c (e + 1)
   <= np_round (inject_Z n / inject_Z save_freq)%Q)%Z.
Proof.
  intros Hb. split; [split|].
  - rewrite <- epoch_bound_0. apply epoch_bound_mono. lia.
  - apply epoch_bound_mono. lia.
  - rewrite <- epoch_bound_last. apply epoch_bound_mono. lia.
Qed.

End Bounds.

(** X3.  The epochs of [verify_topq] cut the checkpoint intervals into
    consecutive windows: with at least one epoch and a positive
    [save_freq], the first window starts at interval 0, every window starts
    where the previous one ends, the last one ends at
    [round(len(sequence) / save_freq)], and the intervals ranked by the
    epochs, taken together, are [0, 1, ..., round(len(sequence) /
    save_freq) - 1], each in exactly one epoch. *)
Theorem epoch_windows_tile (n epochs save_freq : Z) (c : float) :
  (0 <= n)%Z -> (1 <= epochs)%Z -> (1 <= save_freq)%Z ->
  ckpt_per_epoch n epochs save_freq = Ret c ->
  let last := np_round (inject_Z n / inject_Z save_freq)%Q in
  epoch_bound c 0 = 0%Z /\
  epoch_bound c epochs = last /\
  (forall e, (0 <= e < epochs)%Z ->
     (0 <= epoch_bound c e <= epoch_bound c (e + 1))%Z /\
     (epoch_bound c (e + 1) <= last)%Z) /\
  (n / save_freq <= last <= n / save_freq + 1)%Z /\
  concat (map (fun e => range2 (epoch_bound c e) (epoch_bound c (e + 1)))
              (range epochs))
  = range2 0 last.
Proof.
  intros Hn He Hsf Hc last.
  pose proof (epoch_bound_0 c) as H0.
  pose proof (epoch_bound_last n He Hsf Hc) as Hl. fold last in Hl.
  split; [exact H0|]. split; [exact Hl|]. split; [|split].
  - intros e Hb. exact (epoch_bound_range Hn He Hsf Hc Hb).
  - subst last. pose proof (np_round_bounds (inject_Z n / inject_Z save_freq)).
    rewrite Qfloor_inject_div in H by lia. exact H.
  - rewrite <- Hl. rewrite <- (Z2Nat.id epochs) by lia.
    apply (epoch_windows Hn He Hsf Hc).
Qed.

(** A trajectory of 250 steps checkpointed every 100 steps, in two epochs. *)
Lemma epoch_windows_tile_witness :
  let c := (inject_Z 250 / inject_Z 2 / inject_Z 100)%Q in
  let last := np_round (inject_Z 250 / inject_Z 100)%Q in
  epoch_bound c 0 = 0%Z /\
  epoch_bound c 2 = last /\
  (forall e, (0 <= e < 2)%Z ->
     (0 <= epoch_bound c e <= epoch_bound c (e + 1))%Z /\
     (epoch_bound c (e + 1) <= last)%Z) /\
  (250 / 100 <= last <= 250 / 100 + 1)%Z /\
  concat (map (fun e => range2 (epoch_bound c e) (epoch_bound c (e + 1)))
              (range 2))
  = range2 0 last.
Proof.
  apply (@epoch_windows_tile 250 2 100); try lia. reflexivity.
Defined.

End TopQBounds.

(* ===================================================================== *)
(** * The Top-Q Verifier: what an epoch replays *)
(* ===================================================================== *)

Module TopQReplay.
Import Py.
Local Open Scope run_scope.
Import PyFacts Verify VerifyAllFacts TopQRanking TopQSelection TopQEpoch.
Import TraceFacts VerifyAllReplay TopQBounds.

(** X4.  [verify_topq] and its guards, in the order in which they are
    tested: a missing directory raises [FileNotFoundError]; two lists of
    different lengths raise [AssertionError]; zero epochs, or a [save_freq]
    of zero, raise [ZeroDivisionError]; with a negative number of epochs
    the loop over the epochs is empty, and [verify_topq] returns the empty
    list.  In the four cases no checkpoint has been compared, no interval
    replayed and nothing logged. *)
Theorem verify_topq_guard_outcomes (network hyper : Type)
    (train : hyper -> model network -> list Z -> network)
    (distance : hyper -> model network -> model network -> metric -> float)
    (dir_exists : bool) (sequence : list Z) (h : hyper) (save_freq : Z)
    (args : metric_args) (epochs q : Z) :
  let order := fst (metric_lists args) in
  let threshold := snd (metric_lists args) in
  let run := verify_topq train distance dir_exists sequence h save_freq args
               epochs q in
  (dir_exists = false -> run = (Raise FileNotFoundError, [])) /\
  (dir_exists = true -> length order <> length threshold ->
   run = (Raise AssertionError, [])) /\
  (dir_exists = true -> length order = length threshold ->
   (epochs = 0 \/ save_freq = 0)%Z -> run = (Raise ZeroDivisionError, [])) /\
  (dir_exists = true -> length order = length threshold ->
   (epochs < 0)%Z -> save_freq <> 0%Z -> run = (Ret [], [])).
Proof.
  intros order threshold run. subst run order threshold.
  destruct (verify_topq_guards train distance dir_exists sequence h save_freq
              args epochs q) as [[e [Hr Hwhy]]|[Hdir [Hlen [c [Hc Hr]]]]].
  - split; [|split; [|split]].
    + intros ->. reflexivity.
    + intros -> Hne.
      destruct args as [o t|os ts]; cbn in Hne; [congruence|].
      unfold verify_topq. cbn [negb normalise metric_lists fst snd] in *.
      destruct (Nat.eqb_spec (length os) (length ts)); [congruence|].
      reflexivity.
    + intros -> Hlen Hz. destruct Hwhy as [H|[H|H]]; try congruence.
      assert (He : ckpt_per_epoch (Z.of_nat (length sequence)) epochs
                     save_freq = Raise ZeroDivisionError).
      { unfold ckpt_per_epoch.
        destruct Hz as [-> | ->]; [reflexivity|].
        now rewrite Z.eqb_refl, orb_true_r. }
      rewrite He in H. injection H as <-. exact Hr.
    + intros -> Hlen He Hsf. exfalso.
      destruct Hwhy as [H|[H|H]]; try congruence.
      unfold ckpt_per_epoch in H.
      destruct (Z.eqb_spec epochs 0); [lia|].
      destruct (Z.eqb_spec save_freq 0); [contradiction|]. discriminate.
  - split; [|split; [|split]].
    + congruence.
    + congruence.
    + intros _ _ Hz. exfalso. unfold ckpt_per_epoch in Hc.
      destruct Hz as [-> | ->]; [discriminate|].
      rewrite Z.eqb_refl, orb_true_r in Hc. discriminate.
    + intros _ _ He _. rewrite Hr.
      unfold range. rewrite range2_empty by lia. reflexivity.
Qed.

Section Epoch.

Variables (network hyper : Type).
Variable train : hyper -> model network -> list Z -> network.
Variable distance : hyper -> model network -> model network -> metric -> float.
Variables (h : hyper) (sequence : list Z) (save_freq : Z).
Variable order : list metric.

Abbreviation rank_events :=
  (TopQEpoch.rank_events network sequence save_freq order).
Abbreviation recorded_distance :=
  (TopQRanking.recorded_distance distance h sequence save_freq).

(** The ranking rows of an epoch. *)
Definition rank_rows (start stop : Z) : list (list float) :=
  map (fun o => map (fun i => recorded_distance start i o)
                    (range2 start stop)) order.

Lemma rank_rows_length start stop :
  Forall (fun row => length row = Z.to_nat (stop - start))
         (rank_rows start stop).
Proof.
  apply Forall_forall. intros row Hin. apply in_map_iff in Hin.
  destruct Hin as [o [<- _]]. unfold range2.
  now rewrite !length_map, length_seq.
Qed.

Lemma trained_rank_events start steps : trained (rank_events start steps) = [].
Proof. induction steps as [|i steps IH]; [reflexivity | exact IH]. Qed.

Lemma trained_report q l :
  trained (flat_map (@topq_report_events network q) l) = [].
Proof. induction l as [|okr l IH]; [reflexivity | exact IH]. Qed.

(** An epoch with at least one interval and fewer than [q]: the selection
    raises. *)
Lemma topq_epoch_short (threshold : list float) q start stop res :
  order <> [] -> (0 < stop - start < q)%Z ->
  topq_epoch train distance h sequence save_freq order threshold q
    start stop res
  = (Raise ValueError, rank_events start (range2 start stop)).
Proof.
  intros Ho Hq. unfold topq_epoch.
  rewrite topq_phase1_eq, bind_Ret. cbn [fst snd].
  fold (rank_events start (range2 start stop)).
  destruct order as [|o os]; [congruence|]. cbn [map].
  set (row := map _ (range2 start stop)).
  assert (Hrow : Z.of_nat (length row) = Z.max 0 (stop - start)).
  { subst row. unfold range2. rewrite !length_map, length_seq. lia. }
  unfold topq_select, argpartition_axis1. cbn [argpartition_rows].
  rewrite argpartition_out_of_bounds.
  - cbn. rewrite app_nil_r. reflexivity.
  - intros E. rewrite E in Hrow. cbn in Hrow. lia.
  - lia.
Qed.

(** The deep-check loop over the indices of a union. *)
Lemma topq_phase2_ints start (u : list nat) : forall res (g : metric -> list float),
  exists res' g',
    for_each (topq_check_step train distance h sequence save_freq order start)
      (map (fun i => NpInt (Z.of_nat i)) u) (res, map g order)
    = (Ret (res', map g' order),
       flat_map (fun step => interval_events train h sequence save_freq order
                               (Checkpoint _ step) step)
                (map (fun i => ((start + Z.of_nat i) * save_freq)%Z) u)).
Proof.
  induction u as [|i u IH]; intros res g.
  - exists res, g. reflexivity.
  - cbn [map]. rewrite for_each_cons, topq_check_step_eq.
    cbn [np_add np_mul int_of]. rewrite bind_Ret.
    match goal with
    | |- context [for_each _ _ (?r, map ?gg order)] =>
        destruct (IH r gg) as [res' [g' H]]
    end.
    exists res', g'. rewrite H. reflexivity.
Qed.

End Epoch.

(** The selection with several metrics. *)
Lemma topq_select_many (order : list metric) (dist_arr : list (list float))
    (q : Z) (num_intervals : nat) :
  (1 < length order)%nat ->
  length dist_arr = length order ->
  Forall (fun row => length row = num_intervals) dist_arr ->
  (1 <= q <= Z.of_nat num_intervals)%Z ->
  exists u,
    topq_select order dist_arr q = Ret (Steps1 u) /\
    (forall i, In i u <->
               exists row, In row dist_arr /\ In i (top_indices row q)) /\
    NoDup u /\
    (Z.to_nat q <= length u
     <= Nat.min num_intervals (Z.to_nat q * length order))%nat.
Proof.
  intros Hm Hlen Hrows Hq.
  destruct dist_arr as [|r1 [|r2 rest]]; cbn [length] in Hlen; try lia.
  set (arr := r1 :: r2 :: rest) in *.
  set (tops := map (fun row => top_indices row q) arr).
  assert (Hsel : topq_select order arr q
                 = Ret (Steps1 (fold_left union1d
                                  (map (fun row => top_indices row q)
                                       (r2 :: rest))
                                  (top_indices r1 q)))).
  { unfold topq_select, argpartition_axis1. subst arr.
    rewrite argpartition_rows_ok.
    - rewrite map_map. destruct (Nat.ltb_spec 1 (length order)); [|lia].
      reflexivity.
    - eapply Forall_impl; [|exact Hrows]. cbn beta. intros row ->. lia. }
  eexists. split; [exact Hsel|].
  set (u := fold_left union1d _ _).
  assert (Hin : forall i, In i u <->
                          exists row, In row arr /\ In i (top_indices row q)).
  { intros i. subst u. rewrite fold_union1d_In. split.
    - intros [H|[r [Hr Hi]]].
      + exists r1. split; [now left | exact H].
      + apply in_map_iff in Hr. destruct Hr as [row [<- Hrow]].
        exists row. split; [now right | exact Hi].
    - intros [row [[<-|Hrow] Hi]]; [now left|].
      right. exists (top_indices row q). split; [|exact Hi].
      apply in_map_iff. now exists row. }
  assert (Hrow : forall row, In row arr ->
                             (1 <= q <= Z.of_nat (length row))%Z).
  { intros row Hr. rewrite Forall_forall in Hrows. rewrite (Hrows row Hr).
    exact Hq. }
  assert (Hnd : NoDup u).
  { apply sorted_lt_NoDup. subst u. cbn [map fold_left].
    apply fold_union1d_sorted. apply unique_sorted. }
  split; [exact Hin|]. split; [exact Hnd|]. split.
  - rewrite <- (@top_indices_length r1 q) by (apply Hrow; now left).
    apply NoDup_incl_length; [apply top_indices_NoDup|].
    intros i Hi. apply Hin. exists r1. split; [now left | exact Hi].
  - apply Nat.min_glb.
    + rewrite <- (length_seq num_intervals 0).
      apply NoDup_incl_length; [exact Hnd|].
      intros i Hi. apply Hin in Hi. destruct Hi as [row [Hr Hi]].
      apply top_indices_incl in Hi. rewrite Forall_forall in Hrows.
      rewrite (Hrows row Hr) in Hi. apply in_seq. lia.
    + assert (Hc : length (concat tops)
                   = (Z.to_nat q * length order)%nat).
      { rewrite (@length_concat_const _ tops (Z.to_nat q)).
        - subst tops. rewrite length_map. subst arr. cbn [length]. lia.
        - subst tops. apply Forall_forall. intros l Hl.
          apply in_map_iff in Hl. destruct Hl as [row [<- Hr]].
          now apply top_indices_length, Hrow. }
      rewrite <- Hc. apply NoDup_incl_length; [exact Hnd|].
      intros i Hi. apply Hin in Hi. destruct Hi as [row [Hr Hi]].
      apply in_concat. exists (top_indices row q). split; [|exact Hi].
      subst tops. apply in_map_iff. now exists row.
Qed.

(** X5.  When the first epoch holds at least one checkpoint interval and
    fewer than [q], [verify_topq] stops with the [ValueError] of
    [np.argpartition] right after the ranking of that epoch: no interval
    has been replayed, and no verdict has been logged. *)
Theorem verify_topq_too_few_intervals (network hyper : Type)
    (train : hyper -> model network -> list Z -> network)
    (distance : hyper -> model network -> model network -> metric -> float)
    (sequence : list Z) (h : hyper) (save_freq : Z)
    (args : metric_args) (epochs q : Z) (c : float) :
  let order := fst (metric_lists args) in
  let threshold := snd (metric_lists args) in
  (1 <= epochs)%Z ->
  length threshold = length order -> order <> [] ->
  ckpt_per_epoch (Z.of_nat (length sequence)) epochs save_freq = Ret c ->
  (0 < epoch_bound c 1 - epoch_bound c 0 < q)%Z ->
  let run := verify_topq train distance true sequence h save_freq args
               epochs q in
  fst run = Raise ValueError /\
  (forall m s, ~ In (Train m s) (snd run)) /\
  (forall m, In (Log _ m) (snd run) -> m = MsgEpoch 1 epochs).
Proof.
  intros order threshold He Hlen Ho Hc Hq run.
  destruct (verify_topq_guards train distance true sequence h save_freq
              args epochs q) as [[e [Hr Hwhy]]|[_ [_ [c' [Hc' Hr]]]]];
    fold order threshold in Hr; subst run; rewrite Hr; clear Hr.
  { exfalso. fold order threshold in Hwhy. destruct Hwhy as [H|[H|H]]; congruence. }
  rewrite Hc in Hc'. injection Hc' as <-.
  destruct (range_first He) as [rest Hrange].
  rewrite Hrange, for_each_cons.
  assert (Hb : epoch_body train distance h sequence save_freq order threshold
                 epochs q c [] 0
               = (Raise ValueError,
                  Log _ (MsgEpoch 1 epochs)
                  :: TopQEpoch.rank_events network sequence save_freq order
                       (epoch_bound c 0)
                       (range2 (epoch_bound c 0) (epoch_bound c 1)))).
  { unfold epoch_body.
    rewrite (@topq_epoch_short _ _ train distance h sequence save_freq order
               threshold q (epoch_bound c 0) (epoch_bound c (0 + 1)) [] Ho Hq).
    reflexivity. }
  rewrite Hb. unfold bind. cbn [fst snd].
  split; [reflexivity|]. split.
  - intros m s [Hin|Hin]; [discriminate|].
    unfold TopQEpoch.rank_events in Hin. apply in_map_iff in Hin.
    destruct Hin as [i [Hi _]]. discriminate.
  - intros m [Hin|Hin]; [now inversion Hin|].
    unfold TopQEpoch.rank_events in Hin. apply in_map_iff in Hin.
    destruct Hin as [i [Hi _]]. discriminate.
Qed.

(** The toy trajectory of eight steps checkpointed every two steps, in two
    epochs of two intervals, with [q = 3]. *)
Lemma verify_topq_too_few_intervals_witness :
  let run := verify_topq Toy.train Toy.distance true
               [0; 1; 2; 3; 4; 5; 6; 7]%Z tt 2
               (Many Toy.two_metrics [1; 10]%Q) 2 3 in
  fst run = Raise ValueError /\
  (forall m s, ~ In (Train m s) (snd run)) /\
  (forall m, In (Log _ m) (snd run) -> m = MsgEpoch 1 2).
Proof.
  apply (@verify_topq_too_few_intervals Z unit Toy.train Toy.distance
           [0; 1; 2; 3; 4; 5; 6; 7]%Z tt 2 (Many Toy.two_metrics [1; 10]%Q)
           2 3 (inject_Z 8 / inject_Z 2 / inject_Z 2)%Q).
  - lia.
  - reflexivity.
  - discriminate.
  - reflexivity.
  - vm_compute. split; reflexivity.
Defined.

(** X6.  An epoch of [verify_topq] with at least two metrics and at least
    [q >= 1] intervals completes.  It calls the training function once per
    selected interval and for no other: each call starts from the recorded
    checkpoint at the start of its interval and replays the indices of that
    interval, no interval is replayed twice, and the number of replays is
    at least [q] and at most [min(num_intervals, q * num_metrics)]. *)
Theorem topq_epoch_replays_selected (network hyper : Type)
    (train : hyper -> model network -> list Z -> network)
    (distance : hyper -> model network -> model network -> metric -> float)
    (h : hyper) (sequence : list Z) (save_freq : Z) (order : list metric)
    (threshold : list float) (q start stop : Z) (res : list pyvalue) :
  (1 < length order)%nat ->
  length threshold = length order ->
  (1 <= q <= stop - start)%Z ->
  exists u v w,
    topq_epoch train distance h sequence save_freq order threshold q
      start stop res = (Ret v, w) /\
    topq_select order
      (rank_rows distance h sequence save_freq order start stop) q
      = Ret (Steps1 u) /\
    trained w
    = map (fun ind =>
             let step := ((start + Z.of_nat ind) * save_freq)%Z in
             (Checkpoint network step, interval_slice sequence save_freq step))
          u /\
    NoDup u /\
    (forall ind, In ind u -> (Z.of_nat ind < stop - start)%Z) /\
    (Z.to_nat q <= length u
     <= Nat.min (Z.to_nat (stop - start)) (Z.to_nat q * length order))%nat.
Proof.
  intros Hm Hlen Hq.
  destruct (@topq_select_many order
              (rank_rows distance h sequence save_freq order start stop) q
              (Z.to_nat (stop - start)) Hm)
    as [u [Hsel [Hin [Hnd Hsize]]]].
  { unfold rank_rows. now rewrite length_map. }
  { apply rank_rows_length. }
  { lia. }
  unfold topq_epoch. rewrite topq_phase1_eq, bind_Ret. cbn [fst snd].
  fold (rank_rows distance h sequence save_freq order start stop).
  fold (TopQEpoch.rank_events network sequence save_freq order start
          (range2 start stop)).
  rewrite Hsel. unfold lift. rewrite bind_Ret. cbn [fst snd app].
  unfold topq_phase2. cbn [iterate].
  change (empty_rows order) with (map (fun _ : metric => @nil float) order).
  match goal with
  | |- context [for_each _ _ (?r, map ?gg order)] =>
      destruct (@topq_phase2_ints _ _ train distance h sequence save_freq
                  order start u r gg) as [res' [g' H2]]
  end.
  rewrite H2, bind_Ret, topq_report_loop, bind_Ret.
  unfold ret. cbn [fst snd]. rewrite app_nil_r.
  exists u. eexists. eexists. split; [reflexivity|].
  split; [reflexivity|]. split; [|split; [exact Hnd|split; [|exact Hsize]]].
  - rewrite !trained_app, trained_rank_events, trained_report, app_nil_r.
    cbn [app]. rewrite trained_intervals, map_map. reflexivity.
  - intros ind Hi. apply Hin in Hi. destruct Hi as [row [Hrow Hi]].
    apply top_indices_incl in Hi.
    pose proof (rank_rows_length distance h sequence save_freq order
                  start stop) as Hl.
    rewrite Forall_forall in Hl. rewrite (Hl row Hrow) in Hi. lia.
Qed.

(** The first epoch of the toy trajectory of eight steps: two metrics, two
    intervals, [q = 1]. *)
Lemma topq_epoch_replays_selected_witness :
  exists u v w,
    topq_epoch Toy.train Toy.distance tt [0; 1; 2; 3; 4; 5; 6; 7]%Z 2
      Toy.two_metrics [1; 10]%Q 1 0 2 [] = (Ret v, w) /\
    topq_select Toy.two_metrics
      (rank_rows Toy.distance tt [0; 1; 2; 3; 4; 5; 6; 7]%Z 2
         Toy.two_metrics 0 2) 1
      = Ret (Steps1 u) /\
    trained w
    = map (fun ind =>
             let step := ((0 + Z.of_nat ind) * 2)%Z in
             (Checkpoint Z step,
              interval_slice [0; 1; 2; 3; 4; 5; 6; 7]%Z 2 step))
          u /\
    NoDup u /\
    (forall ind, In ind u -> (Z.of_nat ind < 2 - 0)%Z) /\
    (Z.to_nat 1 <= length u
     <= Nat.min (Z.to_nat (2 - 0)) (Z.to_nat 1 * length Toy.two_metrics))%nat.
Proof.
  apply (@topq_epoch_replays_selected Z unit Toy.train Toy.distance tt
           [0; 1; 2; 3; 4; 5; 6; 7]%Z 2 Toy.two_metrics [1; 10]%Q 1 0 2 []).
  - cbn. lia.
  - reflexivity.
  - lia.
Defined.

End TopQReplay.

(* ===================================================================== *)
(** * The Top-Q Verifier: a single metric, and the end of the trajectory *)
(* ===================================================================== *)

Module TopQCoverage.
Import Py.
Local Open Scope run_scope.
Import PyFacts Verify VerifyAllFacts TopQRanking TopQSelection TopQEpoch.
Import TraceFacts VerifyAllReplay TopQBounds TopQReplay.

Lemma nth_range2 (start stop : Z) (j : nat) d :
  (Z.of_nat j < stop - start)%Z ->
  nth j (range2 start stop) d = (start + Z.of_nat j)%Z.
Proof.
  intros Hj. unfold range2.
  rewrite (nth_indep _ d (start + Z.of_nat 0)%Z)
    by (rewrite length_map, length_seq; lia).
  rewrite (map_nth (fun k => (start + Z.of_nat k)%Z)).
  rewrite seq_nth by lia. reflexivity.
Qed.

Lemma In_range2 (start stop i : Z) :
  In i (range2 start stop) <-> (start <= i < stop)%Z.
Proof.
  unfold range2. rewrite in_map_iff. split.
  - intros [k [<- Hk]]. apply in_seq in Hk. lia.
  - intros Hi. exists (Z.to_nat (i - start)). split; [lia|].
    apply in_seq. lia.
Qed.

(** X7.  An epoch of [verify_topq] with a single metric and [q = 1], on at
    least one interval, completes: it replays exactly one interval, from
    its recorded start checkpoint, and this interval is one whose recorded
    update is the largest of the epoch. *)
Theorem topq_epoch_single_metric_replays_largest (network hyper : Type)
    (train : hyper -> model network -> list Z -> network)
    (distance : hyper -> model network -> model network -> metric -> float)
    (h : hyper) (sequence : list Z) (save_freq : Z) (o : metric)
    (thr : float) (start stop : Z) (res : list pyvalue) :
  (start < stop)%Z ->
  exists ind v w,
    topq_epoch train distance h sequence save_freq [o] [thr] 1 start stop res
      = (Ret v, w) /\
    (start <= ind < stop)%Z /\
    (forall j, (start <= j < stop)%Z ->
       (recorded_distance distance h sequence save_freq start j o
        <= recorded_distance distance h sequence save_freq start ind o)%Q) /\
    trained w
    = [(Checkpoint network (ind * save_freq),
        interval_slice sequence save_freq (ind * save_freq))].
Proof.
  intros Hlt.
  set (row := map (fun i => recorded_distance distance h sequence save_freq
                              start i o) (range2 start stop)).
  assert (Hlen : length row = Z.to_nat (stop - start)).
  { subst row. unfold range2. now rewrite !length_map, length_seq. }
  assert (Hq : (1 <= 1 <= Z.of_nat (length row))%Z) by lia.
  pose proof (top_indices_length row Hq) as Htl.
  destruct (top_indices row 1) as [|i0 [|i1 rest]] eqn:Htop;
    cbn in Htl; try lia. clear Htl.
  assert (Hi0 : (i0 < length row)%nat).
  { apply (@top_indices_incl row 1). rewrite Htop. now left. }
  assert (Hnth : forall j, (j < length row)%nat ->
            nth j row 0%Q
            = recorded_distance distance h sequence save_freq start
                (start + Z.of_nat j) o).
  { intros j Hj. subst row.
    rewrite (nth_indep _ 0%Q
               (recorded_distance distance h sequence save_freq start 0%Z o))
      by exact Hj.
    rewrite (map_nth (fun i => recorded_distance distance h sequence
                                 save_freq start i o)).
    rewrite nth_range2 by lia. reflexivity. }
  assert (Hsel : topq_select [o] [row] 1 = Ret (Steps2 [[i0]])).
  { unfold topq_select, argpartition_axis1. cbn [argpartition_rows].
    rewrite argpartition_in_bounds by lia. pose proof Htop as Htop'.
    unfold top_indices in Htop'.
    cbn [map length Nat.ltb Nat.leb].
    rewrite Htop'. reflexivity. }
  exists (start + Z.of_nat i0)%Z. eexists. eexists.
  split; [|split; [lia|split]].
  - unfold topq_epoch. rewrite topq_phase1_eq, bind_Ret. cbn [fst snd map].
    fold row. rewrite Hsel. unfold lift. rewrite bind_Ret. cbn [fst snd app].
    unfold topq_phase2. cbn [iterate map].
    change (empty_rows [o]) with (map (fun _ : metric => @nil float) [o]).
    rewrite for_each_cons, topq_check_step_eq.
    cbn [np_add np_mul int_of map]. rewrite bind_Ret.
    cbn [for_each]. unfold ret. cbn [fst snd].
    rewrite bind_Ret, topq_report_loop, bind_Ret. cbn [fst snd].
    reflexivity.
  - intros j Hj.
    replace j with (start + Z.of_nat (Z.to_nat (j - start)))%Z by lia.
    rewrite <- !Hnth by lia.
    destruct (Nat.eq_dec (Z.to_nat (j - start)) i0) as [->|Hne];
      [apply Qle_refl|].
    apply (@top_indices_highest row 1); [rewrite Htop; now left | lia |].
    rewrite Htop. intros [E|[]]. congruence.
  - rewrite !app_nil_r, !trained_app.
    fold (TopQEpoch.rank_events network sequence save_freq [o] start
            (range2 start stop)).
    rewrite trained_rank_events, trained_report, app_nil_r. reflexivity.
Qed.

(** The first epoch of the toy trajectory of eight steps, whose second
    interval ends at the tampered checkpoint. *)
Lemma topq_epoch_single_metric_replays_largest_witness :
  exists ind v w,
    topq_epoch Toy.train Toy.distance tt [0; 1; 2; 3; 4; 5; 6; 7]%Z 2
      ["1"%string] [1%Q] 1 0 2 [] = (Ret v, w) /\
    (0 <= ind < 2)%Z /\
    (forall j, (0 <= j < 2)%Z ->
       (recorded_distance Toy.distance tt [0; 1; 2; 3; 4; 5; 6; 7]%Z 2 0 j
          "1"%string
        <= recorded_distance Toy.distance tt [0; 1; 2; 3; 4; 5; 6; 7]%Z 2 0
             ind "1"%string)%Q) /\
    trained w
    = [(Checkpoint Z (ind * 2),
        interval_slice [0; 1; 2; 3; 4; 5; 6; 7]%Z 2 (ind * 2))].
Proof.
  apply (@topq_epoch_single_metric_replays_largest Z unit Toy.train
           Toy.distance tt [0; 1; 2; 3; 4; 5; 6; 7]%Z 2 "1"%string 1%Q 0 2 []).
  lia.
Defined.

(** ** What no epoch looks at *)

Lemma In_firstn {A} (x : A) k l : In x (firstn k l) -> In x l.
Proof.
  revert l. induction k as [|k IH]; intros [|y l] H; cbn in *; try contradiction.
  destruct H as [H|H]; [now left | right; now apply IH].
Qed.

Lemma In_skipn {A} (x : A) k l : In x (skipn k l) -> In x l.
Proof.
  revert l. induction k as [|k IH]; intros [|y l] H; cbn in *;
    try contradiction; try exact H.
  right. now apply IH.
Qed.

Lemma In_slice {A} (x : A) l lo hi : In x (slice l lo hi) -> In x l.
Proof. unfold slice. intros H. apply In_firstn in H. now apply In_skipn in H. Qed.

Lemma argpartition_rows_Ret arr kth parts :
  argpartition_rows arr kth = Ret parts -> parts = map argsort arr.
Proof.
  revert parts. induction arr as [|row arr IH]; intros parts H; cbn in H.
  - now inversion H.
  - destruct (argpartition row kth) as [r|e] eqn:Hr; [|discriminate].
    apply argpartition_Ret in Hr. destruct Hr as [-> _].
    destruct (argpartition_rows arr kth) as [rs|e]; [|discriminate].
    inversion H. cbn. f_equal. now apply IH.
Qed.

Lemma In_argsort row i : In i (argsort row) -> (i < length row)%nat.
Proof.
  intros H. apply (Permutation_in _ (argsort_perm row)) in H.
  apply in_seq in H. lia.
Qed.

(** An index met by the deep-check loop is below the number of columns. *)
Definition item_below (bound : Z) (item : npitem) : Prop :=
  match item with
  | NpInt i => (0 <= i < bound)%Z
  | NpRow xs => Forall (fun x => (0 <= x < bound)%Z) xs
  end.

Lemma topq_select_items (order : list metric) (arr : list (list float))
    (q : Z) (steps : steps_array) (width : nat) :
  topq_select order arr q = Ret steps ->
  Forall (fun row => length row = width) arr ->
  Forall (item_below (Z.of_nat width)) (iterate steps).
Proof.
  intros Hsel Hrows. unfold topq_select, argpartition_axis1 in Hsel.
  destruct arr as [|row0 arr0]; [discriminate|].
  set (arr := row0 :: arr0) in *.
  destruct (argpartition_rows arr (- q)) as [parts|e] eqn:Hp; [|discriminate].
  apply argpartition_rows_Ret in Hp. subst parts.
  assert (Hin : forall r i,
            In r (map (fun r => slice r (- q) None) (map argsort arr)) ->
            In i r -> (i < width)%nat).
  { intros r i Hr Hi. rewrite map_map in Hr. apply in_map_iff in Hr.
    destruct Hr as [row [<- Hrow]]. apply In_slice, In_argsort in Hi.
    rewrite Forall_forall in Hrows. now rewrite <- (Hrows row Hrow). }
  destruct (1 <? length order)%nat.
  - destruct (reduce union1d _) as [u|e] eqn:Hu; [|discriminate].
    inversion Hsel; subst steps; clear Hsel.
    cbn [iterate]. apply Forall_forall. intros item Hitem.
    apply in_map_iff in Hitem. destruct Hitem as [i [<- Hi]]. cbn.
    unfold reduce in Hu. subst arr. cbn [map] in Hu, Hin.
    inversion Hu; subst u; clear Hu.
    apply fold_union1d_In in Hi.
    assert (i < width)%nat; [|lia].
    destruct Hi as [Hi|[r [Hr Hi]]].
    + apply (Hin _ i (or_introl eq_refl) Hi).
    + apply (Hin r i (or_intror Hr) Hi).
  - inversion Hsel; subst steps; clear Hsel.
    cbn [iterate]. apply Forall_forall. intros item Hitem.
    apply in_map_iff in Hitem. destruct Hitem as [r [<- Hr]]. cbn.
    apply Forall_forall. intros x Hx. apply in_map_iff in Hx.
    destruct Hx as [i [<- Hi]].
    assert (i < width)%nat; [|lia]. exact (Hin r i Hr Hi).
Qed.

Section Tail.

Variables (network hyper : Type).
Variable train : hyper -> model network -> list Z -> network.
Variable distance : hyper -> model network -> model network -> metric -> float.
Variables (h : hyper) (sequence : list Z) (save_freq : Z).

Let n := Z.of_nat (length sequence).

(** The events of a run that stays below the step [covered]: every replay
    starts from a recorded checkpoint and replays [save_freq] indices
    before position [covered], and no comparison involves the checkpoint
    of the last step. *)
Definition below (covered : Z) (e : event network) : Prop :=
  match e with
  | Train m s =>
      exists step, (0 <= step)%Z /\ (step + save_freq <= covered)%Z /\
                   m = Checkpoint _ step /\
                   s = slice sequence step (Some (step + save_freq)%Z)
  | Distance a b _ => a <> Checkpoint _ n /\ b <> Checkpoint _ n
  | Log _ _ => True
  end.

Variable covered : Z.
Hypothesis Hsf : (0 < save_freq)%Z.
Hypothesis Hcov : (covered < n)%Z.

Lemma rank_events_below (order : list metric) (start stop : Z) :
  (0 <= start)%Z -> (stop * save_freq <= covered)%Z ->
  Forall (below covered)
    (TopQEpoch.rank_events network sequence save_freq order start
       (range2 start stop)).
Proof.
  intros Hs Hstop. apply Forall_forall. intros e He.
  apply in_map_iff in He. destruct He as [i [<- Hi]].
  apply In_range2 in Hi. cbn.
  assert (Hend : forall k, (start <= k < stop)%Z ->
                           end_step sequence save_freq k
                           = ((k + 1) * save_freq)%Z).
  { intros k Hk. unfold end_step. fold n.
    destruct (Z.geb_spec ((k + 1) * save_freq) n); [nia | reflexivity]. }
  split.
  - unfold start_step. destruct (Z.eqb_spec i start).
    + intros E. inversion E. nia.
    + rewrite Hend by lia. intros E. inversion E. nia.
  - rewrite Hend by lia. intros E. inversion E. nia.
Qed.

Lemma check_step_below (order : list metric) (start width : Z)
    (st : topq_state) (ind : npitem) :
  (0 <= start)%Z -> ((start + width) * save_freq <= covered)%Z ->
  item_below width ind ->
  Forall (below covered)
    (snd (topq_check_step train distance h sequence save_freq order start
            st ind)).
Proof.
  intros Hs Hw Hind. unfold topq_check_step.
  destruct (int_of (np_mul (np_add start ind) save_freq)) as [step|e] eqn:Hi;
    [|constructor].
  assert (Hstep : (0 <= step)%Z /\ (step + save_freq <= covered)%Z).
  { destruct ind as [i|xs]; cbn in Hi, Hind.
    - inversion Hi; subst step. nia.
    - destruct xs as [|x [|y xs]]; try discriminate.
      cbn in Hi. inversion Hi; subst step.
      inversion Hind as [|? ? Hx _]; subst. nia. }
  destruct Hstep as [H0 H1]. fold n.
  unfold lift. rewrite bind_Ret. cbn [fst snd app].
  destruct (Z.geb_spec (step + save_freq) n); [lia|].
  unfold call_train, call_distance, bind, emit, ret. cbn [fst snd app].
  constructor; [|constructor; [|constructor]].
  - exists step. repeat split; assumption.
  - split; [|discriminate]. intros E. inversion E. lia.
Qed.

Lemma topq_epoch_below (order : list metric) (threshold : list float)
    (q start stop : Z) (res : list pyvalue) :
  (0 <= start)%Z -> (stop * save_freq <= covered)%Z ->
  Forall (below covered)
    (snd (topq_epoch train distance h sequence save_freq order threshold q
            start stop res)).
Proof.
  intros Hs Hstop. unfold topq_epoch.
  rewrite topq_phase1_eq. apply bind_Forall; cbn [fst snd].
  { apply rank_events_below; assumption. }
  intros st1 Hst1. inversion Hst1; subst st1; clear Hst1. cbn [fst snd].
  fold (rank_rows distance h sequence save_freq order start stop).
  destruct (topq_select order
              (rank_rows distance h sequence save_freq order start stop) q)
    as [steps|e] eqn:Hsel; [|constructor].
  unfold lift. rewrite bind_Ret. cbn [fst snd app].
  pose proof (@topq_select_items order _ q steps _ Hsel
                (rank_rows_length distance h sequence save_freq order
                   start stop)) as Hitems.
  apply bind_Forall.
  - unfold topq_phase2.
    apply (@for_each_Forall _ _ _ (below covered) (fun _ => True));
      [|exact I].
    intros st ind Hin _. split; [|auto].
    rewrite Forall_forall in Hitems. specialize (Hitems ind Hin).
    destruct (Z.le_gt_cases stop start) as [Hle|Hgt].
    + (* an epoch without interval: the only item is the empty row of a
         single metric, on which [int] raises *)
      replace (Z.to_nat (stop - start)) with 0%nat in Hitems by lia.
      destruct ind as [i|xs]; cbn in Hitems; [lia|].
      destruct xs as [|x xs].
      * rewrite topq_check_step_row by (cbn; lia). constructor.
      * inversion Hitems; subst. lia.
    + apply (@check_step_below order start (stop - start));
        [assumption | |].
      * replace (start + (stop - start))%Z with stop by lia. exact Hstop.
      * replace (Z.of_nat (Z.to_nat (stop - start))) with (stop - start)%Z
          in Hitems by lia.
        exact Hitems.
  - intros st2 _. apply bind_Forall; [|intros; constructor].
    apply (@for_each_Forall _ _ _ (below covered) (fun _ => True));
      [|exact I].
    intros [] [o [thr row]] _ _. split; [|auto].
    unfold topq_report. cbn. repeat constructor.
Qed.

End Tail.

Lemma np_round_div_low (n sf : Z) :
  (0 < sf)%Z -> (2 * (n mod sf) < sf)%Z ->
  np_round (inject_Z n / inject_Z sf)%Q = (n / sf)%Z.
Proof.
  intros Hsf Hr. unfold np_round.
  rewrite (Qfloor_inject_div n Hsf). destruct sf as [|p|p]; try lia.
  assert (Hc : ((inject_Z n / inject_Z (Z.pos p) - inject_Z (n / Z.pos p))
                ?= (1 # 2))%Q = Lt).
  { apply (proj1 (Qlt_alt _ _)).
    unfold Qlt, Qminus, Qplus, Qopp, Qdiv, Qinv, Qmult, inject_Z. cbn.
    pose proof (Z.div_mod n (Z.pos p) ltac:(lia)) as Hdm.
    pose proof (Z.mod_pos_bound n (Z.pos p) ltac:(lia)) as Hb.
    rewrite !Z.mul_1_r. rewrite ?Pos.mul_1_r. nia. }
  rewrite Hc. reflexivity.
Qed.

(** X8.  When the length of the index sequence is not a multiple of
    [save_freq] and the remainder is less than half of [save_freq], the
    epochs of [verify_topq] end at interval [len(sequence) // save_freq]:
    whatever the metrics, the thresholds and [q], no call to the Distance
    Engine involves the checkpoint of the last step,
    [model_step_{len(sequence)}], and every replay starts from a recorded
    checkpoint and covers [save_freq] indices that lie before position
    [(len(sequence) // save_freq) * save_freq]; the indices after that
    position are never replayed. *)
Theorem verify_topq_skips_short_tail (network hyper : Type)
    (train : hyper -> model network -> list Z -> network)
    (distance : hyper -> model network -> model network -> metric -> float)
    (dir_exists : bool) (sequence : list Z) (h : hyper) (save_freq : Z)
    (args : metric_args) (epochs q : Z) :
  let n := Z.of_nat (length sequence) in
  (1 <= epochs)%Z -> (0 < save_freq)%Z ->
  (0 < 2 * (n mod save_freq) < save_freq)%Z ->
  let run := verify_topq train distance dir_exists sequence h save_freq args
               epochs q in
  let covered := (n / save_freq * save_freq)%Z in
  (covered < n)%Z /\
  (forall m s, In (Train m s) (snd run) ->
     exists step, (0 <= step)%Z /\ (step + save_freq <= covered)%Z /\
                  m = Checkpoint _ step /\
                  s = slice sequence step (Some (step + save_freq)%Z)) /\
  (forall a b o, In (Distance a b o) (snd run) ->
     a <> Checkpoint _ n /\ b <> Checkpoint _ n).
Proof.
  intros n He Hsf Hrem run covered.
  assert (Hcov : (covered < n)%Z).
  { subst covered. pose proof (Z.div_mod n save_freq ltac:(lia)). nia. }
  assert (Hall : Forall (below sequence save_freq covered) (snd run)).
  { subst run.
    destruct (verify_topq_guards train distance dir_exists sequence h
                save_freq args epochs q)
      as [[e [Hr _]]|[_ [_ [c [Hc Hr]]]]]; rewrite Hr; [constructor|].
    fold n in Hc.
    assert (Hn0 : (0 <= n)%Z) by lia.
    assert (Hsf1 : (1 <= save_freq)%Z) by lia.
    pose proof (fun e => @epoch_bound_range n epochs save_freq c Hn0 He Hsf1
                           Hc e) as Hb.
    assert (Hlow : np_round (inject_Z n / inject_Z save_freq)%Q
                   = (n / save_freq)%Z)
      by (apply np_round_div_low; lia).
    rewrite Hlow in Hb.
    apply (@for_each_Forall _ _ _ (below sequence save_freq covered)
             (fun _ => True)); [|exact I].
    intros res epoch Hin _. split; [|auto].
    apply In_range2 in Hin. destruct (Hb epoch ltac:(lia)) as [[H0 H1] H2].
    unfold epoch_body. apply bind_Forall; [repeat constructor|].
    intros _ _. apply topq_epoch_below; try assumption.
    subst covered. nia. }
  split; [exact Hcov|]. rewrite Forall_forall in Hall. split.
  - intros m s Hin. exact (Hall _ Hin).
  - intros a b o Hin. exact (Hall _ Hin).
Qed.

(** The toy trajectory of seven steps checkpointed every three steps: the
    seventh index is never replayed, and the checkpoint of step 7 never
    compared. *)
Lemma verify_topq_skips_short_tail_witness :
  let run := verify_topq Toy.train Toy.distance true [0; 1; 2; 3; 4; 5; 6]%Z
               tt 3 (Many Toy.two_metrics [1; 10]%Q) 1 1 in
  (6 < 7)%Z /\
  (forall m s, In (Train m s) (snd run) ->
     exists step, (0 <= step)%Z /\ (step + 3 <= 6)%Z /\
                  m = Checkpoint _ step /\
                  s = slice [0; 1; 2; 3; 4; 5; 6]%Z step (Some (step + 3)%Z)) /\
  (forall a b o, In (Distance a b o) (snd run) ->
     a <> Checkpoint _ 7%Z /\ b <> Checkpoint _ 7%Z).
Proof.
  apply (@verify_topq_skips_short_tail Z unit Toy.train Toy.distance true
           [0; 1; 2; 3; 4; 5; 6]%Z tt 3 (Many Toy.two_metrics [1; 10]%Q) 1 1).
  - lia.
  - lia.
  - cbn. lia.
Defined.

End TopQCoverage.

(* ===================================================================== *)
(** * The Initialization Verifier: which parameters are tested *)
(* ===================================================================== *)

Module InitCoverage.
Import Py.
Local Open Scope run_scope.
Import PyFacts Verify InitFacts.

Lemma dict_get_Raise {V} key (d : list (String.string * V)) e :
  dict_get key d = Raise e -> e = KeyError /\ ~ In key (keys d).
Proof.
  induction d as [|[k v] d IH]; cbn.
  - intros H. inversion H. split; [reflexivity | auto].
  - destruct (String.eqb_spec key k) as [->|Hne]; [discriminate|].
    intros H. destruct (IH H) as [He Hnin]. split; [exact He|].
    intros [E|Hin]; [congruence | contradiction].
Qed.

Lemma dict_get_In {V} key (d : list (String.string * V)) :
  In key (keys d) -> exists v, dict_get key d = Ret v.
Proof.
  induction d as [|[k v] d IH]; cbn; [contradiction|].
  destruct (String.eqb_spec key k) as [->|Hne]; [eauto|].
  intros [E|Hin]; [congruence | now apply IH].
Qed.

Section Coverage.

Local Open Scope string_scope.

Variable tensor : Type.
Variable ndim : tensor -> nat.
Variable check : init_arg tensor -> String.string -> float.
Variable n : net tensor.

(** The key under which the weight of a bias parameter is looked up. *)
Definition weight_key (name : String.string) : String.string :=
  replace "bias" "weight" name.

(** A bias parameter whose weight is not in the state dictionary. *)
Definition orphan_bias (name : String.string) : Prop :=
  contains "bias" name = true /\ ~ In (weight_key name) (keys (state_dict n)).

Lemma check_bias_cases name param :
  (exists p, check_bias check n name param = Ret [p]) \/
  (check_bias check n name param = Raise KeyError
   /\ ~ In (weight_key name) (keys (state_dict n))).
Proof.
  unfold check_bias. fold (weight_key name).
  destruct (dict_get (weight_key name) (state_dict n)) as [w|e] eqn:Hg.
  - left. eauto.
  - right. apply dict_get_Raise in Hg. destruct Hg as [-> Hnin]. auto.
Qed.

(** One parameter yields at most one p-value; the only exception is the
    [KeyError] of a bias whose weight is missing. *)
Lemma check_parameter_cases ty name param :
  (exists ps, check_parameter ndim check ty n (name, param) = Ret ps
              /\ (length ps <= 1)%nat) \/
  (check_parameter ndim check ty n (name, param) = Raise KeyError
   /\ orphan_bias name).
Proof.
  assert (Hb : contains "bias" name = true ->
               (exists ps, check_bias check n name param = Ret ps
                           /\ (length ps <= 1)%nat) \/
               (check_bias check n name param = Raise KeyError
                /\ orphan_bias name)).
  { intros Hbias. destruct (check_bias_cases name param) as [[p Hp]|[He Hnin]].
    - left. exists [p]. split; [exact Hp | cbn; lia].
    - right. split; [exact He | split; assumption]. }
  assert (Hnil : exists ps : list float, Ret (@nil float) = Ret ps
                                         /\ (length ps <= 1)%nat).
  { exists []. split; [reflexivity | cbn; lia]. }
  assert (Hone : forall p : float,
            exists ps : list float, Ret [p] = Ret ps /\ (length ps <= 1)%nat).
  { intros p. exists [p]. split; [reflexivity | cbn; lia]. }
  unfold check_parameter. destruct ty.
  - destruct (contains "fc" name || contains "conv" name
              || contains "linear" name); [|left; exact Hnil].
    destruct (contains "weight" name); [left; apply Hone|].
    destruct (contains "bias" name) eqn:E; [now apply Hb | left; exact Hnil].
  - destruct (Nat.eqb (ndim param) 4); [left; apply Hone|].
    destruct (contains "weight" name && contains "fc" name);
      [left; apply Hone|].
    destruct (contains "bias" name) eqn:E; cbn [andb]; [|left; exact Hnil].
    destruct (contains "fc" name || contains "linear" name);
      [now apply Hb | left; exact Hnil].
  - destruct (contains "weight" name && contains "conv" name);
      [left; apply Hone|].
    destruct (contains "weight" name && contains "fc" name);
      [left; apply Hone|].
    destruct (contains "bias" name) eqn:E; cbn [andb]; [|left; exact Hnil].
    destruct (contains "fc" name || contains "linear" name);
      [now apply Hb | left; exact Hnil].
  - destruct (contains "fc" name || contains "conv" name
              || contains "linear" name); [|left; exact Hnil].
    destruct (contains "weight" name); [left; apply Hone|].
    destruct (contains "bias" name) eqn:E; [now apply Hb | left; exact Hnil].
Qed.

(** The body of the loop over the named parameters. *)
Definition p_list_step (ty : model_type) (p_list : list float)
    (np : String.string * tensor) : run message (list float) :=
  ps <- lift (check_parameter ndim check ty n np) ;; ret (p_list ++ ps).

Lemma p_list_loop ty (params : list (String.string * tensor)) :
  forall acc,
    (exists p_list,
       for_each (p_list_step ty) params acc = (Ret (acc ++ p_list), [])
       /\ (length p_list <= length params)%nat) \/
    (for_each (p_list_step ty) params acc = (Raise KeyError, [])
     /\ exists name param, In (name, param) params /\ orphan_bias name).
Proof.
  induction params as [|[name param] params IH]; intros acc.
  - left. exists []. rewrite app_nil_r. split; [reflexivity | cbn; lia].
  - rewrite !for_each_cons.
    destruct (check_parameter_cases ty name param) as [[ps [Hps Hlen]]|[He Ho]].
    + assert (Hstep : p_list_step ty acc (name, param)
                      = (Ret (acc ++ ps), [])).
      { unfold p_list_step. rewrite Hps. reflexivity. }
      rewrite Hstep, !bind_Ret. cbn [fst snd app].
      destruct (IH (acc ++ ps)) as [[p_list [H Hl]]|[H [nm [pr [Hin Ho]]]]];
        rewrite H; cbn [fst snd].
      * left. exists (ps ++ p_list). rewrite app_assoc.
        split; [reflexivity|]. rewrite length_app. cbn [length]. lia.
      * right. split; [reflexivity|].
        exists nm, pr. split; [now right | exact Ho].
    + assert (Hstep : p_list_step ty acc (name, param) = (Raise KeyError, [])).
      { unfold p_list_step. rewrite He. reflexivity. }
      right. rewrite Hstep. split; [reflexivity|].
      exists name, param. split; [now left | exact Ho].
Qed.

(** Nothing is tested on a parameter that is neither four-dimensional nor
    named after a fully connected, convolutional or linear layer. *)
Lemma check_parameter_skipped ty name param :
  contains "fc" name = false -> contains "conv" name = false ->
  contains "linear" name = false -> ndim param <> 4%nat ->
  check_parameter ndim check ty n (name, param) = Ret [].
Proof.
  intros Hfc Hconv Hlin Hdim. unfold check_parameter.
  rewrite Hfc, Hconv, Hlin. rewrite !andb_false_r. cbn [orb].
  destruct (Nat.eqb_spec (ndim param) 4); [contradiction|].
  destruct ty; reflexivity.
Qed.

Lemma p_list_loop_skipped ty (params : list (String.string * tensor)) :
  (forall name param, In (name, param) params ->
     contains "fc" name = false /\ contains "conv" name = false /\
     contains "linear" name = false /\ ndim param <> 4%nat) ->
  forall acc, for_each (p_list_step ty) params acc = (Ret acc, []).
Proof.
  induction params as [|[name param] params IH]; intros Hall acc;
    [reflexivity|].
  rewrite for_each_cons.
  destruct (Hall name param (or_introl eq_refl)) as [H1 [H2 [H3 H4]]].
  assert (Hstep : p_list_step ty acc (name, param) = (Ret acc, [])).
  { unfold p_list_step.
    rewrite (@check_parameter_skipped ty name param H1 H2 H3 H4).
    unfold lift, ret, bind. cbn [fst snd app]. now rewrite app_nil_r. }
  rewrite Hstep, bind_Ret. cbn [fst snd app].
  rewrite IH; [reflexivity|]. intros nm pr Hin. apply Hall. now right.
Qed.

End Coverage.

Lemma compute_p_list_eq (tensor : Type) (ndim : tensor -> nat)
    (check : init_arg tensor -> String.string -> float)
    (model_name : String.string) (n : net tensor) :
  compute_p_list ndim check model_name n
  = for_each (p_list_step ndim check n (classify model_name))
      (named_parameters n) [].
Proof. reflexivity. Qed.

(** X9.  The computation of the p-values yields at most one p-value per
    named parameter, and the only way it can fail is the [KeyError] of a
    tested bias parameter for which the state dictionary holds no entry
    under the name obtained by replacing ['bias'] by ['weight']: it returns
    when no named parameter is such a bias, and when it raises there is
    one.  In both cases nothing has been logged. *)
Theorem compute_p_list_outcome (tensor : Type) (ndim : tensor -> nat)
    (check : init_arg tensor -> String.string -> float)
    (model_name : String.string) (n : net tensor) :
  let run := compute_p_list ndim check model_name n in
  ((forall name param, In (name, param) (named_parameters n) ->
                       ~ orphan_bias n name) ->
   exists p_list, run = (Ret p_list, [])
                  /\ (length p_list <= length (named_parameters n))%nat) /\
  (forall e w, run = (Raise e, w) ->
     e = KeyError /\ w = [] /\
     exists name param, In (name, param) (named_parameters n)
                        /\ orphan_bias n name).
Proof.
  intros run. subst run. rewrite compute_p_list_eq.
  destruct (p_list_loop ndim check n (classify model_name)
              (named_parameters n) [])
    as [[p_list [H Hl]]|[H [name [param [Hin Ho]]]]]; rewrite H.
  - split.
    + intros _. exists p_list. split; [reflexivity | exact Hl].
    + intros e w Hr. discriminate.
  - split.
    + intros Hall. exfalso. exact (Hall name param Hin Ho).
    + intros e w Hr. inversion Hr; subst.
      split; [reflexivity|]. split; [reflexivity|].
      exists name, param. split; assumption.
Qed.

Local Open Scope string_scope.

(** A linear layer whose bias is listed while the state dictionary holds
    no weight for it: the lookup raises. *)
Example compute_p_list_orphan_bias :
  compute_p_list (fun _ : unit => 1%nat) Toy.init_test "resnet20"
    {| named_parameters := [("conv1.weight", tt); ("linear.bias", tt)];
       state_dict := [("conv1.weight", tt); ("linear.bias", tt)] |}
  = (Raise KeyError, []).
Proof. reflexivity. Qed.

(** X10.  When no named parameter has ['fc'], ['conv'] or ['linear'] in its
    name and none is four-dimensional, no parameter is tested whatever the
    architecture name: the list of the p-values is empty, and
    [verify_initialization] raises the [ValueError] of [np.min] on an empty
    list, without a verdict, unless [verbose] is false, in which case it
    returns the empty list. *)
Theorem verify_initialization_nothing_tested (tensor : Type)
    (ndim : tensor -> nat)
    (check : init_arg tensor -> String.string -> float)
    (model_name : String.string) (n : net tensor)
    (threshold : option float) (verbose : option bool) :
  (forall name param, In (name, param) (named_parameters n) ->
     contains "fc" name = false /\ contains "conv" name = false /\
     contains "linear" name = false /\ ndim param <> 4%nat) ->
  compute_p_list ndim check model_name n = (Ret [], []) /\
  verify_initialization ndim check model_name n threshold verbose
  = match verbose with
    | Some false => (Ret [], [])
    | _ => (Raise ValueError, [])
    end.
Proof.
  intros Hnames.
  assert (Hp : compute_p_list ndim check model_name n = (Ret [], [])).
  { rewrite compute_p_list_eq. now apply p_list_loop_skipped. }
  split; [exact Hp|]. unfold verify_initialization. rewrite Hp, bind_Ret.
  destruct verbose as [[|]|]; reflexivity.
Qed.

(** A network whose layers are named [features] and [classifier]. *)
Lemma verify_initialization_nothing_tested_witness :
  let n := {| named_parameters := [("features.0.weight", tt);
                                   ("classifier.weight", tt)];
              state_dict := [("features.0.weight", tt);
                             ("classifier.weight", tt)] |} in
  compute_p_list (fun _ : unit => 2%nat) Toy.init_test "vgg11" n = (Ret [], [])
  /\ verify_initialization (fun _ : unit => 2%nat) Toy.init_test "vgg11" n
       None None
     = (Raise ValueError, []).
Proof.
  apply (@verify_initialization_nothing_tested unit (fun _ => 2%nat)
           Toy.init_test "vgg11"
           {| named_parameters := [("features.0.weight", tt);
                                   ("classifier.weight", tt)];
              state_dict := [("features.0.weight", tt);
                             ("classifier.weight", tt)] |} None None).
  intros name param [H|[H|[]]]; inversion H; subst; cbn; repeat split;
    discriminate.
Defined.

Local Close Scope string_scope.

End InitCoverage.

(* ===================================================================== *)
(** * The Hash Verifier: what the digest depends on *)
(* ===================================================================== *)

Module HashCoverage.
Import Py.
Local Open Scope run_scope.
Import PyFacts Verify.

Section Hash.

Variable sample : Type.
Variable sample_str : sample -> String.string.
Variable sha256_hexdigest : String.string -> String.string.

Lemma append_assoc (a b c : String.string) :
  String.append (String.append a b) c = String.append a (String.append b c).
Proof. induction a as [|ch a IH]; cbn; [reflexivity | now rewrite IH]. Qed.

Lemma append_empty_r (a : String.string) :
  String.append a String.EmptyString = a.
Proof. induction a as [|ch a IH]; cbn; [reflexivity | now rewrite IH]. Qed.

Lemma fold_update (l : list sample) : forall m,
  fold_left (fun m d => update m (sample_str d)) l m
  = String.append m (String.concat String.EmptyString (map sample_str l)).
Proof.
  induction l as [|d l IH]; intros m.
  - cbn. now rewrite append_empty_r.
  - cbn [fold_left map]. rewrite IH. unfold update. rewrite append_assoc.
    f_equal. destruct l as [|d' l']; cbn; [now rewrite append_empty_r|].
    reflexivity.
Qed.

(** The bytes hashed are the string forms of all the samples, put end to
    end. *)
Lemma hashed_bytes_concat (trainset : Dataset sample) (sequence : list Z) :
  hashed_bytes sample_str trainset sequence
  = String.concat String.EmptyString (map sample_str (data trainset)).
Proof. unfold hashed_bytes, sha256_new. cbn [dataset]. now rewrite fold_update. Qed.

End Hash.

(** X11.  [verify_hash] feeds the string forms of the samples to SHA-256
    one after the other, with nothing between them: the bytes hashed are
    their concatenation.  On an existing directory it logs exactly one
    line, the valid one exactly when the stored hash is the digest of this
    concatenation, and it raises nothing; and two datasets whose string
    forms concatenate to the same text get the same verdict, wherever the
    boundaries between their samples lie. *)
Theorem verify_hash_depends_on_concatenation (sample : Type)
    (sample_str : sample -> String.string)
    (sha256_hexdigest : String.string -> String.string)
    (dir_exists : bool) (sequence sequence' : list Z) (hash : String.string)
    (trainset trainset' : Dataset sample) :
  let text := fun d : Dataset sample =>
                String.concat String.EmptyString (map sample_str (data d)) in
  text trainset = text trainset' ->
  hashed_bytes sample_str trainset sequence = text trainset /\
  verify_hash sample_str sha256_hexdigest true sequence hash trainset
  = (Ret tt, [if String.eqb hash (sha256_hexdigest (text trainset))
              then MsgHashValid else MsgHashMismatch]) /\
  verify_hash sample_str sha256_hexdigest dir_exists sequence hash trainset
  = verify_hash sample_str sha256_hexdigest dir_exists sequence' hash
      trainset'.
Proof.
  intros text Heq. subst text. cbn beta in *.
  split; [apply hashed_bytes_concat|]. split.
  - unfold verify_hash. cbn [negb]. rewrite hashed_bytes_concat.
    destruct (String.eqb hash _); reflexivity.
  - unfold verify_hash. rewrite !hashed_bytes_concat. now rewrite Heq.
Qed.

Local Open Scope string_scope.

(** Two datasets that cut the text [abc] differently. *)
Lemma verify_hash_depends_on_concatenation_witness :
  let d1 := {| data := ["ab"; "c"] |} in
  let d2 := {| data := ["a"; "bc"] |} in
  hashed_bytes (fun s => s) d1 [0%Z] = "abc" /\
  verify_hash (fun s => s) (fun s => s) true [0%Z] "abc" d1
  = (Ret tt, [if String.eqb "abc" "abc" then MsgHashValid
              else MsgHashMismatch]) /\
  verify_hash (fun s => s) (fun s => s) true [0%Z] "abc" d1
  = verify_hash (fun s => s) (fun s => s) true [1%Z] "abc" d2.
Proof.
  apply (@verify_hash_depends_on_concatenation String.string (fun s => s)
           (fun s => s) true [0%Z] [1%Z] "abc"
           {| data := ["ab"; "c"] |} {| data := ["a"; "bc"] |}).
  reflexivity.
Defined.

Local Close Scope string_scope.

End HashCoverage.

(* ===================================================================== *)
(** * The Spoof Attacker: images, retries and the tally over all steps *)
(* ===================================================================== *)

Module SpoofCounts.
Import Py.
Local Open Scope run_scope.
Import PyFacts Spoof DictFacts SpoofFacts TraceFacts.

(** [start, start + 1, ..., start + k - 1] *)
Definition consec (start : Z) (k : nat) : list Z :=
  map (fun j => (start + Z.of_nat j)%Z) (seq 0 k).

Lemma consec_app start k1 k2 :
  consec start k1 ++ consec (start + Z.of_nat k1) k2 = consec start (k1 + k2).
Proof.
  unfold consec. rewrite seq_app, map_app. f_equal. cbn [Nat.add].
  rewrite (TopQBounds.map_seq_shift k2 _ k1). apply map_ext. intros j. lia.
Qed.

Lemma length_range (x : Z) : length (range x) = Z.to_nat x.
Proof.
  unfold range, range2. rewrite length_map, length_seq. f_equal. lia.
Qed.

Section Counts.

Variable tensor : Type.
Variable tadd tsub : tensor -> tensor -> tensor.
Variable tdiv : tensor -> Z -> tensor.
Variable tneg : tensor -> tensor.
Variable is_parameter : String.string -> bool.
Variable batch : Type.
Variable draw : nat -> batch.
Variable dummy : Type.
Variable zeros : args -> dummy.
Variable lbfgs_step : state_dict tensor -> batch -> dummy -> dummy.
Variable closure : state_dict tensor -> batch -> dummy -> float.
Variable sq_sum : dummy -> float.
Variable sgd : Type.
Variable sgd_new : state_dict tensor -> sgd.
Variable sgd_step :
  state_dict tensor * sgd -> batch -> dummy -> Z -> state_dict tensor * sgd.
Variable distance : list tensor -> list tensor -> metric -> float.
Variable a : args.

Abbreviation vars := (Spoof.vars tensor batch dummy).
Abbreviation ev := (event (state_dict tensor)).
Abbreviation retry_loop :=
  (Spoof.retry_loop draw zeros lbfgs_step closure sq_sum a).
Abbreviation cut_step :=
  (Spoof.cut_step draw zeros lbfgs_step closure sq_sum sgd_step a).
Abbreviation spoof_step :=
  (Spoof.spoof_step tadd tneg is_parameter draw zeros lbfgs_step closure
     sq_sum sgd_new sgd_step distance a).
Abbreviation spoof_loop :=
  (Spoof.spoof_loop tadd tsub tdiv tneg is_parameter draw zeros lbfgs_step
     closure sq_sum sgd_new sgd_step distance a).

(** The numbers of the images written, in order, and the number of
    "retry!!" lines. *)
Definition images (tr : list ev) : list Z :=
  flat_map (fun e => match e with SaveImg i => [i] | _ => [] end) tr.

Definition retries (tr : list ev) : nat :=
  length (filter (fun e => match e with PrintRetry => true | _ => false end)
                 tr).

(** An event that is neither an image nor a retry. *)
Definition quiet (e : ev) : Prop :=
  match e with
  | SaveImg _ => False
  | PrintRetry => False
  | _ => True
  end.

Lemma images_app tr1 tr2 : images (tr1 ++ tr2) = images tr1 ++ images tr2.
Proof. apply flat_map_app. Qed.

Lemma retries_app tr1 tr2 : retries (tr1 ++ tr2) = (retries tr1 + retries tr2)%nat.
Proof. unfold retries. now rewrite filter_app, length_app. Qed.

Lemma quiet_counts tr : Forall quiet tr -> images tr = [] /\ retries tr = 0%nat.
Proof.
  induction 1 as [|e tr He _ [IH1 IH2]]; [split; reflexivity|].
  destruct e; try contradiction; split; assumption.
Qed.

Lemma images_saved (l : list Z) : images (map SaveImg l) = l.
Proof. induction l as [|x l IH]; cbn; [reflexivity | f_equal; exact IH]. Qed.

Lemma retries_saved (l : list Z) : retries (map SaveImg l) = 0%nat.
Proof. induction l as [|x l IH]; [reflexivity | exact IH]. Qed.

Lemma retry_loop_counts (ks : list Z) : forall (v v' : vars) tr,
  retry_loop ks v = (Ret v', tr) ->
  images tr = [] /\ (retries tr <= length ks)%nat /\ img_idx v' = img_idx v.
Proof.
  induction ks as [|k ks IH]; intros v v' tr H.
  - inversion H; subst. cbn. repeat split. lia.
  - cbn [Spoof.retry_loop] in H.
    destruct (snd (rounds zeros lbfgs_step closure sq_sum a (net v) (base v)
                     (d2 v))) as [[g s]|]; [|discriminate].
    destruct (accept a g s).
    + inversion H; subst. cbn. repeat split. lia.
    + apply bind_Ret_inv in H. destruct H as [[] [w1 [w2 [He [H ->]]]]].
      inversion He; subst w1. apply IH in H.
      destruct H as [Hi [Hr Hx]]. cbn in Hx.
      rewrite images_app, retries_app, Hi. cbn [length].
      repeat split; [|exact Hx]. cbn. lia.
Qed.

Lemma save_img_loop_idx (l : list Z) : forall (v : vars),
  exists v',
    for_each (@save_img tensor batch dummy) l v
    = (Ret v', map SaveImg (consec (img_idx v) (length l)))
    /\ img_idx v' = (img_idx v + Z.of_nat (length l))%Z.
Proof.
  induction l as [|x l IH]; intros v.
  - exists v. split; [reflexivity | cbn; lia].
  - destruct (IH (set_img_idx v (img_idx v + 1)%Z)) as [v' [H Hx]].
    exists v'. rewrite for_each_cons.
    change (save_img v x)
      with (Ret (set_img_idx v (img_idx v + 1)%Z),
            [@SaveImg (state_dict tensor) (img_idx v)]).
    rewrite bind_Ret, H. cbn [fst snd img_idx set_img_idx] in *.
    split; [|cbn [length]; lia].
    f_equal. cbn [length app].
    change (S (length l)) with (1 + length l)%nat.
    rewrite <- consec_app. cbn [consec seq map app Z.of_nat].
    rewrite Z.add_0_r. reflexivity.
Qed.

(** The images of one sub-batch: [int(k / cut)] of them. *)
Definition per_cut : nat := Z.to_nat (Z.quot (arg_k a) (arg_cut a)).

Lemma cut_step_counts (st st' : vars * sgd) (j : Z) tr :
  cut_step st j = (Ret st', tr) ->
  images tr = consec (img_idx (fst st)) per_cut /\
  (retries tr <= Z.to_nat (arg_retry a))%nat /\
  img_idx (fst st') = (img_idx (fst st) + Z.of_nat per_cut)%Z.
Proof.
  unfold Spoof.cut_step. intros H.
  apply bind_Ret_inv in H. destruct H as [v1 [w1 [w2 [H1 [H ->]]]]].
  apply retry_loop_counts in H1. destruct H1 as [Hi1 [Hr1 Hx1]].
  rewrite length_range in Hr1.
  destruct (dummy_data v1) as [d|]; [|discriminate].
  apply bind_Ret_inv in H. destruct H as [per [w3 [w4 [Hper [H ->]]]]].
  unfold int_div in Hper.
  destruct (arg_cut a =? 0)%Z; inversion Hper; subst; clear Hper.
  destruct (save_img_loop_idx (range (Z.quot (arg_k a) (arg_cut a))) v1)
    as [v2 [H2 Hx2]].
  fold (@save_img tensor batch dummy) in H. rewrite H2, bind_Ret in H.
  inversion H; subst; clear H. rewrite length_range in *.
  fold per_cut in Hx2. fold per_cut.
  cbn [app]. rewrite app_nil_r, images_app, retries_app, Hi1, images_saved,
    retries_saved, Hx1.
  cbn [fst snd app img_idx set_net]. split; [reflexivity|]. split; [lia|].
  rewrite Hx2, Hx1. reflexivity.
Qed.

Lemma cut_loop_counts (js : list Z) : forall (st st' : vars * sgd) tr,
  for_each cut_step js st = (Ret st', tr) ->
  images tr = consec (img_idx (fst st)) (length js * per_cut) /\
  (retries tr <= length js * Z.to_nat (arg_retry a))%nat /\
  img_idx (fst st')
  = (img_idx (fst st) + Z.of_nat (length js * per_cut))%Z.
Proof.
  induction js as [|j js IH]; intros st st' tr H.
  - inversion H; subst. cbn. repeat split; lia.
  - rewrite for_each_cons in H. apply bind_Ret_inv in H.
    destruct H as [st1 [w1 [w2 [H1 [H2 ->]]]]].
    apply cut_step_counts in H1. apply IH in H2.
    destruct H1 as [Hi1 [Hr1 Hx1]], H2 as [Hi2 [Hr2 Hx2]].
    rewrite images_app, retries_app, Hi1, Hi2, Hx1, Hx2.
    cbn [length Nat.mul]. rewrite consec_app. repeat split; lia.
Qed.

(** The threshold checks and the overwrite emit neither an image nor a
    retry. *)
Lemma check_metric_quiet (l : list (metric * (float * list float))) flag :
  Forall quiet (snd (for_each (@check_metric tensor) l flag)).
Proof.
  apply (@for_each_Forall _ _ _ quiet (fun _ => True)); [|exact I].
  intros f [o [thr row]] _ _. split; [|auto].
  unfold check_metric.
  destruct (Nat.eqb (Verify.count_above row thr) 0); cbn; repeat constructor.
Qed.

Lemma overwrite_quiet (original_weight step_weight : state_dict tensor)
    keys nw :
  Forall quiet
    (snd (for_each (overwrite_key tadd original_weight step_weight) keys nw)).
Proof.
  apply (@for_each_Forall _ _ _ quiet (fun _ => True)); [|exact I].
  intros s key _ _. split; [|auto]. unfold overwrite_key.
  destruct (dict_get key original_weight); [|constructor].
  destruct (dict_get key step_weight); constructor.
Qed.

Lemma Forall_False {A} (l : list A) : Forall (fun _ => False) l -> l = [].
Proof. destruct 1; [reflexivity | contradiction]. Qed.

Lemma step_key_silent (at_weight original_weight : state_dict tensor) keys sw :
  snd (for_each (step_key tsub tdiv a at_weight original_weight) keys sw) = [].
Proof.
  apply Forall_False.
  apply (@for_each_Forall _ _ _ (fun _ => False) (fun _ => True)); [|exact I].
  intros s key _ _. split; [|auto]. unfold step_key.
  destruct (dict_get key at_weight); [|constructor].
  destruct (dict_get key original_weight); constructor.
Qed.

(** The distances of a step. *)
Definition step_distances (k_step_dy_dx : list tensor) (v v1 : vars)
  : list float :=
  parameter_distance distance
    (target_of tadd tneg k_step_dy_dx (parameters is_parameter (net v)))
    (parameters is_parameter (net v1)) order.

(** The checks of lines 272-286 on the distances of a step. *)
Definition within (res : list float) : bool :=
  none_above (combine order (combine threshold (map (fun r => [r]) res))).

(** A step that completes, in full. *)
Lemma spoof_step_full (step_weight : state_dict tensor)
    (k_step_dy_dx : list tensor) (v v' : vars) (i : Z) tr :
  spoof_step step_weight k_step_dy_dx v i = (Ret v', tr) ->
  exists v1 opt tr1,
    for_each cut_step (range (arg_cut a)) (v, sgd_new (net v))
      = (Ret (v1, opt), tr1) /\
    ((arg_verify a = 0%Z /\ v' = v1 /\ tr = tr1) \/
     (arg_verify a <> 0%Z /\
      exists rest new_weight,
        tr = tr1 ++ rest /\ Forall quiet rest /\
        let res := step_distances k_step_dy_dx v v1 in
        v' = set_tally v1 new_weight
               (if within res then valid_count v1 + 1 else valid_count v1)%Z
               (map (fun rr => fst rr ++ snd rr)
                    (combine (diff v1) (map (fun r => [r]) res))))).
Proof.
  intros H. unfold Spoof.spoof_step in H.
  apply bind_Ret_inv in H. destruct H as [[v1 opt] [tr1 [w [Hcut [H ->]]]]].
  exists v1, opt, tr1. split; [exact Hcut|]. cbn [fst] in H.
  destruct (Z.eqb_spec (arg_verify a) 0) as [Hv|Hv].
  - left. inversion H; subst. rewrite app_nil_r. auto.
  - right. split; [exact Hv|].
    apply bind_Ret_inv in H. destruct H as [flag [trc [w0 [Hchk [H ->]]]]].
    pose proof (check_metric_quiet
                  (combine order
                     (combine threshold
                        (map (fun r => [r])
                           (step_distances k_step_dy_dx v v1)))) 0%Z) as Hqc.
    match type of Hchk with
    | for_each _ ?l _ = _ =>
        destruct (@check_metric_loop tensor l 0%Z) as [trc' [Hchk' _]];
        set (na := none_above l) in Hchk'
    end.
    unfold step_distances, target_of in Hqc.
    rewrite Hchk in Hqc, Hchk'. cbn [snd] in Hqc.
    inversion Hchk'; subst flag trc'; clear Hchk'.
    apply bind_Ret_inv in H. destruct H as [[] [wp [w' [Hp [H ->]]]]].
    inversion Hp; subst wp; clear Hp.
    apply bind_Ret_inv in H. destruct H as [new_weight [tr2 [w'' [Hov [H ->]]]]].
    pose proof (overwrite_quiet (net v) step_weight (keys (net v)) (net v1))
      as Hqo.
    rewrite Hov in Hqo. cbn [snd] in Hqo.
    apply bind_Ret_inv in H. destruct H as [[] [ws [w3 [Hsv [H ->]]]]].
    inversion Hsv; subst ws; clear Hsv. inversion H; subst v' w3; clear H.
    eexists. exists new_weight. split; [reflexivity|]. split.
    + apply Forall_app. split; [exact Hqc|].
      constructor; [exact I|]. apply Forall_app. split; [exact Hqo|].
      repeat constructor.
    + cbv zeta. unfold within, step_distances, target_of.
      change (none_above _) with na.
      destruct na; reflexivity.
Qed.

Lemma spoof_step_counts (step_weight : state_dict tensor)
    (k_step_dy_dx : list tensor) (v v' : vars) (i : Z) tr :
  spoof_step step_weight k_step_dy_dx v i = (Ret v', tr) ->
  images tr = consec (img_idx v) (Z.to_nat (arg_cut a) * per_cut) /\
  (retries tr <= Z.to_nat (arg_cut a) * Z.to_nat (arg_retry a))%nat /\
  img_idx v'
  = (img_idx v + Z.of_nat (Z.to_nat (arg_cut a) * per_cut))%Z.
Proof.
  intros H. apply spoof_step_full in H.
  destruct H as [v1 [opt [tr1 [Hcut Hcase]]]].
  apply cut_loop_counts in Hcut. rewrite length_range in Hcut.
  cbn [fst] in Hcut. destruct Hcut as [Hi [Hr Hx]].
  destruct Hcase as [[_ [-> ->]]|[_ [rest [nw [-> [Hq Hv']]]]]].
  - repeat split; assumption.
  - destruct (quiet_counts Hq) as [Hqi Hqr].
    rewrite images_app, retries_app, Hqi, Hqr, app_nil_r, Nat.add_0_r.
    cbv zeta in Hv'. rewrite Hv'. cbn [img_idx set_tally].
    repeat split; assumption.
Qed.

Lemma spoof_steps_counts (step_weight : state_dict tensor)
    (k_step_dy_dx : list tensor) (steps : list Z) : forall (v v' : vars) tr,
  for_each (spoof_step step_weight k_step_dy_dx) steps v = (Ret v', tr) ->
  let per_step := (Z.to_nat (arg_cut a) * per_cut)%nat in
  images tr = consec (img_idx v) (length steps * per_step) /\
  (retries tr
   <= length steps * (Z.to_nat (arg_cut a) * Z.to_nat (arg_retry a)))%nat /\
  img_idx v' = (img_idx v + Z.of_nat (length steps * per_step))%Z.
Proof.
  induction steps as [|i steps IH]; intros v v' tr H per_step.
  - inversion H; subst. cbn. repeat split; lia.
  - rewrite for_each_cons in H. apply bind_Ret_inv in H.
    destruct H as [v1 [w1 [w2 [H1 [H2 ->]]]]].
    apply spoof_step_counts in H1. apply IH in H2. cbv zeta in H2.
    fold per_step in H1, H2.
    destruct H1 as [Hi1 [Hr1 Hx1]], H2 as [Hi2 [Hr2 Hx2]].
    rewrite images_app, retries_app, Hi1, Hi2, Hx1, Hx2.
    cbn [length Nat.mul]. rewrite consec_app. repeat split; lia.
Qed.

Lemma spoof_loop_steps (net0 at_weight : state_dict tensor) (v : vars) tr :
  spoof_loop net0 at_weight = (Ret v, tr) ->
  exists step_weight,
    for_each (step_key tsub tdiv a at_weight net0) (keys at_weight) net0
      = (Ret step_weight, []) /\
    for_each (spoof_step step_weight (k_step tsub tdiv is_parameter a net0
                                        at_weight))
      (range (arg_t a)) (initial_vars draw dummy net0) = (Ret v, tr).
Proof.
  intros H. unfold Spoof.spoof_loop in H.
  apply bind_Ret_inv in H. destruct H as [sw [tr0 [tr1 [Hsw [H ->]]]]].
  pose proof (step_key_silent at_weight net0 (keys at_weight) net0) as Hq.
  rewrite Hsw in Hq. cbn [snd] in Hq. subst tr0.
  exists sw. split; [exact Hsw | exact H].
Qed.

Lemma consec_0 k : consec 0 k = map Z.of_nat (seq 0 k).
Proof. unfold consec. apply map_ext. intros j. lia. Qed.

(** X12.  When the Spoof Attacker runs to the end of its step loop, the
    synthetic images it has written are numbered [0, 1, 2, ...] without gap
    or repetition, in the order of writing, and there are
    [t * cut * int(k / cut)] of them, which is also the final value of
    [img_idx]: every sub-batch of every step writes [int(k / cut)] images,
    whatever the number of retries and whether verification is enabled. *)
Theorem spoof_loop_numbers_images (net0 at_weight : state_dict tensor)
    (v : vars) (tr : list ev) :
  spoof_loop net0 at_weight = (Ret v, tr) ->
  let total := (Z.to_nat (arg_t a)
                * (Z.to_nat (arg_cut a)
                   * Z.to_nat (Z.quot (arg_k a) (arg_cut a))))%nat in
  images tr = map Z.of_nat (seq 0 total) /\ img_idx v = Z.of_nat total.
Proof.
  intros H total. apply spoof_loop_steps in H.
  destruct H as [sw [_ H]]. apply spoof_steps_counts in H.
  cbv zeta in H. rewrite length_range in H. fold per_cut in total.
  fold total in H. cbn [img_idx initial_vars] in H.
  destruct H as [Hi [_ Hx]]. rewrite Hi, Hx, consec_0. split; [reflexivity|].
  lia.
Qed.

(** X13.  When the Spoof Attacker runs to the end of its step loop, the
    line "retry!!" has been printed at most [t * cut * retry] times: no
    sub-batch makes more than [retry] attempts. *)
Theorem spoof_loop_retry_budget (net0 at_weight : state_dict tensor)
    (v : vars) (tr : list ev) :
  spoof_loop net0 at_weight = (Ret v, tr) ->
  (retries tr
   <= Z.to_nat (arg_t a)
      * (Z.to_nat (arg_cut a) * Z.to_nat (arg_retry a)))%nat.
Proof.
  intros H. apply spoof_loop_steps in H.
  destruct H as [sw [_ H]]. apply spoof_steps_counts in H.
  cbv zeta in H. rewrite length_range in H. apply H.
Qed.

(** ** The tally *)

Abbreviation passes := (@SpoofFacts.passes tensor distance).

(** The rows of [diff] for the steps whose targets and reached parameters
    are [ps], and the number of these steps that pass the four checks. *)
Definition diff_of (ps : list (list tensor * list tensor))
  : list (list float) :=
  map (fun o => map (fun p => distance (fst p) (snd p) o) ps) order.

Definition passed (ps : list (list tensor * list tensor)) : Z :=
  Z.of_nat (length (filter (fun p => passes (fst p) (snd p)) ps)).

Lemma diff_of_snoc ps target reached :
  map (fun rr => fst rr ++ snd rr)
      (combine (diff_of ps)
         (map (fun r => [r]) (parameter_distance distance target reached order)))
  = diff_of (ps ++ [(target, reached)]).
Proof.
  unfold diff_of, parameter_distance. rewrite map_map.
  rewrite VerifyAllFacts.combine_map_same, map_map.
  apply map_ext. intros o. cbn [fst snd]. now rewrite map_app.
Qed.

Lemma passed_snoc ps target reached :
  passed (ps ++ [(target, reached)])
  = (if passes target reached then passed ps + 1 else passed ps)%Z.
Proof.
  unfold passed. rewrite filter_app, length_app. cbn [filter fst snd].
  destruct (passes target reached); cbn [length]; lia.
Qed.

Lemma passed_bounds ps : (0 <= passed ps <= Z.of_nat (length ps))%Z.
Proof.
  unfold passed. split; [lia|]. apply inj_le. apply filter_length_le.
Qed.

Lemma spoof_steps_tally (step_weight : state_dict tensor)
    (k_step_dy_dx : list tensor) (steps : list Z) :
  forall (v v' : vars) tr ps,
  (arg_verify a <> 0)%Z ->
  for_each (spoof_step step_weight k_step_dy_dx) steps v = (Ret v', tr) ->
  diff v = diff_of ps -> valid_count v = passed ps ->
  exists ps',
    length ps' = length steps /\
    diff v' = diff_of (ps ++ ps') /\ valid_count v' = passed (ps ++ ps').
Proof.
  induction steps as [|i steps IH]; intros v v' tr ps Hver H Hd Hc.
  - inversion H; subst. exists []. rewrite app_nil_r. auto.
  - rewrite for_each_cons in H. apply bind_Ret_inv in H.
    destruct H as [v1 [w1 [w2 [H1 [H2 ->]]]]].
    apply spoof_step_full in H1.
    destruct H1 as [v0 [opt [tr1 [Hcut [[Hz _]|[_ [rest [nw [_ [_ Hv1]]]]]]]]]];
      [contradiction|].
    pose proof Hcut as Hfr. apply cut_loop_frame in Hfr.
    destruct Hfr as [[Hc0 Hd0] _]. cbn [fst] in *.
    cbv zeta in Hv1. unfold within, step_distances in Hv1.
    fold (passes (target_of tadd tneg k_step_dy_dx
                    (parameters is_parameter (net v)))
                 (parameters is_parameter (net v0))) in Hv1.
    rewrite Hd0, Hd, diff_of_snoc, Hc0, Hc, <- passed_snoc in Hv1.
    destruct (IH v1 v' w2 (ps ++ [(target_of tadd tneg k_step_dy_dx
                                     (parameters is_parameter (net v)),
                                   parameters is_parameter (net v0))])
                Hver H2) as [ps' [Hl [Hd' Hc']]].
    + rewrite Hv1. reflexivity.
    + rewrite Hv1. reflexivity.
    + rewrite <- app_assoc in Hd', Hc'. cbn [app] in *.
      eexists (_ :: ps').
      split; [cbn [length]; now rewrite Hl|]. split; [exact Hd' | exact Hc'].
Qed.

(** X14.  When the Spoof Attacker runs to the end of its step loop with
    verification enabled, there is for each of the [t] steps a target and
    the parameters reached before the overwrite, such that the row of
    [diff] for a metric lists the distance between the two at each step, in
    step order, and [valid_count] is the number of the steps at which the
    four checks pass; in particular [valid_count] lies between 0 and [t],
    and the tally agrees with the distances that the conclusion
    summarises. *)
Theorem spoof_loop_tally (net0 at_weight : state_dict tensor)
    (v : vars) (tr : list ev) :
  (arg_verify a <> 0)%Z ->
  spoof_loop net0 at_weight = (Ret v, tr) ->
  exists ps : list (list tensor * list tensor),
    length ps = Z.to_nat (arg_t a) /\
    diff v = map (fun o => map (fun p => distance (fst p) (snd p) o) ps)
                 order /\
    valid_count v
    = Z.of_nat (length (filter (fun p => passes (fst p) (snd p)) ps)) /\
    (0 <= valid_count v <= Z.of_nat (Z.to_nat (arg_t a)))%Z.
Proof.
  intros Hver H. apply spoof_loop_steps in H. destruct H as [sw [_ H]].
  destruct (@spoof_steps_tally _ _ _ _ _ _ [] Hver H eq_refl eq_refl)
    as [ps [Hl [Hd Hc]]].
  cbn [app] in *. rewrite length_range in Hl.
  exists ps. split; [exact Hl|]. split; [exact Hd|]. split; [exact Hc|].
  rewrite Hc, <- Hl. apply passed_bounds.
Qed.

(** ** The conclusion *)

Abbreviation attack3 :=
  (Spoof.attack3 tadd tsub tdiv tneg is_parameter draw zeros lbfgs_step
     closure sq_sum sgd_new sgd_step distance a).
Abbreviation saved := (@SpoofFacts.saved tensor).

(** Lines 310-313: [np.min] of every row of [diff]. *)
Definition summarise (rows : list (list float)) : run ev unit :=
  for_each (fun _ row => match row with
                         | [] => raise ValueError
                         | _ => ret tt
                         end) rows tt.

Lemma summarise_rows (rows : list (list float)) :
  Forall (fun row => row <> []) rows -> summarise rows = (Ret tt, []).
Proof.
  unfold summarise. induction 1 as [|row rows Hrow _ IH]; [reflexivity|].
  rewrite for_each_cons. destruct row as [|d row]; [congruence|].
  rewrite bind_ret_l. exact IH.
Qed.

Lemma spoof_steps_unverified (step_weight : state_dict tensor)
    (k_step_dy_dx : list tensor) (steps : list Z) : forall (v v' : vars) tr,
  arg_verify a = 0%Z ->
  for_each (spoof_step step_weight k_step_dy_dx) steps v = (Ret v', tr) ->
  frame v v' /\ saved tr = [].
Proof.
  induction steps as [|i steps IH]; intros v v' tr Hver H.
  - inversion H; subst. split; [apply frame_refl | reflexivity].
  - rewrite for_each_cons in H. apply bind_Ret_inv in H.
    destruct H as [v1 [w1 [w2 [H1 [H2 ->]]]]].
    apply spoof_step_full in H1.
    destruct H1 as [v0 [opt [tr1 [Hcut [[_ [-> ->]]|[Hnz _]]]]]];
      [|contradiction].
    apply cut_loop_frame in Hcut. destruct Hcut as [Hf1 Hs1]. cbn [fst] in Hf1.
    destruct (IH _ _ _ Hver H2) as [Hf2 Hs2]. split.
    + eapply frame_trans; eassumption.
    + rewrite saved_app, Hs1, Hs2. reflexivity.
Qed.

(** X15.  The conclusion of [attack3], once the step loop has completed.
    With verification disabled, or with no step ([t <= 0]), no checkpoint
    has been saved, [valid_count] is 0 and the rows of [diff] are empty:
    after the line that reports [valid_count], the summary of the first
    metric raises the [ValueError] of [np.min] on an empty row.  With
    verification enabled and at least one step, every row holds [t]
    distances and [attack3] returns. *)
Theorem attack3_conclusion (net0 at_weight : state_dict tensor)
    (v : vars) (tr : list ev) :
  spoof_loop net0 at_weight = (Ret v, tr) ->
  let run := attack3 net0 at_weight in
  ((arg_verify a = 0 \/ arg_t a <= 0)%Z ->
   saved tr = [] /\ valid_count v = 0%Z /\
   run = (Raise ValueError, tr ++ [PrintConclusion 0 (arg_t a)])) /\
  ((arg_verify a <> 0 /\ 1 <= arg_t a)%Z ->
   run = (Ret tt, tr ++ [PrintConclusion (valid_count v) (arg_t a)])).
Proof.
  intros H run.
  assert (Hrun : run = (fst (summarise (diff v)),
                        tr ++ PrintConclusion (valid_count v) (arg_t a)
                              :: snd (summarise (diff v)))).
  { subst run. unfold Spoof.attack3. rewrite H, bind_Ret.
    unfold bind, emit. cbn [fst snd app]. reflexivity. }
  apply spoof_loop_steps in H. destruct H as [sw [_ H]].
  split.
  - intros Hcase.
    assert (Hfr : frame (initial_vars draw dummy net0) v /\ saved tr = []).
    { destruct (Z.eq_dec (arg_verify a) 0) as [Hz|Hnz].
      - exact (@spoof_steps_unverified _ _ _ _ _ _ Hz H).
      - destruct Hcase as [Hz|Ht]; [contradiction|].
        unfold range in H. rewrite TopQBounds.range2_empty in H by lia.
        inversion H; subst. split; [apply frame_refl | reflexivity]. }
    destruct Hfr as [[Hc Hd] Hs]. cbn [valid_count diff initial_vars] in Hc, Hd.
    split; [exact Hs|]. split; [exact Hc|].
    rewrite Hrun, Hd, Hc. reflexivity.
  - intros [Hver Ht].
    destruct (@spoof_steps_tally _ _ _ _ _ _ [] Hver H eq_refl eq_refl)
      as [ps [Hl [Hd Hc]]].
    cbn [app] in Hd. rewrite length_range in Hl.
    rewrite Hrun, Hd, summarise_rows; [reflexivity|].
    apply Forall_forall. intros row Hrow. apply in_map_iff in Hrow.
    destruct Hrow as [o [<- _]]. destruct ps as [|p ps]; [cbn in Hl; lia|].
    discriminate.
Qed.

(** X16.  With a retry budget of zero, or with no optimisation round, the
    first sub-batch of the first step finds no perturbation: the step loop
    raises the [NameError] of a variable read before any assignment
    ([dummy_data], or [d2grad]), before any image or checkpoint has been
    written. *)
Theorem spoof_loop_needs_an_attempt (net0 at_weight : state_dict tensor) :
  keys at_weight = keys net0 -> NoDup (keys net0) ->
  (1 <= arg_t a)%Z -> (1 <= arg_cut a)%Z ->
  (arg_retry a <= 0 \/ arg_round a <= 0)%Z ->
  spoof_loop net0 at_weight = (Raise NameError, []).
Proof.
  intros Hk Hnd Ht Hcut Hcase.
  assert (Hstep : forall opt,
            cut_step (initial_vars draw dummy net0, opt) 0%Z
            = (Raise NameError, [])).
  { intros opt. unfold Spoof.cut_step. cbn [fst snd].
    destruct (Z.le_gt_cases (arg_retry a) 0) as [Hr|Hr].
    - unfold range. rewrite TopQBounds.range2_empty by lia. reflexivity.
    - destruct Hcase as [Hc|Hc]; [lia|].
      destruct (TopQEpoch.range_first (epochs := arg_retry a) ltac:(lia))
        as [ks ->].
      cbn [Spoof.retry_loop net base d2 initial_vars]. unfold rounds, range.
      rewrite TopQBounds.range2_empty by lia. reflexivity. }
  assert (Hs : forall sw ks,
            spoof_step sw ks (initial_vars draw dummy net0) 0%Z
            = (Raise NameError, [])).
  { intros sw ks. unfold Spoof.spoof_step.
    destruct (TopQEpoch.range_first Hcut) as [cuts ->].
    rewrite for_each_cons, Hstep, !bind_Raise. reflexivity. }
  unfold Spoof.spoof_loop.
  rewrite (@step_weight_loop tensor tsub tdiv a net0 at_weight Hk Hnd),
    bind_Ret. cbn [fst snd app].
  destruct (TopQEpoch.range_first Ht) as [steps ->].
  fold (initial_vars draw dummy net0).
  rewrite for_each_cons, Hs, bind_Raise. reflexivity.
Qed.

End Counts.

(** ** What is saved is the target *)

Section Target.

Variable tensor : Type.
Variable tadd tsub : tensor -> tensor -> tensor.
Variable tdiv : tensor -> Z -> tensor.
Variable tneg : tensor -> tensor.
Variable is_parameter : String.string -> bool.
Variable batch : Type.
Variable draw : nat -> batch.
Variable dummy : Type.
Variable zeros : args -> dummy.
Variable lbfgs_step : state_dict tensor -> batch -> dummy -> dummy.
Variable closure : state_dict tensor -> batch -> dummy -> float.
Variable sq_sum : dummy -> float.
Variable sgd : Type.
Variable sgd_new : state_dict tensor -> sgd.
Variable sgd_step :
  state_dict tensor * sgd -> batch -> dummy -> Z -> state_dict tensor * sgd.
Variable distance : list tensor -> list tensor -> metric -> float.
Variable a : args.

(** SGD steps keep the keys of the state dictionary. *)
Hypothesis sgd_keys :
  forall s b d i, keys (fst (sgd_step s b d i)) = keys (fst s).

(** Subtracting the [t]-th part of [x - y] is adding the [t]-th part of
    [y - x]. *)
Hypothesis neg_div_sub : forall c x y,
  tadd (tneg (tdiv (tsub x y) (arg_t a))) c
  = tadd c (tdiv (tsub y x) (arg_t a)).

Lemma parameters_dict_map2 (f : tensor -> tensor -> tensor)
    (x y : state_dict tensor) :
  keys x = keys y ->
  parameters is_parameter (dict_map2 f x y)
  = map (fun p => f (fst p) (snd p))
        (combine (parameters is_parameter x) (parameters is_parameter y)).
Proof.
  unfold parameters, dict_map2, keys. revert y.
  induction x as [|[k u] x IH]; intros [|[k' u'] y] H; cbn in *;
    try discriminate; [reflexivity|].
  injection H as -> H. destruct (is_parameter k'); cbn; [f_equal|];
    apply IH; exact H.
Qed.

Lemma target_is_next (at0 c0 cur : list tensor) :
  target_of tadd tneg
    (map (fun ac => tdiv (tsub (snd ac) (fst ac)) (arg_t a)) (combine at0 c0))
    cur
  = map (fun p => tadd (fst p) (snd p))
        (combine cur
           (map (fun p => tdiv (tsub (fst p) (snd p)) (arg_t a))
                (combine at0 c0))).
Proof.
  unfold target_of. revert c0 cur.
  induction at0 as [|x at0 IH]; intros [|y c0] [|c cur]; cbn;
    try reflexivity.
  rewrite neg_div_sub, IH. reflexivity.
Qed.

(** X17.  When the Spoof Attacker runs to the end of its step loop with
    verification enabled, on two state dictionaries with the same keys, the
    checkpoint saved at the end of a step holds, as its parameters, exactly
    the target of that step, the list [target_param] that the tally of the
    step measured the trained parameters against: what the attack claims
    as the result of the step is the target, not what training on the
    synthetic batches reached. *)
Theorem spoof_loop_saves_targets (net0 at_weight : state_dict tensor)
    (v : Spoof.vars tensor batch dummy)
    (tr : list (event (state_dict tensor))) :
  keys at_weight = keys net0 ->
  NoDup (keys net0) ->
  (arg_verify a <> 0)%Z ->
  Spoof.spoof_loop tadd tsub tdiv tneg is_parameter draw zeros lbfgs_step
    closure sq_sum sgd_new sgd_step distance a net0 at_weight = (Ret v, tr) ->
  let step_weight :=
    dict_map2 (fun w o => tdiv (tsub w o) (arg_t a)) at_weight net0 in
  map (fun p => parameters is_parameter (snd p)) (saved tr)
  = map (fun i =>
           target_of tadd tneg
             (k_step tsub tdiv is_parameter a net0 at_weight)
             (parameters is_parameter (linear_path tadd net0 step_weight i)))
        (seq 0 (Z.to_nat (arg_t a))).
Proof.
  intros Hk Hnd Hver H step_weight.
  apply spoof_loop_steps in H. destruct H as [sw [Hsw H]].
  rewrite (@step_weight_loop tensor tsub tdiv a net0 at_weight Hk Hnd) in Hsw.
  injection Hsw as <-. fold step_weight in H.
  assert (Hks : keys step_weight = keys net0).
  { subst step_weight. rewrite keys_dict_map2; [exact Hk | exact Hk]. }
  unfold range, range2 in H. rewrite Z.sub_0_r in H.
  destruct (@spoof_steps_linear_path tensor tadd tneg is_parameter batch draw
              dummy zeros lbfgs_step closure sq_sum sgd sgd_new sgd_step
              distance a sgd_keys net0 step_weight _ _ 0
              (initial_vars draw dummy net0) v tr Hver Hnd Hks
              eq_refl H) as [Hsaved _].
  rewrite Hsaved, map_map. apply map_ext. intros i. cbn [snd linear_path].
  rewrite parameters_dict_map2
    by (rewrite keys_linear_path by exact Hks; now rewrite Hks).
  subst step_weight. rewrite (parameters_dict_map2 _ _ _ Hk).
  unfold k_step. symmetry. apply target_is_next.
Qed.

End Target.

(** ** The toy attack *)

(** The toy attack of three steps of two sub-batches, with [k = 2]: six
    images. *)
Lemma spoof_loop_numbers_images_witness :
  exists v tr,
    Toy.spoof_loop Toy.spoof_args3 Toy.start_weights Toy.near_weights
      = (Ret v, tr) /\
    images tr = map Z.of_nat (seq 0 6) /\ img_idx v = Z.of_nat 6.
Proof.
  eexists. eexists. split; [vm_compute; reflexivity|].
  apply (@spoof_loop_numbers_images Z Z.add Z.sub Z.div Z.opp
           Toy.is_parameter nat Toy.draw nat Toy.zeros Toy.lbfgs_step
           Toy.closure Toy.sq_sum unit Toy.sgd_new Toy.sgd_step Toy.l1
           Toy.spoof_args3 Toy.start_weights Toy.near_weights).
  vm_compute. reflexivity.
Defined.

(** There the budget is of two attempts for each of the six sub-batches. *)
Lemma spoof_loop_retry_budget_witness :
  exists v tr,
    Toy.spoof_loop Toy.spoof_args3 Toy.start_weights Toy.near_weights
      = (Ret v, tr) /\
    (retries tr <= 3 * (2 * 2))%nat.
Proof.
  eexists. eexists. split; [vm_compute; reflexivity|].
  eapply (@spoof_loop_retry_budget Z Z.add Z.sub Z.div Z.opp
            Toy.is_parameter nat Toy.draw nat Toy.zeros Toy.lbfgs_step
            Toy.closure Toy.sq_sum unit Toy.sgd_new Toy.sgd_step Toy.l1
            Toy.spoof_args3 Toy.start_weights Toy.near_weights).
  vm_compute. reflexivity.
Defined.

(** There the tally is over three steps. *)
Lemma spoof_loop_tally_witness :
  exists v tr,
    Toy.spoof_loop Toy.spoof_args3 Toy.start_weights Toy.near_weights
      = (Ret v, tr) /\
    exists ps : list (list Z * list Z),
      length ps = 3%nat /\
      diff v = map (fun o => map (fun p => Toy.l1 (fst p) (snd p) o) ps)
                   order /\
      valid_count v
      = Z.of_nat (length (filter (fun p => passes Toy.l1 (fst p) (snd p))
                                 ps)) /\
      (0 <= valid_count v <= Z.of_nat 3)%Z.
Proof.
  eexists. eexists. split; [vm_compute; reflexivity|].
  eapply (@spoof_loop_tally Z Z.add Z.sub Z.div Z.opp
            Toy.is_parameter nat Toy.draw nat Toy.zeros Toy.lbfgs_step
            Toy.closure Toy.sq_sum unit Toy.sgd_new Toy.sgd_step Toy.l1
            Toy.spoof_args3 Toy.start_weights Toy.near_weights).
  - discriminate.
  - vm_compute. reflexivity.
Defined.

(** The toy attack of three steps, with verification enabled. *)
Lemma attack3_conclusion_witness :
  exists v tr,
    Toy.spoof_loop Toy.spoof_args3 Toy.start_weights Toy.near_weights
      = (Ret v, tr) /\
    let run := Spoof.attack3 Z.add Z.sub Z.div Z.opp Toy.is_parameter
                 Toy.draw Toy.zeros Toy.lbfgs_step Toy.closure Toy.sq_sum
                 Toy.sgd_new Toy.sgd_step Toy.l1 Toy.spoof_args3
                 Toy.start_weights Toy.near_weights in
    ((1 = 0 \/ 3 <= 0)%Z ->
     saved tr = [] /\ valid_count v = 0%Z /\
     run = (Raise ValueError, tr ++ [PrintConclusion 0 3])) /\
    ((1 <> 0 /\ 1 <= 3)%Z ->
     run = (Ret tt, tr ++ [PrintConclusion (valid_count v) 3])).
Proof.
  eexists. eexists. split; [vm_compute; reflexivity|].
  apply (@attack3_conclusion Z Z.add Z.sub Z.div Z.opp
           Toy.is_parameter nat Toy.draw nat Toy.zeros Toy.lbfgs_step
           Toy.closure Toy.sq_sum unit Toy.sgd_new Toy.sgd_step Toy.l1
           Toy.spoof_args3 Toy.start_weights Toy.near_weights).
  vm_compute. reflexivity.
Defined.

(** With verification disabled the toy attack saves nothing, and its
    conclusion raises. *)
Example attack3_without_verification :
  let a := {| arg_t := 3; arg_k := 2; arg_batchsize := 1; arg_retry := 2;
              arg_gd := 15; arg_nd := 20; arg_round := 1; arg_verify := 0;
              arg_cut := 2 |} in
  saved (snd (Toy.spoof_loop a Toy.start_weights Toy.near_weights)) = []
  /\ fst (Spoof.attack3 Z.add Z.sub Z.div Z.opp Toy.is_parameter
            Toy.draw Toy.zeros Toy.lbfgs_step Toy.closure Toy.sq_sum
            Toy.sgd_new Toy.sgd_step Toy.l1 a Toy.start_weights
            Toy.near_weights)
     = Raise ValueError.
Proof. vm_compute. split; reflexivity. Qed.

(** The toy attack with a retry budget of zero. *)
Lemma spoof_loop_needs_an_attempt_witness :
  Toy.spoof_loop
    {| arg_t := 3; arg_k := 2; arg_batchsize := 1; arg_retry := 0;
       arg_gd := 15; arg_nd := 20; arg_round := 1; arg_verify := 1;
       arg_cut := 2 |} Toy.start_weights Toy.near_weights
  = (Raise NameError, []).
Proof.
  apply (@spoof_loop_needs_an_attempt Z Z.add Z.sub Z.div Z.opp
           Toy.is_parameter nat Toy.draw nat Toy.zeros Toy.lbfgs_step
           Toy.closure Toy.sq_sum unit Toy.sgd_new Toy.sgd_step Toy.l1).
  - reflexivity.
  - repeat constructor. intros [].
  - cbn. lia.
  - cbn. lia.
  - left. cbn. lia.
Defined.

(** The toy attack of three steps from the weight 0 towards the weight 6,
    with the truncating division of integers as the division of tensors:
    the checkpoints saved hold the targets 2, 4 and 6. *)
Lemma spoof_loop_saves_targets_witness :
  exists v tr,
    Spoof.spoof_loop Z.add Z.sub Z.quot Z.opp Toy.is_parameter Toy.draw
      Toy.zeros Toy.lbfgs_step Toy.closure Toy.sq_sum Toy.sgd_new
      Toy.sgd_step Toy.l1 Toy.spoof_args3 Toy.start_weights Toy.near_weights
      = (Ret v, tr) /\
    let step_weight :=
      dict_map2 (fun w o => Z.quot (w - o) 3) Toy.near_weights
        Toy.start_weights in
    map (fun p => parameters Toy.is_parameter (snd p)) (saved tr)
    = map (fun i =>
             target_of Z.add Z.opp
               (k_step Z.sub Z.quot Toy.is_parameter Toy.spoof_args3
                  Toy.start_weights Toy.near_weights)
               (parameters Toy.is_parameter
                  (linear_path Z.add Toy.start_weights step_weight i)))
          (seq 0 (Z.to_nat 3)).
Proof.
  eexists. eexists. split; [vm_compute; reflexivity|].
  eapply (@spoof_loop_saves_targets Z Z.add Z.sub Z.quot Z.opp
            Toy.is_parameter nat Toy.draw nat Toy.zeros Toy.lbfgs_step
            Toy.closure Toy.sq_sum unit Toy.sgd_new Toy.sgd_step Toy.l1
            Toy.spoof_args3).
  - intros s b d i. reflexivity.
  - intros c x y. cbn [arg_t Toy.spoof_args3].
    replace (y - x)%Z with (- (x - y))%Z by lia.
    rewrite Z.quot_opp_l by lia. lia.
  - reflexivity.
  - repeat constructor. intros [].
  - discriminate.
  - vm_compute. reflexivity.
Defined.

End SpoofCounts.

(* ===================================================================== *)
(** * The two verifiers on the same proof *)
(* ===================================================================== *)

Module TopQAgreement.
Import Py.
Local Open Scope run_scope.
Import PyFacts Verify VerifyAllFacts TopQRanking TopQSelection TopQEpoch.
Import TraceFacts VerifyAllReplay TopQBounds TopQReplay TopQCoverage.

(** ** Lists of metrics, thresholds and rows, position by position *)

Lemma In_combine3_l {A B C} (x : A) (y : B) (z : C) la lb lc :
  In (x, (y, z)) (combine la (combine lb lc)) -> In (x, y) (combine la lb).
Proof.
  revert lb lc. induction la as [|a la IH]; intros [|b lb] [|c lc] H;
    cbn in *; try contradiction.
  destruct H as [H|H]; [left; congruence | right; eapply IH; exact H].
Qed.

Lemma In_combine3_append {A} (d : A -> float) (la : list A) :
  forall (lb : list float) (rows : list (list float)) x thr row',
  In (x, (thr, row'))
     (combine la (combine lb (append_each rows (map d la)))) ->
  exists row, row' = row ++ [d x]
              /\ In (x, (thr, row)) (combine la (combine lb rows)).
Proof.
  unfold append_each.
  induction la as [|a la IH]; intros [|b lb] [|r rows] x thr row' H;
    cbn in *; try contradiction.
  destruct H as [H|H].
  - inversion H; subst. exists r. split; [reflexivity | now left].
  - destruct (IH _ _ _ _ _ H) as [row [Hrow Hin]].
    exists row. split; [exact Hrow | now right].
Qed.

Section Agreement.

Variables (network hyper : Type).
Variable train : hyper -> model network -> list Z -> network.
Variable distance : hyper -> model network -> model network -> metric -> float.
Variables (h : hyper) (sequence : list Z) (save_freq : Z).
Variables (order : list metric) (threshold : list float).

Let n := Z.of_nat (length sequence).

Abbreviation interval_distance :=
  (VerifyAllFacts.interval_distance train distance h sequence save_freq).

(** Every interval of the trajectory reproduces within the thresholds. *)
Definition accepted : Prop :=
  forall o thr, In (o, thr) (combine order threshold) ->
  forall j, (0 <= j)%Z -> (j * save_freq < n)%Z ->
    ~ (thr < interval_distance (Checkpoint _ (j * save_freq))
               (j * save_freq) o)%Q.

(** No distance gathered so far is above its threshold. *)
Definition rows_ok (rows : list (list float)) : Prop :=
  forall o thr row, In (o, (thr, row)) (combine order (combine threshold rows)) ->
  forall d, In d row -> ~ (thr < d)%Q.

(** An event other than an "invalid" verdict. *)
Definition not_invalid (e : event network) : Prop :=
  match e with
  | Log _ (MsgInvalid _ _ _) => False
  | _ => True
  end.

Lemma rows_ok_empty : rows_ok (empty_rows order).
Proof.
  intros o thr row Hin d Hd.
  apply in_combine_r in Hin. apply in_combine_r in Hin.
  unfold empty_rows in Hin. apply in_map_iff in Hin.
  destruct Hin as [_ [<- _]]. contradiction.
Qed.

Lemma rows_ok_append rows (a b : model network) :
  rows_ok rows ->
  (forall o thr, In (o, thr) (combine order threshold) ->
                 ~ (thr < distance h a b o)%Q) ->
  rows_ok (append_each rows (parameter_distance distance h a b order)).
Proof.
  intros Hrows Hd o thr row' Hin d Hdin.
  unfold parameter_distance in Hin.
  apply In_combine3_append in Hin. destruct Hin as [row [-> Hin]].
  apply in_app_or in Hdin. destruct Hdin as [Hdin|[<-|[]]].
  - exact (Hrows o thr row Hin d Hdin).
  - apply Hd. eapply In_combine3_l. exact Hin.
Qed.

Hypothesis Hsf : (0 < save_freq)%Z.
Hypothesis Hacc : accepted.

Lemma check_step_accepts (start width : Z) (st : topq_state) (ind : npitem) :
  (0 <= start)%Z -> ((start + width - 1) * save_freq < n)%Z ->
  item_below width ind -> rows_ok (snd st) ->
  Forall not_invalid
    (snd (topq_check_step train distance h sequence save_freq order start
            st ind)) /\
  forall st', fst (topq_check_step train distance h sequence save_freq order
                     start st ind) = Ret st' -> rows_ok (snd st').
Proof.
  intros Hs Hw Hind Hrows. unfold topq_check_step.
  destruct (int_of (np_mul (np_add start ind) save_freq)) as [step|e] eqn:Hi;
    [|split; [constructor | discriminate]].
  assert (Hstep : exists j, (0 <= j)%Z /\ (j * save_freq < n)%Z
                            /\ step = (j * save_freq)%Z).
  { destruct ind as [i|xs]; cbn in Hi, Hind.
    - inversion Hi; subst step. exists (start + i)%Z.
      repeat split; [lia | nia].
    - destruct xs as [|x [|y xs]]; try discriminate.
      cbn in Hi. inversion Hi; subst step.
      inversion Hind as [|? ? Hx _]; subst. exists (start + x)%Z.
      repeat split; [lia | nia]. }
  destruct Hstep as [j [Hj0 [Hjn ->]]]. fold n.
  unfold lift. rewrite bind_Ret. cbn [fst snd app].
  assert (Hd : forall o thr, In (o, thr) (combine order threshold) ->
             ~ (thr < distance h
                        (interval_target network sequence save_freq
                           (j * save_freq))
                        (Reproduced
                           (train h (Checkpoint _ (j * save_freq))
                              (interval_slice sequence save_freq
                                 (j * save_freq)))) o)%Q).
  { intros o thr Hin. exact (Hacc Hin Hj0 Hjn). }
  unfold interval_target, interval_slice in Hd. fold n in Hd.
  destruct (j * save_freq + save_freq >=? n)%Z;
    unfold call_train, call_distance, bind, emit, ret; cbn [fst snd app];
    (split; [repeat constructor|]);
    intros st' Hst'; inversion Hst'; subst st'; cbn [snd];
    apply rows_ok_append; assumption.
Qed.

Lemma report_accepts q (rows : list (list float)) :
  rows_ok rows ->
  Forall not_invalid
    (snd (for_each (fun _ okr => topq_report network q okr)
            (combine order (combine threshold rows)) tt)).
Proof.
  intros Hrows.
  apply (@for_each_Forall _ _ _ not_invalid (fun _ => True)); [|exact I].
  intros [] [o [thr row]] Hin _. split; [|auto].
  unfold topq_report. cbn.
  assert (Hv : verdict row thr = MsgValid).
  { apply verdict_valid_iff. exact (Hrows o thr row Hin). }
  rewrite Hv. repeat constructor.
Qed.

Lemma topq_epoch_accepts q (start stop : Z) (res : list pyvalue) :
  (0 <= start)%Z -> ((stop - 1) * save_freq < n)%Z ->
  Forall not_invalid
    (snd (topq_epoch train distance h sequence save_freq order threshold q
            start stop res)).
Proof.
  intros Hs Hstop. unfold topq_epoch.
  rewrite topq_phase1_eq. apply bind_Forall; cbn [fst snd].
  { apply Forall_forall. intros e He. apply in_map_iff in He.
    destruct He as [i [<- _]]. exact I. }
  intros st1 Hst1. inversion Hst1; subst st1; clear Hst1. cbn [fst snd].
  fold (rank_rows distance h sequence save_freq order start stop).
  destruct (topq_select order
              (rank_rows distance h sequence save_freq order start stop) q)
    as [steps|e] eqn:Hsel; [|constructor].
  unfold lift. rewrite bind_Ret. cbn [fst snd app].
  pose proof (@topq_select_items order _ q steps _ Hsel
                (rank_rows_length distance h sequence save_freq order
                   start stop)) as Hitems.
  assert (Hp2 : Forall not_invalid
                  (snd (topq_phase2 train distance h sequence save_freq order
                          start steps
                          (rank_res distance h sequence save_freq order start
                             (range2 start stop) res))) /\
                forall st2,
                  fst (topq_phase2 train distance h sequence save_freq order
                         start steps
                         (rank_res distance h sequence save_freq order start
                            (range2 start stop) res)) = Ret st2 ->
                  rows_ok (snd st2)).
  { unfold topq_phase2.
    apply (@for_each_Forall _ _ _ not_invalid (fun st => rows_ok (snd st)));
      [|apply rows_ok_empty].
    intros st ind Hin Hrows.
    rewrite Forall_forall in Hitems. specialize (Hitems ind Hin).
    destruct (Z.le_gt_cases stop start) as [Hle|Hgt].
    - (* an epoch without interval: the only item is the empty row of a
         single metric, on which [int] raises *)
      replace (Z.to_nat (stop - start)) with 0%nat in Hitems by lia.
      destruct ind as [i|xs]; cbn in Hitems; [lia|].
      destruct xs as [|x xs].
      + rewrite topq_check_step_row by (cbn; lia).
        split; [constructor | discriminate].
      + inversion Hitems; subst. lia.
    - apply (@check_step_accepts start (stop - start)); try assumption.
      + replace (start + (stop - start) - 1)%Z with (stop - 1)%Z by lia.
        exact Hstop.
      + replace (Z.of_nat (Z.to_nat (stop - start))) with (stop - start)%Z
          in Hitems by lia.
        exact Hitems. }
  destruct Hp2 as [Hp2 Hok].
  apply bind_Forall; [exact Hp2|].
  intros st2 Hst2. apply bind_Forall; [|intros; constructor].
  apply report_accepts. now apply Hok.
Qed.

End Agreement.

Lemma round_below (n sf : Z) :
  (0 < sf)%Z -> (0 <= n)%Z ->
  ((np_round (inject_Z n / inject_Z sf)%Q - 1) * sf < n)%Z.
Proof.
  intros Hsf Hn.
  pose proof (Z.div_mod n sf ltac:(lia)) as Hdm.
  pose proof (Z.mod_pos_bound n sf Hsf) as Hb.
  destruct (Z.eq_dec (n mod sf) 0) as [Hz|Hnz].
  - rewrite np_round_div_low by lia. nia.
  - pose proof (np_round_bounds (inject_Z n / inject_Z sf)%Q) as Hr.
    rewrite Qfloor_inject_div in Hr by exact Hsf. nia.
Qed.

Lemma verdicts_not_invalid {network} (tr : list (event network)) :
  Forall (@not_invalid network) tr ->
  forall m, In m (verdicts tr) -> m = MsgValid.
Proof.
  induction 1 as [|e tr He _ IH]; intros m Hm; [contradiction|].
  unfold verdicts in Hm. cbn [flat_map] in Hm. apply in_app_or in Hm.
  destruct Hm as [Hm|Hm]; [|now apply IH].
  destruct e as [| |msg]; try contradiction.
  destruct msg; try contradiction.
  - destruct Hm as [<-|[]]. reflexivity.
Qed.

(** X18.  The Top-Q Verifier never rejects a proof that the Full Verifier
    accepts: on the same directory, index sequence, metrics and thresholds,
    if every verdict line of [verify_all] is the valid one, then every
    verdict line that [verify_topq] logs, in any epoch, for any [q], is the
    valid one too.  The distances of its deep checks are distances that
    [verify_all] computes, for the same intervals replayed from the same
    recorded checkpoints. *)
Theorem topq_accepts_what_full_accepts (network hyper : Type)
    (train : hyper -> model network -> list Z -> network)
    (distance : hyper -> model network -> model network -> metric -> float)
    (dir_exists : bool) (h : hyper) (sequence : list Z) (save_freq : Z)
    (args : metric_args) (epochs q : Z) :
  length (fst (metric_lists args)) = length (snd (metric_lists args)) ->
  (1 <= epochs)%Z -> (0 < save_freq)%Z -> sequence <> [] ->
  (forall m,
     In m (verdicts (snd (verify_all train distance true sequence h save_freq
                            args))) -> m = MsgValid) ->
  forall m,
    In m (verdicts (snd (verify_topq train distance dir_exists sequence h
                           save_freq args epochs q))) -> m = MsgValid.
Proof.
  intros Hlen He Hsf Hne Hfull.
  set (order := fst (metric_lists args)) in *.
  set (threshold := snd (metric_lists args)) in *.
  set (n := Z.of_nat (length sequence)).
  assert (Hacc : accepted train distance h sequence save_freq order threshold).
  { rewrite verify_all_as_lists in Hfull by exact Hlen.
    fold order threshold in Hfull.
    destruct (@verify_all_lists _ _ train distance h sequence save_freq
                order threshold Hlen Hsf Hne) as [steps [Hr [_ Hrun]]].
    cbv zeta in Hrun. rewrite Hrun in Hfull. cbn [snd] in Hfull.
    rewrite verdicts_app, verdicts_intervals, verdicts_report in Hfull.
    cbn [app] in Hfull.
    destruct (range3_up (Z.of_nat (length sequence)) Hsf) as [Hr' [_ _]].
    rewrite Hr' in Hr. injection Hr as <-.
    intros o thr Hin j Hj0 Hjn.
    set (row := fun o => map (fun i => VerifyAllFacts.interval_distance train
                                         distance h sequence save_freq
                                         (Checkpoint _ i) i o)
                             (map (fun k => (Z.of_nat k * save_freq)%Z)
                                  (seq 0 (Z.to_nat ((Z.of_nat (length sequence)
                                                     - 0 + save_freq - 1)
                                                    / save_freq))))) in *.
    assert (Hv : verdict (row o) thr = MsgValid).
    { apply Hfull. apply in_map_iff. exists (o, (thr, row o)).
      split; [reflexivity|].
      assert (Hin3 : forall (lo : list metric) (lt : list float),
                In (o, thr) (combine lo lt) ->
                In (o, (thr, row o)) (combine lo (combine lt (map row lo)))).
      { induction lo as [|o' lo IH]; intros [|t' lt] H; cbn in *;
          try contradiction.
        destruct H as [H|H]; [left; inversion H; reflexivity | right; auto]. }
      apply Hin3. exact Hin. }
    rewrite verdict_valid_iff in Hv. apply Hv. subst row. cbn beta.
    apply in_map_iff. exists (j * save_freq)%Z. split; [reflexivity|].
    apply in_map_iff. exists (Z.to_nat j). split; [lia|].
    apply in_seq. split; [lia|]. cbn [Nat.add].
    assert (Hj : (j < (Z.of_nat (length sequence) - 0 + save_freq - 1)
                      / save_freq)%Z); [|lia].
    pose proof (Z.div_le_lower_bound (Z.of_nat (length sequence) - 0
                                      + save_freq - 1) save_freq (j + 1) Hsf
                  ltac:(nia)). lia. }
  assert (Hall : Forall (@not_invalid network)
                   (snd (verify_topq train distance dir_exists sequence h
                           save_freq args epochs q))).
  { destruct (verify_topq_guards train distance dir_exists sequence h
                save_freq args epochs q)
      as [[e [Hr _]]|[_ [_ [c [Hc Hr]]]]]; rewrite Hr; [constructor|].
    fold order threshold. fold n in Hc.
    assert (Hn0 : (0 <= n)%Z) by lia.
    assert (Hsf1 : (1 <= save_freq)%Z) by lia.
    pose proof (fun e => @epoch_bound_range n epochs save_freq c Hn0 He Hsf1
                           Hc e) as Hb.
    pose proof (@round_below n save_freq Hsf ltac:(lia)) as Hround.
    apply (@for_each_Forall _ _ _ (@not_invalid network) (fun _ => True));
      [|exact I].
    intros res epoch Hin _. split; [|auto].
    apply In_range2 in Hin. destruct (Hb epoch ltac:(lia)) as [[H0 H1] H2].
    unfold epoch_body. apply bind_Forall; [repeat constructor|].
    intros _ _. apply topq_epoch_accepts; try assumption. fold n. nia. }
  exact (verdicts_not_invalid Hall).
Qed.

(** The toy trajectory of four steps checkpointed every two steps, under
    thresholds of 10, which the Full Verifier accepts. *)
Lemma topq_accepts_what_full_accepts_witness :
  Forall (fun m => m = MsgValid)
    (verdicts (snd (verify_topq Toy.train Toy.distance true
                      [0; 1; 2; 3]%Z tt 2
                      (Many Toy.two_metrics [10; 10]%Q) 1 1))).
Proof.
  apply Forall_forall.
  apply (@topq_accepts_what_full_accepts Z unit Toy.train Toy.distance true
           tt [0; 1; 2; 3]%Z 2 (Many Toy.two_metrics [10; 10]%Q) 1 1).
  - reflexivity.
  - lia.
  - lia.
  - discriminate.
  - intros m Hm. vm_compute in Hm.
    repeat (destruct Hm as [Hm|Hm]; [now subst|]). contradiction.
Defined.

End TopQAgreement.

(* ===================================================================== *)
(** * The Top-Q Verifier on an epoch without checkpoint interval *)
(* ===================================================================== *)

Module TopQEmptyEpoch.
Import Py.
Local Open Scope run_scope.
Import PyFacts Verify VerifyAllFacts TopQRanking TopQSelection TopQEpoch.







End TopQEmptyEpoch.
